(** * Reminder scheduling and delivery engine

    A shallow embedding of the reminder engine of the hospital notification
    system: the data model ([src/models/reminder_models.py]), the reminder
    service ([src/services/reminder_service.py]), the Redis queue service
    ([src/services/redis_service.py]) and the scheduler's failure handling
    ([src/services/scheduler.py]).

    Conventions of the embedding:
    - a [datetime] is the number of seconds since the epoch, a [Z], and its
      [timestamp()] is that number (the host's clock is on UTC);
      [timedelta(seconds=n)] is [n] when it exists, and adding it to a
      [datetime] raises [OverflowError] when the sum is no [datetime]
      ([datetime_add]); every call reads the clock once and the value read is
      an argument [now] of the call;
    - a Python exception is a value of [exn]; a function that may raise
      returns a [result];
    - an object mutated in place (the [ReminderData] a method works on) is
      threaded through the method as a value, and written back to the table
      where the source calls [_update_reminder_in_db];
    - logging has no effect on the state and is left out. *)

From Stdlib Require Import ZArith List String Ascii Bool Lia.
From stdpp Require Import base decidable option list strings pretty gmap fin_maps.

Open Scope string_scope.
Open Scope Z_scope.

(** ** Exceptions and results *)

Inductive exn : Type :=
| ValueError (msg : string)
| TypeError (msg : string)
| IndexError
| OverflowError (msg : string)
| ConnectionError
| ResponseError (msg : string).

Inductive result (A : Type) : Type :=
| Ok (a : A)
| Raise (e : exn).
Arguments Ok {A} a.
Arguments Raise {A} e.

(** Sequencing: the first exception raised is the result. *)
#[global] Instance result_ret : MRet result := fun A a => Ok a.
#[global] Instance result_bind : MBind result := fun A B k r =>
  match r with
  | Ok a => k a
  | Raise e => Raise e
  end.

(** [str(e)] for the exceptions of the model. *)
Definition exn_str (e : exn) : string :=
  match e with
  | ValueError msg => msg
  | TypeError msg => msg
  | IndexError => "list index out of range"
  | OverflowError msg => msg
  | ConnectionError => "Error connecting to Redis"
  | ResponseError msg => msg
  end.

(** Python's [l[i]]: a negative index counts from the end, an index out of
    range raises [IndexError]. *)
Definition py_index {A} (l : list A) (i : Z) : result A :=
  let n := Z.of_nat (length l) in
  if decide (0 <= i < n) then
    match l !! Z.to_nat i with Some x => Ok x | None => Raise IndexError end
  else if decide (- n <= i < 0) then
    match l !! Z.to_nat (n + i) with Some x => Ok x | None => Raise IndexError end
  else Raise IndexError.

(** ** Dates

    The seconds of [datetime.min], 0001-01-01 00:00:00, and of the last
    second of [datetime.max], 9999-12-31 23:59:59. *)
Definition datetime_min : Z := -62135596800.
Definition datetime_max : Z := 253402300799.

(** [timedelta(seconds=n)] for an [int]: the days, [n // 86400], must fit a
    C [int] and be at most 999999999 in magnitude. *)
Definition timedelta (seconds : Z) : result Z :=
  let days := seconds / 86400 in
  if (days <? - 2 ^ 31) || (2 ^ 31 <=? days) then
    Raise (OverflowError "Python int too large to convert to C int")
  else if (days <? -999999999) || (999999999 <? days) then
    Raise (OverflowError ("days=" ++ pretty days
                          ++ "; must have magnitude <= 999999999"))
  else Ok seconds.

(** [t + timedelta(seconds=n)] for a [datetime] [t]: the sum must be a
    [datetime], of a year from 1 to 9999. *)
Definition datetime_add (t : Z) (seconds : Z) : result Z :=
  delta ← timedelta seconds;
  if (datetime_min <=? t + delta) && (t + delta <=? datetime_max) then
    Ok (t + delta)
  else Raise (OverflowError "date value out of range").

(** Truth value of an [Optional[str]]: [None] and the empty string are false. *)
Definition truthy (s : option string) : bool :=
  match s with
  | Some s => negb (String.eqb s "")
  | None => false
  end.

(** [str.lower()] on the ASCII letters.  A string is a sequence of bytes here;
    no letter outside ASCII has a lower case that is an ASCII letter of the
    words the code compares with, so the comparison is the source's. *)
Definition lower_ascii (c : ascii) : ascii :=
  let n := nat_of_ascii c in
  if (65 <=? n)%nat && (n <=? 90)%nat then ascii_of_nat (n + 32) else c.

Fixpoint lower (s : string) : string :=
  match s with
  | EmptyString => EmptyString
  | String c s' => String (lower_ascii c) (lower s')
  end.

(** ** Data model ([reminder_models.py]) *)

Module Models.

Inductive ReminderType : Type :=
| APPOINTMENT | MEDICATION | HEALTH_TIP | EMERGENCY_ALERT | FOLLOW_UP.

(** The seven statuses of [ReminderStatus].  A record holds the status
    itself where the source stores the member's [.value]. *)
Inductive ReminderStatus : Type :=
| PENDING | SCHEDULED | SENT | DELIVERED | FAILED | CANCELLED | RETRY.

Inductive DeliveryMethod : Type := SMS | VOICE | BOTH.

Inductive Priority : Type := LOW | NORMAL | HIGH | URGENT.

#[global] Instance ReminderType_eq_dec : EqDecision ReminderType.
Proof. solve_decision. Defined.
#[global] Instance ReminderStatus_eq_dec : EqDecision ReminderStatus.
Proof. solve_decision. Defined.
#[global] Instance DeliveryMethod_eq_dec : EqDecision DeliveryMethod.
Proof. solve_decision. Defined.
#[global] Instance Priority_eq_dec : EqDecision Priority.
Proof. solve_decision. Defined.

Definition status_value (s : ReminderStatus) : string :=
  match s with
  | PENDING => "pending"
  | SCHEDULED => "scheduled"
  | SENT => "sent"
  | DELIVERED => "delivered"
  | FAILED => "failed"
  | CANCELLED => "cancelled"
  | RETRY => "retry"
  end.

(** The dataclass [ReminderData]. *)
Record ReminderData : Type := mkReminder {
  id : option Z;
  patient_id : Z;
  reminder_type : ReminderType;
  delivery_method : DeliveryMethod;
  status : ReminderStatus;
  scheduled_time : option Z;
  priority : Priority;
  custom_message : option string;
  metadata : gmap string string;
  created_at : option Z;
  updated_at : option Z;
  sent_at : option Z;
  delivered_at : option Z;
  retry_count : Z;
  max_retries : Z;
  retry_interval : Z;
  twilio_sid : option string;
  error_message : option string
}.

#[global] Instance ReminderData_eq_dec : EqDecision ReminderData.
Proof. solve_decision. Defined.

(** Field updates, one per attribute the code assigns. *)
Definition set_id v (r : ReminderData) : ReminderData :=
  mkReminder v (patient_id r) (reminder_type r) (delivery_method r) (status r)
    (scheduled_time r) (priority r) (custom_message r) (metadata r)
    (created_at r) (updated_at r) (sent_at r) (delivered_at r)
    (retry_count r) (max_retries r) (retry_interval r) (twilio_sid r)
    (error_message r).
Definition set_status v (r : ReminderData) : ReminderData :=
  mkReminder (id r) (patient_id r) (reminder_type r) (delivery_method r) v
    (scheduled_time r) (priority r) (custom_message r) (metadata r)
    (created_at r) (updated_at r) (sent_at r) (delivered_at r)
    (retry_count r) (max_retries r) (retry_interval r) (twilio_sid r)
    (error_message r).
Definition set_scheduled_time v (r : ReminderData) : ReminderData :=
  mkReminder (id r) (patient_id r) (reminder_type r) (delivery_method r)
    (status r) v (priority r) (custom_message r) (metadata r)
    (created_at r) (updated_at r) (sent_at r) (delivered_at r)
    (retry_count r) (max_retries r) (retry_interval r) (twilio_sid r)
    (error_message r).
Definition set_priority v (r : ReminderData) : ReminderData :=
  mkReminder (id r) (patient_id r) (reminder_type r) (delivery_method r)
    (status r) (scheduled_time r) v (custom_message r) (metadata r)
    (created_at r) (updated_at r) (sent_at r) (delivered_at r)
    (retry_count r) (max_retries r) (retry_interval r) (twilio_sid r)
    (error_message r).
Definition set_custom_message v (r : ReminderData) : ReminderData :=
  mkReminder (id r) (patient_id r) (reminder_type r) (delivery_method r)
    (status r) (scheduled_time r) (priority r) v (metadata r)
    (created_at r) (updated_at r) (sent_at r) (delivered_at r)
    (retry_count r) (max_retries r) (retry_interval r) (twilio_sid r)
    (error_message r).
Definition set_metadata v (r : ReminderData) : ReminderData :=
  mkReminder (id r) (patient_id r) (reminder_type r) (delivery_method r)
    (status r) (scheduled_time r) (priority r) (custom_message r) v
    (created_at r) (updated_at r) (sent_at r) (delivered_at r)
    (retry_count r) (max_retries r) (retry_interval r) (twilio_sid r)
    (error_message r).
Definition set_updated_at v (r : ReminderData) : ReminderData :=
  mkReminder (id r) (patient_id r) (reminder_type r) (delivery_method r)
    (status r) (scheduled_time r) (priority r) (custom_message r) (metadata r)
    (created_at r) v (sent_at r) (delivered_at r)
    (retry_count r) (max_retries r) (retry_interval r) (twilio_sid r)
    (error_message r).
Definition set_sent_at v (r : ReminderData) : ReminderData :=
  mkReminder (id r) (patient_id r) (reminder_type r) (delivery_method r)
    (status r) (scheduled_time r) (priority r) (custom_message r) (metadata r)
    (created_at r) (updated_at r) v (delivered_at r)
    (retry_count r) (max_retries r) (retry_interval r) (twilio_sid r)
    (error_message r).
Definition set_delivered_at v (r : ReminderData) : ReminderData :=
  mkReminder (id r) (patient_id r) (reminder_type r) (delivery_method r)
    (status r) (scheduled_time r) (priority r) (custom_message r) (metadata r)
    (created_at r) (updated_at r) (sent_at r) v
    (retry_count r) (max_retries r) (retry_interval r) (twilio_sid r)
    (error_message r).
Definition set_retry_count v (r : ReminderData) : ReminderData :=
  mkReminder (id r) (patient_id r) (reminder_type r) (delivery_method r)
    (status r) (scheduled_time r) (priority r) (custom_message r) (metadata r)
    (created_at r) (updated_at r) (sent_at r) (delivered_at r)
    v (max_retries r) (retry_interval r) (twilio_sid r)
    (error_message r).
Definition set_max_retries v (r : ReminderData) : ReminderData :=
  mkReminder (id r) (patient_id r) (reminder_type r) (delivery_method r)
    (status r) (scheduled_time r) (priority r) (custom_message r) (metadata r)
    (created_at r) (updated_at r) (sent_at r) (delivered_at r)
    (retry_count r) v (retry_interval r) (twilio_sid r)
    (error_message r).
Definition set_retry_interval v (r : ReminderData) : ReminderData :=
  mkReminder (id r) (patient_id r) (reminder_type r) (delivery_method r)
    (status r) (scheduled_time r) (priority r) (custom_message r) (metadata r)
    (created_at r) (updated_at r) (sent_at r) (delivered_at r)
    (retry_count r) (max_retries r) v (twilio_sid r)
    (error_message r).
Definition set_twilio_sid v (r : ReminderData) : ReminderData :=
  mkReminder (id r) (patient_id r) (reminder_type r) (delivery_method r)
    (status r) (scheduled_time r) (priority r) (custom_message r) (metadata r)
    (created_at r) (updated_at r) (sent_at r) (delivered_at r)
    (retry_count r) (max_retries r) (retry_interval r) v
    (error_message r).
Definition set_error_message v (r : ReminderData) : ReminderData :=
  mkReminder (id r) (patient_id r) (reminder_type r) (delivery_method r)
    (status r) (scheduled_time r) (priority r) (custom_message r) (metadata r)
    (created_at r) (updated_at r) (sent_at r) (delivered_at r)
    (retry_count r) (max_retries r) (retry_interval r) (twilio_sid r)
    v.

(** The statuses the specification calls terminal. *)
Definition terminal (s : ReminderStatus) : bool :=
  match s with
  | SENT | DELIVERED | CANCELLED | FAILED => true
  | PENDING | SCHEDULED | RETRY => false
  end.

(** The bookkeeping invariant [0 <= retry_count <= max_retries]. *)
Definition retry_inv (r : ReminderData) : Prop :=
  0 <= retry_count r <= max_retries r.

End Models.
Import Models.

(** ** Scheduler configuration ([config_api.py]) *)

Record SchedulerConfig : Type := mkSchedulerConfig {
  check_interval : Z;
  batch_size : Z;
  worker_threads : Z;
  max_queue_size : Z;
  retry_delays : list Z;
  max_retry_attempts : Z;
  metrics_interval : Z;
  cleanup_interval : Z
}.

(** [SchedulerConfig()] with its defaults, [retry_delays] filled in by
    [__post_init__]. *)
Definition default_config : SchedulerConfig :=
  mkSchedulerConfig 60 50 4 1000 [300; 900; 1800] 3 300 86400.

(** ** Retry delay ([scheduler.py]) *)

Definition _calculate_retry_delay (config : SchedulerConfig) (retry_count : Z)
  : result Z :=
  let len := Z.of_nat (length (retry_delays config)) in
  if retry_count <=? len then
    py_index (retry_delays config) (retry_count - 1)
  else
    base_delay ← py_index (retry_delays config) (-1);
    Ok (Z.min (base_delay * 2 ^ (retry_count - len)) 3600).


(** ** The Redis backend and the queue service ([redis_service.py]) *)

Module Redis.

(** The projection of a reminder that [ReminderService._schedule_reminder]
    serialises. *)
Record queue_entry : Type := mkEntry {
  e_id : option Z;
  e_patient_id : Z;
  e_reminder_type : ReminderType;
  e_delivery_method : DeliveryMethod;
  e_priority : Priority;
  e_custom_message : option string;
  e_metadata : gmap string string
}.

(** A member of a queue is a text.  The texts of the model are the JSON of
    a whole reminder ([json.dumps(asdict(r))]), the JSON of a queue entry,
    and text that is not JSON; [json.dumps] is injective on the first two,
    so they are represented by the value they encode. *)
Inductive member : Type :=
| Full (r : ReminderData)
| Entry (e : queue_entry)
| Text (s : string).

#[global] Instance queue_entry_eq_dec : EqDecision queue_entry.
Proof. solve_decision. Defined.
#[global] Instance member_eq_dec : EqDecision member.
Proof. solve_decision. Defined.

(** What a date attribute holds once a reminder has been through JSON:
    [json.dumps(..., default=str)] writes a [datetime] as the text [str]
    gives, the dataclass built from [json.loads(m)] stores that text as it is, and
    [__post_init__] stamps a missing [created_at] or [updated_at] with the
    clock reading, a [datetime]. *)
Inductive json_date : Type :=
| DateText (t : Z)
| Stamped (t : Z).

(** What an attribute naming a status, a type, a method or a priority holds
    once a reminder has been through JSON: a text, never a member of the
    enum.  The text is the one the attribute held or, where the attribute
    held a member, what [default=str] writes for it
    (['ReminderStatus.RETRY']); [WrittenFrom a] is the text written from an
    attribute naming [a]. *)
Inductive json_enum (A : Type) : Type :=
| WrittenFrom (a : A).
Arguments WrittenFrom {A} a.

(** The object a queue method builds from [json.loads(m)].  The dataclass
    converts nothing, so the object differs from a reminder made by the
    service in its dates and in the attributes that name an enum. *)
Record LoadedReminder : Type := mkLoaded {
  l_id : option Z;
  l_patient_id : Z;
  l_reminder_type : json_enum ReminderType;
  l_delivery_method : json_enum DeliveryMethod;
  l_status : json_enum ReminderStatus;
  l_scheduled_time : option json_date;
  l_priority : json_enum Priority;
  l_custom_message : option string;
  l_metadata : gmap string string;
  l_created_at : json_date;
  l_updated_at : json_date;
  l_sent_at : option json_date;
  l_delivered_at : option json_date;
  l_retry_count : Z;
  l_max_retries : Z;
  l_retry_interval : Z;
  l_twilio_sid : option string;
  l_error_message : option string
}.

#[global] Instance json_date_eq_dec : EqDecision json_date.
Proof. solve_decision. Defined.
#[global] Instance json_enum_eq_dec {A} `{EqDecision A} :
  EqDecision (json_enum A).
Proof. solve_decision. Defined.
#[global] Instance LoadedReminder_eq_dec : EqDecision LoadedReminder.
Proof. solve_decision. Defined.

(** The object read back from the JSON of a whole reminder. *)
Definition loads (now : Z) (r : ReminderData) : LoadedReminder :=
  mkLoaded (id r) (patient_id r) (WrittenFrom (reminder_type r))
    (WrittenFrom (delivery_method r)) (WrittenFrom (status r))
    (DateText <$> scheduled_time r) (WrittenFrom (priority r))
    (custom_message r) (metadata r)
    (from_option DateText (Stamped now) (created_at r))
    (from_option DateText (Stamped now) (updated_at r))
    (DateText <$> sent_at r) (DateText <$> delivered_at r)
    (retry_count r) (max_retries r) (retry_interval r) (twilio_sid r)
    (error_message r).

(** The dataclass built from the dictionary [json.loads(m)]: the keys of a
    queue entry are fields of the dataclass, the other fields take their
    defaults and [__post_init__] stamps [created_at] and [updated_at]. *)
Definition load_reminder (now : Z) (m : member) : result LoadedReminder :=
  match m with
  | Full r => Ok (loads now r)
  | Entry e =>
      Ok (mkLoaded (e_id e) (e_patient_id e) (WrittenFrom (e_reminder_type e))
            (WrittenFrom (e_delivery_method e)) (WrittenFrom PENDING) None
            (WrittenFrom (e_priority e))
            (e_custom_message e) (e_metadata e) (Stamped now) (Stamped now)
            None None 0 3 300 None None)
  | Text _ => Raise (ValueError "Expecting value")
  end.

(** [json.loads(m).get('id')]. *)
Definition load_id (m : member) : result (option Z) :=
  match m with
  | Full r => Ok (id r)
  | Entry e => Ok (e_id e)
  | Text _ => Raise (ValueError "Expecting value")
  end.

Inductive zkey : Type := SCHEDULED_REMINDERS | RETRY_REMINDERS.

(** The state of the server: whether it can be reached, the two sorted
    sets (member and score, members unique), the immediate list (head on
    the left), the string keys with their expiry time, and the counters
    hash.  The server orders members of equal score by the bytes of their
    text, which the representation of a member does not have:
    [byte_order s m m'] tells whether the text of [m] comes before the text
    of [m'], and every property of the server is proved for every such
    order. *)
Record state : Type := mkState {
  reachable : bool;
  scheduled : list (member * Z);
  retry : list (member * Z);
  immediate : list member;
  strings : gmap string (string * Z);
  counters : gmap string Z;
  byte_order : member -> member -> bool
}.

(** A server that holds nothing.  No two of its members have the same
    score until some are added, and the order chosen for it is used by no
    proof. *)
Definition empty_state : state := mkState true [] [] [] ∅ ∅ (fun _ _ => true).

Definition set_reachable (b : bool) (s : state) : state :=
  mkState b (scheduled s) (retry s) (immediate s) (strings s) (counters s)
    (byte_order s).

Definition zget (k : zkey) (s : state) : list (member * Z) :=
  match k with
  | SCHEDULED_REMINDERS => scheduled s
  | RETRY_REMINDERS => retry s
  end.

Definition zput (k : zkey) (z : list (member * Z)) (s : state) : state :=
  match k with
  | SCHEDULED_REMINDERS =>
      mkState (reachable s) z (retry s) (immediate s) (strings s) (counters s)
        (byte_order s)
  | RETRY_REMINDERS =>
      mkState (reachable s) (scheduled s) z (immediate s) (strings s) (counters s)
        (byte_order s)
  end.

Definition put_immediate (l : list member) (s : state) : state :=
  mkState (reachable s) (scheduled s) (retry s) l (strings s) (counters s)
    (byte_order s).

Definition put_strings (m : gmap string (string * Z)) (s : state) : state :=
  mkState (reachable s) (scheduled s) (retry s) (immediate s) m (counters s)
    (byte_order s).

Definition put_counters (m : gmap string Z) (s : state) : state :=
  mkState (reachable s) (scheduled s) (retry s) (immediate s) (strings s) m
    (byte_order s).

(** *** Sorted sets *)

Definition zmem (m : member) (z : list (member * Z)) : bool :=
  existsb (fun e => bool_decide (e.1 = m)) z.

Fixpoint zset_add (m : member) (score : Z) (z : list (member * Z))
  : list (member * Z) :=
  match z with
  | [] => [(m, score)]
  | e :: z' => if decide (e.1 = m) then (m, score) :: z'
               else e :: zset_add m score z'
  end.

Definition zset_rem (m : member) (z : list (member * Z)) : list (member * Z) :=
  filter (fun e => e.1 <> m) z.

Fixpoint insert_by_score (before : member -> member -> bool)
    (x : member * Z) (l : list (member * Z)) : list (member * Z) :=
  match l with
  | [] => [x]
  | y :: l' =>
      if (x.2 <? y.2) || ((x.2 =? y.2) && before x.1 y.1) then x :: l
      else y :: insert_by_score before x l'
  end.

(** The members in the order of the server: by score, and among members of
    equal score by the bytes of the member, as [before] tells. *)
Definition zsorted (before : member -> member -> bool)
    (z : list (member * Z)) : list (member * Z) :=
  foldl (fun acc x => insert_by_score before x acc) [] z.

(** *** Commands of the client

    A command runs on the state and raises [ConnectionError], leaving the
    state as it is, when the server cannot be reached. *)

Definition M (A : Type) : Type := state -> result A * state.

#[global] Instance M_ret : MRet M := fun A a s => (Ok a, s).
#[global] Instance M_bind : MBind M := fun A B k c s =>
  match c s with
  | (Ok a, s') => k a s'
  | (Raise e, s') => (Raise e, s')
  end.

Definition raise {A} (e : exn) : M A := fun s => (Raise e, s).

Definition lift {A} (r : result A) : M A := fun s => (r, s).

(** [try: body except Exception as e: handler e]. *)
Definition try_except {A} (body : M A) (handler : exn -> M A) : M A :=
  fun s =>
    match body s with
    | (Ok a, s') => (Ok a, s')
    | (Raise e, s') => handler e s'
    end.

(** A command of the client: it runs on the server when the server can be
    reached and raises [ConnectionError] otherwise. *)
Definition command {A} (f : state -> A * state) : M A :=
  fun s =>
    if reachable s then (Ok (f s).1, (f s).2) else (Raise ConnectionError, s).

Definition zadd (k : zkey) (m : member) (score : Z) : M Z :=
  command (fun s =>
    let z := zget k s in
    (if zmem m z then 0 else 1, zput k (zset_add m score z) s)).

Definition zrem (k : zkey) (m : member) : M Z :=
  command (fun s =>
    let z := zget k s in
    (if zmem m z then 1 else 0, zput k (zset_rem m z) s)).

(** [zrange(k, 0, -1)]. *)
Definition zrange_all (k : zkey) : M (list member) :=
  command (fun s => (map fst (zsorted (byte_order s) (zget k s)), s)).

(** What the server reads as a signed 64-bit integer. *)
Definition int64 (n : Z) : bool := (- 2 ^ 63 <=? n) && (n <? 2 ^ 63).

Definition not_an_integer : exn :=
  ResponseError "value is not an integer or out of range".

(** [zrangebyscore(k, lo, hi, start=start, num=num)]: the server refuses a
    [start] or [num] that is no signed 64-bit integer; a negative [num]
    takes everything from [start] on, a negative [start] nothing. *)
Definition zrangebyscore (k : zkey) (lo hi : Z) (start num : Z)
  : M (list member) :=
  r ← command (fun s =>
    if int64 start && int64 num then
      let hits :=
        filter (fun e => lo <= e.2 <= hi) (zsorted (byte_order s) (zget k s)) in
      let from := if start <? 0 then [] else drop (Z.to_nat start) hits in
      (Ok (map fst (if num <? 0 then from else take (Z.to_nat num) from)), s)
    else (Raise not_an_integer, s));
  lift r.

Definition lpush (m : member) : M Z :=
  command (fun s =>
    let l := m :: immediate s in
    (Z.of_nat (length l), put_immediate l s)).

Definition rpop : M (option member) :=
  command (fun s =>
    (last (immediate s), put_immediate (removelast (immediate s)) s)).

Definition llen : M Z :=
  command (fun s => (Z.of_nat (length (immediate s)), s)).

(** The value of a string key that has not expired at [now]. *)
Definition live (now : Z) (key : string) (s : state) : option string :=
  match strings s !! key with
  | Some (v, expires_at) => if now <? expires_at then Some v else None
  | None => None
  end.

(** The expiry of [SET ... EX] and [SETEX], in seconds.  The server
    refuses one that is no signed 64-bit integer, that is not positive, or
    whose milliseconds, alone or added to the server's clock, leave the
    signed 64-bit integers. *)
Definition expire_error (command_name : string) (now ex : Z) : option exn :=
  if negb (int64 ex) then Some not_an_integer
  else if (ex <=? 0) || ((2 ^ 63 - 1) / 1000 <? ex)
          || ((now + ex) * 1000 <=? 0) || negb (int64 ((now + ex) * 1000))
  then Some (ResponseError ("invalid expire time in '" ++ command_name
                            ++ "' command"))
  else None.

(** [set(key, value, nx=True, ex=ex)]: [None] when the key exists. *)
Definition set_nx_ex (now : Z) (key value : string) (ex : Z)
  : M (option bool) :=
  r ← command (fun s =>
    match expire_error "set" now ex with
    | Some e => (Raise e, s)
    | None =>
        match live now key s with
        | Some _ => (Ok None, s)
        | None =>
            (Ok (Some true),
             put_strings (<[key := (value, now + ex)]> (strings s)) s)
        end
    end);
  lift r.

(** [delete(key)]: the number of keys removed. *)
Definition delete_key (now : Z) (key : string) : M Z :=
  command (fun s =>
    (match live now key s with Some _ => 1 | None => 0 end,
     put_strings (delete key (strings s)) s)).

(** [hincrby(name, field, value)]: the server refuses an increment that
    is no signed 64-bit integer, or that takes the counter out of them. *)
Definition hincrby (field : string) (value : Z) : M Z :=
  r ← command (fun s =>
    let v := default 0 (counters s !! field) + value in
    if negb (int64 value) then (Raise not_an_integer, s)
    else if negb (int64 v) then
      (Raise (ResponseError "increment or decrement would overflow"), s)
    else (Ok v, put_counters (<[field := v]> (counters s)) s));
  lift r.

End Redis.

(** The class [RedisService].  Every method takes the clock reading [now] of
    the call first. *)
Module RedisService.
Import Redis.

Definition enqueue_scheduled_reminder (now : Z) (reminder_data : ReminderData)
    (delay_seconds : Z) : M unit :=
  try_except
    (let reminder_json := Full reminder_data in
     if 0 <? delay_seconds then
       execute_at ← lift (datetime_add now delay_seconds);
       let score := execute_at in
       _ ← zadd SCHEDULED_REMINDERS reminder_json score; mret tt
     else
       _ ← lpush reminder_json; mret tt)
    (fun e => raise e).

Definition enqueue_immediate_reminder (now : Z) (reminder_data : ReminderData)
  : M unit :=
  enqueue_scheduled_reminder now reminder_data 0.

Definition enqueue_retry_reminder (now : Z) (reminder_data : ReminderData)
    (retry_delay : Z) : M unit :=
  try_except
    (let reminder_json := Full reminder_data in
     execute_at ← lift (datetime_add now retry_delay);
     let score := execute_at in
     _ ← zadd RETRY_REMINDERS reminder_json score; mret tt)
    (fun e => raise e).

(** The loop over the due members of a sorted set: a member that parses is
    appended to [reminders] and then removed from the set; an exception in
    either step is swallowed and the loop goes on. *)
Fixpoint collect_due (now : Z) (k : zkey) (results : list member)
    (reminders : list LoadedReminder) : M (list LoadedReminder) :=
  match results with
  | [] => mret reminders
  | reminder_json :: rest =>
      match load_reminder now reminder_json with
      | Raise _ => collect_due now k rest reminders
      | Ok reminder_data =>
          let reminders := (reminders ++ [reminder_data])%list in
          _ ← try_except (_ ← zrem k reminder_json; mret tt)
                         (fun _ => mret tt);
          collect_due now k rest reminders
      end
  end.

Definition get_due_scheduled_reminders (now : Z) (limit : Z)
  : M (list LoadedReminder) :=
  try_except
    (results ← zrangebyscore SCHEDULED_REMINDERS 0 now 0 limit;
     collect_due now SCHEDULED_REMINDERS results [])
    (fun _ => mret []).

Definition get_due_retry_reminders (now : Z) (limit : Z)
  : M (list LoadedReminder) :=
  try_except
    (results ← zrangebyscore RETRY_REMINDERS 0 now 0 limit;
     collect_due now RETRY_REMINDERS results [])
    (fun _ => mret []).

(** The loop [for _ in range(n)] of [get_immediate_reminders]. *)
Fixpoint pop_immediate (now : Z) (n : nat) (reminders : list LoadedReminder)
  : M (list LoadedReminder) :=
  match n with
  | O => mret reminders
  | S n' =>
      reminder_json ← rpop;
      match reminder_json with
      | Some m =>
          match load_reminder now m with
          | Ok reminder_data => pop_immediate now n' (reminders ++ [reminder_data])%list
          | Raise _ => pop_immediate now n' reminders
          end
      | None => pop_immediate now n' reminders
      end
  end.

Definition get_immediate_reminders (now : Z) (limit : Z)
  : M (list LoadedReminder) :=
  try_except
    (n ← llen;
     pop_immediate now (Z.to_nat (Z.min limit n)) [])
    (fun _ => mret []).

Definition increment_counter (metric_name : string) (value : Z) : M unit :=
  try_except (_ ← hincrby metric_name value; mret tt) (fun _ => mret tt).

Definition lock_key (lock_name : string) : string := "locks:" ++ lock_name.

(** The identifier written under the lock: the text of the clock reading,
    a [float] (whole seconds here, so the text ends in [.0]). *)
Definition identifier (now : Z) : string := pretty now ++ ".0".

Definition acquire_lock (now : Z) (lock_name : string) (timeout : Z) : M bool :=
  try_except
    (result ← set_nx_ex now (lock_key lock_name) (identifier now) timeout;
     mret (bool_decide (result <> None)))
    (fun _ => mret false).

Definition release_lock (now : Z) (lock_name : string) : M bool :=
  try_except
    (n ← delete_key now (lock_key lock_name);
     mret (0 <? n))
    (fun _ => mret false).

(** The holder of a lock: the identifier stored under its key. *)
Definition holder (now : Z) (lock_name : string) (s : state) : option string :=
  live now (lock_key lock_name) s.

End RedisService.

(** ** The reminder service ([reminder_service.py]) *)

Module ReminderService.
Import Redis.

(** The pydantic model [ReminderCreate]. *)
Record ReminderCreate : Type := mkCreate {
  c_patient_id : Z;
  c_reminder_type : ReminderType;
  c_delivery_method : DeliveryMethod;
  c_scheduled_time : Z;
  c_priority : Priority;
  c_custom_message : option string;
  c_metadata : option (gmap string string);
  c_max_retries : Z;
  c_retry_interval : Z
}.

(** The field constraints and the validator of [ReminderCreate]; the
    constructor raises when they fail, so every instance satisfies them. *)
Definition valid_create (now : Z) (c : ReminderCreate) : Prop :=
  0 <= c_max_retries c <= 10 /\ 60 <= c_retry_interval c /\
  now < c_scheduled_time c.

(** The pydantic model [ReminderUpdate]. *)
Record ReminderUpdate : Type := mkUpdate {
  u_scheduled_time : option Z;
  u_priority : option Priority;
  u_custom_message : option string;
  u_metadata : option (gmap string string);
  u_max_retries : option Z;
  u_retry_interval : option Z
}.

Definition valid_update (now : Z) (u : ReminderUpdate) : Prop :=
  (forall m, u_max_retries u = Some m -> 0 <= m <= 10) /\
  (forall i, u_retry_interval u = Some i -> 60 <= i) /\
  (forall t, u_scheduled_time u = Some t -> now < t).

(** The state a service object works on: the reminder table, whether
    [self.redis_client] is a client (it is [None] when the server did not
    answer at construction), and the Redis server. *)
Record service : Type := mkService {
  table : list ReminderData;
  redis_client : bool;
  server : Redis.state
}.

Definition put_table (t : list ReminderData) (w : service) : service :=
  mkService t (redis_client w) (server w).

Definition put_server (s : Redis.state) (w : service) : service :=
  mkService (table w) (redis_client w) s.

(** Every record of the table satisfies the bookkeeping invariant. *)
Definition table_inv (w : service) : Prop := Forall retry_inv (table w).

(** *** Persistence *)

(** Modelled from the spec: the bodies of [_save_reminder_to_db],
    [_get_reminder_from_db], [_get_reminder_by_twilio_sid] and
    [_update_reminder_in_db] are placeholders in the source.  They are the
    operations create, get, findByExternalMessageId and update of the
    reminder store, here over a table of records: a lookup returns the
    first record with the identifier, an update replaces the record that
    has the identifier of the object written. *)
Definition _save_reminder_to_db (fresh_id : Z) (reminder : ReminderData)
    (w : service) : Z * service :=
  (fresh_id, put_table (table w ++ [set_id (Some fresh_id) reminder])%list w).

Definition _get_reminder_from_db (reminder_id : Z) (w : service)
  : option ReminderData :=
  find (fun r => bool_decide (id r = Some reminder_id)) (table w).

Definition _get_reminder_by_twilio_sid (sid : string) (w : service)
  : option ReminderData :=
  find (fun r => bool_decide (twilio_sid r = Some sid)) (table w).

Definition _update_reminder_in_db (reminder : ReminderData) (w : service)
  : service :=
  put_table
    (map (fun r => if decide (id r = id reminder) then reminder else r)
         (table w)) w.

(** *** Queue *)

Definition entry_of (reminder : ReminderData) : queue_entry :=
  mkEntry (id reminder) (patient_id reminder) (reminder_type reminder)
    (delivery_method reminder) (priority reminder) (custom_message reminder)
    (metadata reminder).

(** [_schedule_reminder]: nothing without a client; an exception of the
    body (no [scheduled_time], server unreachable) is logged and dropped. *)
Definition _schedule_reminder (reminder : ReminderData) (w : service)
  : service :=
  if negb (redis_client w) then w
  else
    match scheduled_time reminder with
    | None => w
    | Some timestamp =>
        let reminder_json := Entry (entry_of reminder) in
        put_server
          (zadd SCHEDULED_REMINDERS reminder_json timestamp (server w)).2 w
    end.

(** The loop of [_remove_from_queue]: the first member carrying the
    identifier is removed and the loop ends.  The identifier is an
    [Optional[int]], as [reminder.id] is. *)
Fixpoint remove_first (reminder_id : option Z) (members : list member)
  : M unit :=
  match members with
  | [] => mret tt
  | member :: rest =>
      data_id ← lift (load_id member);
      if decide (data_id = reminder_id) then
        _ ← zrem SCHEDULED_REMINDERS member; mret tt
      else remove_first reminder_id rest
  end.

Definition _remove_from_queue (reminder_id : option Z) (w : service)
  : service :=
  if negb (redis_client w) then w
  else
    put_server
      (try_except
         (members ← zrange_all SCHEDULED_REMINDERS;
          remove_first reminder_id members)
         (fun _ => mret tt) (server w)).2 w.

Definition _reschedule_reminder (reminder : ReminderData) (w : service)
  : service :=
  if negb (redis_client w) then w
  else _schedule_reminder reminder (_remove_from_queue (id reminder) w).

(** [_schedule_retry]: the count and the status are assigned before the
    due time is computed; when that raises, the exception leaves the method
    with the object as it then is and nothing written. *)
Definition _schedule_retry (now : Z) (reminder : ReminderData) (w : service)
  : result unit * ReminderData * service :=
  let reminder := set_retry_count (retry_count reminder + 1) reminder in
  let reminder := set_status RETRY reminder in
  match datetime_add now (retry_interval reminder) with
  | Raise e => (Raise e, reminder, w)
  | Ok scheduled =>
      let reminder := set_scheduled_time (Some scheduled) reminder in
      let w := _update_reminder_in_db reminder w in
      let w := _schedule_reminder reminder w in
      (Ok tt, reminder, w)
  end.

(** *** Operations of the API *)

(** The collaborators a service object is built with ([self.db] and
    [self.comm]): the patient directory, the template personaliser, the
    telephony gateway and the TwiML publisher.  Calls that may raise return
    a [result]. *)
Record PatientData : Type := mkPatient {
  name : string;
  phone : string;
  preferred_language : string
}.

(** The dictionary the gateway answers with: [success] true with the
    identifier of the message or call, or [success] false with, possibly,
    an [error] entry. *)
Inductive twilio_result : Type :=
| Accepted (sid : string)
| Refused (error : option string).

Record collaborators : Type := mkCollaborators {
  get_patient_by_id : Z -> option PatientData;
  create_personalized_message :
    ReminderType -> PatientData -> string -> result (string * string);
  send_sms : string -> string -> twilio_result;
  make_voice_call : string -> string -> twilio_result;
  create_twiml_url : string -> result string
}.

Definition create_reminder (env : collaborators) (now : Z) (fresh_id : Z)
    (reminder_data : ReminderCreate) (w : service)
  : result ReminderData * service :=
  match get_patient_by_id env (c_patient_id reminder_data) with
  | None =>
      (Raise (ValueError ("Patient " ++ pretty (c_patient_id reminder_data)
                          ++ " introuvable")), w)
  | Some _ =>
      let reminder :=
        mkReminder None (c_patient_id reminder_data)
          (c_reminder_type reminder_data) (c_delivery_method reminder_data)
          PENDING (Some (c_scheduled_time reminder_data))
          (c_priority reminder_data) (c_custom_message reminder_data)
          (default ∅ (c_metadata reminder_data)) (Some now) (Some now)
          None None 0 (c_max_retries reminder_data)
          (c_retry_interval reminder_data) None None in
      let (reminder_id, w) := _save_reminder_to_db fresh_id reminder w in
      let reminder := set_id (Some reminder_id) reminder in
      let w := _schedule_reminder reminder w in
      (Ok reminder, w)
  end.

(** The assignments of [update_reminder], one per field given. *)
Definition apply_update (update_data : ReminderUpdate) (reminder : ReminderData)
  : ReminderData :=
  let reminder :=
    match u_scheduled_time update_data with
    | Some t => set_scheduled_time (Some t) reminder
    | None => reminder
    end in
  let reminder :=
    match u_priority update_data with
    | Some p => set_priority p reminder
    | None => reminder
    end in
  let reminder :=
    match u_custom_message update_data with
    | Some m => set_custom_message (Some m) reminder
    | None => reminder
    end in
  let reminder :=
    match u_metadata update_data with
    | Some m => set_metadata (m ∪ metadata reminder) reminder
    | None => reminder
    end in
  let reminder :=
    match u_max_retries update_data with
    | Some m => set_max_retries m reminder
    | None => reminder
    end in
  match u_retry_interval update_data with
  | Some i => set_retry_interval i reminder
  | None => reminder
  end.

Definition update_reminder (now : Z) (reminder_id : Z)
    (update_data : ReminderUpdate) (w : service)
  : result (option ReminderData) * service :=
  match _get_reminder_from_db reminder_id w with
  | None => (Ok None, w)
  | Some reminder =>
      if bool_decide (status reminder ∈ [SENT; DELIVERED; CANCELLED]) then
        (Raise (ValueError ("Impossible de modifier un rappel avec le statut: "
                            ++ status_value (status reminder))), w)
      else
        let reminder := apply_update update_data reminder in
        let reminder := set_updated_at (Some now) reminder in
        let w := _update_reminder_in_db reminder w in
        let w :=
          match u_scheduled_time update_data with
          | Some _ => _reschedule_reminder reminder w
          | None => w
          end in
        (Ok (Some reminder), w)
  end.

Definition cancel_reminder (now : Z) (reminder_id : Z) (w : service)
  : result bool * service :=
  match _get_reminder_from_db reminder_id w with
  | None => (Ok false, w)
  | Some reminder =>
      if bool_decide (status reminder ∈ [SENT; DELIVERED]) then
        (Raise (ValueError "Impossible d'annuler un rappel déjà envoyé"), w)
      else
        let reminder := set_status CANCELLED reminder in
        let reminder := set_updated_at (Some now) reminder in
        let w := _update_reminder_in_db reminder w in
        let w := _remove_from_queue (Some reminder_id) w in
        (Ok true, w)
  end.

Definition retry_failed_reminder (now : Z) (reminder_id : Z) (force : bool)
    (w : service) : result bool * service :=
  match _get_reminder_from_db reminder_id w with
  | None => (Ok false, w)
  | Some reminder =>
      if bool_decide (status reminder <> FAILED) && negb force then
        (Raise (ValueError ("Le rappel n'est pas en échec: "
                            ++ status_value (status reminder))), w)
      else if (max_retries reminder <=? retry_count reminder) && negb force then
        (Raise (ValueError ("Nombre maximum de tentatives atteint: "
                            ++ pretty (retry_count reminder) ++ "/"
                            ++ pretty (max_retries reminder))), w)
      else
        let reminder := set_status RETRY reminder in
        match datetime_add now (retry_interval reminder) with
        | Raise e => (Raise e, w)
        | Ok scheduled =>
            let reminder := set_scheduled_time (Some scheduled) reminder in
            let reminder := set_updated_at (Some now) reminder in
            let w := _update_reminder_in_db reminder w in
            let w := _schedule_reminder reminder w in
            (Ok true, w)
        end
  end.

(** *** Status ingestion *)

Definition status_mapping : gmap string ReminderStatus :=
  list_to_map [("delivered", DELIVERED); ("sent", SENT);
               ("failed", FAILED); ("undelivered", FAILED)].

(** [error_message or f"Erreur Twilio: {error_code}"]. *)
Definition twilio_error (error_code error_message : option string) : string :=
  if truthy error_message then default "" error_message
  else "Erreur Twilio: " ++ default "None" error_code.

(** [update_delivery_status]: an exception of [_schedule_retry] leaves the
    handler before the reminder is written. *)
Definition update_delivery_status (now : Z) (twilio_sid status : string)
    (error_code error_message : option string) (w : service)
  : result bool * service :=
  match _get_reminder_by_twilio_sid twilio_sid w with
  | None => (Ok false, w)
  | Some reminder =>
      let new_status :=
        default (Models.status reminder) (status_mapping !! lower status) in
      if decide (new_status <> Models.status reminder) then
        let reminder := set_status new_status reminder in
        let reminder := set_updated_at (Some now) reminder in
        let '(outcome, reminder, w) :=
          if decide (new_status = DELIVERED) then
            (Ok tt, set_delivered_at (Some now) reminder, w)
          else if decide (new_status = FAILED) then
            let reminder :=
              set_error_message
                (Some (twilio_error error_code error_message)) reminder in
            if retry_count reminder <? max_retries reminder then
              _schedule_retry now reminder w
            else (Ok tt, reminder, w)
          else (Ok tt, reminder, w) in
        match outcome with
        | Raise e => (Raise e, w)
        | Ok _ => (Ok true, _update_reminder_in_db reminder w)
        end
      else (Ok true, w)
  end.

(** The record [update_delivery_status] leaves behind, as a function of
    the record it found ([update_delivery_status_found] relates the two):
    the record found itself when the handler raises. *)
Definition delivery_outcome (now : Z) (status : string)
    (error_code error_message : option string) (r : ReminderData)
  : ReminderData :=
  match status_mapping !! lower status with
  | None => r
  | Some new_status =>
      if decide (new_status = Models.status r) then r
      else
        let r1 := set_updated_at (Some now) (set_status new_status r) in
        match new_status with
        | DELIVERED => set_delivered_at (Some now) r1
        | FAILED =>
            let r2 :=
              set_error_message
                (Some (twilio_error error_code error_message)) r1 in
            if retry_count r <? max_retries r then
              match datetime_add now (retry_interval r) with
              | Ok scheduled =>
                  set_scheduled_time (Some scheduled)
                    (set_status RETRY (set_retry_count (retry_count r + 1) r2))
              | Raise _ => r
              end
            else r2
        | _ => r1
        end
  end.

(** A failure callback that finds a reminder not yet FAILED with retries
    left: the case in which the handler schedules a retry. *)
Definition retry_scheduled (status : string) (r : ReminderData) : Prop :=
  status_mapping !! lower status = Some FAILED /\
  Models.status r <> FAILED /\ retry_count r < max_retries r.

(** *** Dispatch *)

(** [_send_sms_reminder]: the outcome and the reminder, which receives the
    gateway's identifier or the error text.  Any exception of the body is
    turned into a failure carrying its text. *)
Definition _send_sms_reminder (env : collaborators) (reminder : ReminderData)
    (patient : PatientData) : bool * ReminderData :=
  let message :=
    if truthy (custom_message reminder) then
      Ok (default "" (custom_message reminder))
    else
      message_data ←
        create_personalized_message env (reminder_type reminder) patient "sms";
      Ok message_data.1 in
  match message with
  | Raise e => (false, set_error_message (Some (exn_str e)) reminder)
  | Ok message =>
      match send_sms env (phone patient) message with
      | Accepted sid => (true, set_twilio_sid (Some sid) reminder)
      | Refused error =>
          (false,
           set_error_message (Some (default "Erreur inconnue" error)) reminder)
      end
  end.

Definition _send_voice_reminder (env : collaborators) (reminder : ReminderData)
    (patient : PatientData) : bool * ReminderData :=
  let twiml_url :=
    twiml_content ←
      (if truthy (custom_message reminder) then
         Ok ("<Response><Say voice='alice' language='fr'>"
             ++ default "" (custom_message reminder)
             ++ "</Say></Response>")
       else
         message_data ←
           create_personalized_message env (reminder_type reminder) patient
             "twiml";
         Ok message_data.1);
    create_twiml_url env twiml_content in
  match twiml_url with
  | Raise e => (false, set_error_message (Some (exn_str e)) reminder)
  | Ok twiml_url =>
      match make_voice_call env (phone patient) twiml_url with
      | Accepted sid => (true, set_twilio_sid (Some sid) reminder)
      | Refused error =>
          (false,
           set_error_message (Some (default "Erreur inconnue" error)) reminder)
      end
  end.

(** The channel selection of [_process_reminder].  With [BOTH] the voice
    call is placed whatever the SMS did, and the result is the conjunction.
    (The source's last branch, an unknown method, has no value in
    [DeliveryMethod].) *)
Definition send (env : collaborators) (reminder : ReminderData)
    (patient : PatientData) : bool * ReminderData :=
  match delivery_method reminder with
  | SMS => _send_sms_reminder env reminder patient
  | VOICE => _send_voice_reminder env reminder patient
  | BOTH =>
      let (sms_result, reminder) := _send_sms_reminder env reminder patient in
      let (voice_result, reminder) :=
        _send_voice_reminder env reminder patient in
      (sms_result && voice_result, reminder)
  end.

(** The handler of [_process_reminder]: whatever exception leaves the
    body, the reminder is marked FAILED with the text of the exception and
    written. *)
Definition process_failed (now : Z) (e : exn) (reminder : ReminderData)
    (w : service) : ReminderData * service :=
  let reminder := set_status FAILED reminder in
  let reminder := set_error_message (Some (exn_str e)) reminder in
  let reminder := set_updated_at (Some now) reminder in
  (reminder, _update_reminder_in_db reminder w).

Definition _process_reminder (env : collaborators) (now : Z)
    (reminder : ReminderData) (w : service) : ReminderData * service :=
  match get_patient_by_id env (patient_id reminder) with
  | None =>
      let e := ValueError ("Patient " ++ pretty (patient_id reminder)
                           ++ " introuvable") in
      process_failed now e reminder w
  | Some patient =>
      let reminder := set_status PENDING reminder in
      let w := _update_reminder_in_db reminder w in
      let (result, reminder) := send env reminder patient in
      let '(outcome, reminder, w) :=
        if result then
          let reminder := set_status SENT reminder in
          (Ok tt, set_sent_at (Some now) reminder, w)
        else
          let reminder := set_status FAILED reminder in
          if retry_count reminder <? max_retries reminder then
            _schedule_retry now reminder w
          else (Ok tt, reminder, w) in
      match outcome with
      | Raise e => process_failed now e reminder w
      | Ok _ =>
          let reminder := set_updated_at (Some now) reminder in
          (reminder, _update_reminder_in_db reminder w)
      end
  end.

End ReminderService.

(** ** The scheduler's failure handling ([scheduler.py]) *)

Module ReminderScheduler.
Import Redis.

(** The counters of [self._stats] that the failure path touches. *)
Record stats : Type := mkStats {
  processed_count : Z;
  success_count : Z;
  error_count : Z;
  stats_retry_count : Z
}.

(** The state of a scheduler object: its configuration, its counters and
    the Redis server behind its queue service. *)
Record scheduler : Type := mkScheduler {
  config : SchedulerConfig;
  _stats : stats;
  redis_service : Redis.state
}.

Definition put_redis (s : Redis.state) (sch : scheduler) : scheduler :=
  mkScheduler (config sch) (_stats sch) s.

Definition bump_retries (sch : scheduler) : scheduler :=
  let st := _stats sch in
  mkScheduler (config sch)
    (mkStats (processed_count st) (success_count st) (error_count st)
             (stats_retry_count st + 1))
    (redis_service sch).

Section FailureHandling.

(** The scheduler hands the reminder it has modified to
    [self.reminder_service.update_reminder(reminder)].  What the call does
    is a parameter here, so that the failure handling is described for
    every reminder service; [store_rejects] below is the call on the
    [ReminderService] of [reminder_service.py]. *)
Variable update_reminder : ReminderData -> result unit.

(** [_handle_failed_reminder]: the whole body is guarded, an exception
    ends it and is logged.  What was assigned before stays assigned. *)
Definition _handle_failed_reminder (now : Z) (reminder : ReminderData)
    (error_message : option string) (sch : scheduler)
  : ReminderData * scheduler :=
  let reminder := set_retry_count (retry_count reminder + 1) reminder in
  let reminder := set_error_message error_message reminder in
  if retry_count reminder <? max_retries reminder then
    match _calculate_retry_delay (config sch) (retry_count reminder) with
    | Raise _ => (reminder, sch)
    | Ok retry_delay =>
        let reminder := set_status RETRY reminder in
        match update_reminder reminder with
        | Raise _ => (reminder, sch)
        | Ok _ =>
            match RedisService.enqueue_retry_reminder now reminder
                    retry_delay (redis_service sch) with
            | (Raise _, s) => (reminder, put_redis s sch)
            | (Ok _, s) =>
                let sch := bump_retries (put_redis s sch) in
                let s :=
                  (RedisService.increment_counter "reminders_retried" 1
                     (redis_service sch)).2 in
                (reminder, put_redis s sch)
            end
        end
    end
  else
    let reminder := set_status FAILED reminder in
    match update_reminder reminder with
    | Raise _ => (reminder, sch)
    | Ok _ =>
        let s :=
          (RedisService.increment_counter "reminders_failed_final" 1
             (redis_service sch)).2 in
        (reminder, put_redis s sch)
    end.

(** A reminder whose dispatch fails again and again: the failure at each
    clock reading of [times] is handled in turn, on the same object. *)
Fixpoint fail_repeatedly (times : list Z) (reminder : ReminderData)
    (sch : scheduler) : ReminderData * scheduler :=
  match times with
  | [] => (reminder, sch)
  | now :: times' =>
      let (reminder, sch) := _handle_failed_reminder now reminder None sch in
      fail_repeatedly times' reminder sch
  end.

End FailureHandling.

(** The reminder as the failure path leaves it. *)
Definition failed_once (msg : option string) (st : ReminderStatus)
    (r : ReminderData) : ReminderData :=
  set_status st (set_error_message msg (set_retry_count (retry_count r + 1) r)).

(** The call as the source wires it: the scheduler is built with a
    [ReminderService], whose [update_reminder] takes an identifier and an
    update, so the call with the reminder alone raises [TypeError]. *)
Definition store_rejects : ReminderData -> result unit :=
  fun _ => Raise (TypeError
    ("ReminderService.update_reminder() missing 1 required positional "
     ++ "argument: 'update_data'")).

(** The delays of the retries waiting in the retry queue at clock reading
    [t0], for entries all enqueued at [t0]. *)
Definition retry_delays_enqueued (t0 : Z) (sch : scheduler) : list Z :=
  map (fun e => e.2 - t0) (retry (redis_service sch)).

End ReminderScheduler.

(** ** Sample data *)

Module Samples.
Import Redis ReminderService ReminderScheduler.

(** A medication reminder that was sent and waits for its callback. *)
Definition sent_reminder : ReminderData :=
  mkReminder (Some 1) 7 MEDICATION SMS SENT (Some 100) NORMAL None ∅
    (Some 0) (Some 50) (Some 50) None 0 3 300 (Some "SM1") None.

Definition delivered_reminder : ReminderData :=
  set_delivered_at (Some 60) (set_status DELIVERED sent_reminder).

Definition failed_reminder : ReminderData :=
  set_retry_count 3 (set_status FAILED sent_reminder).

(** A reminder on its second retry. *)
Definition retrying_reminder : ReminderData :=
  set_retry_count 2 (set_status RETRY sent_reminder).

(** A reminder created with [max_retries = 0]. *)
Definition no_retry_reminder : ReminderData :=
  mkReminder (Some 2) 7 MEDICATION SMS SCHEDULED (Some 100) NORMAL None ∅
    (Some 0) (Some 0) None None 0 0 300 None None.

(** A reminder created with [max_retries = 4], for both channels. *)
Definition four_retries_reminder : ReminderData :=
  mkReminder (Some 3) 7 APPOINTMENT BOTH SCHEDULED (Some 100) NORMAL
    (Some "Rendez-vous demain") ∅ (Some 0) (Some 0) None None 0 4 300 None None.

Definition service_with (r : ReminderData) : service :=
  mkService [r] true empty_state.

Definition sample_entry : queue_entry :=
  mkEntry (Some 4) 7 HEALTH_TIP SMS NORMAL None ∅.

(** A server whose scheduled set holds the reminder of identifier 1 under
    two texts, and before both the entry of another reminder. *)
Definition sample_schedule : state :=
  zput SCHEDULED_REMINDERS
    [(Entry (entry_of retrying_reminder), 200); (Full retrying_reminder, 100);
     (Entry sample_entry, 50)]
    empty_state.

(** A server whose retry set holds, at time 100, a due reminder, a due
    queue entry, a due member that is no JSON and a reminder that is not
    due; the same reminder is in it twice, under two texts. *)
Definition sample_queue : state :=
  zput RETRY_REMINDERS
    [(Full retrying_reminder, 50); (Entry sample_entry, 30);
     (Text "oops", 20); (Full sent_reminder, 500)]
    empty_state.

Definition sample_scheduler : scheduler :=
  mkScheduler default_config (mkStats 0 0 0 0) empty_state.

Definition lower_max_retries : ReminderUpdate :=
  mkUpdate None None None None (Some 1) None.

(** A patient directory with patient 7, a gateway that accepts the SMS and
    refuses the call because the number is malformed. *)
Definition voice_refused : collaborators :=
  mkCollaborators
    (fun i => if decide (i = 7) then Some (mkPatient "A" "+237x" "fr") else None)
    (fun _ _ _ => Ok ("Rappel", "fr"))
    (fun _ _ => Accepted "SM2")
    (fun _ _ => Refused (Some "Invalid 'To' phone number"))
    (fun _ => Ok "http://twiml/1").

End Samples.

(** ** Further commands of the client and methods of the queue service *)

Module RedisExtra.
Import Redis.

(** [zrangebyscore(k, lo, hi, withscores=True)]. *)
Definition zrangebyscore_withscores (k : zkey) (lo hi : Z)
  : M (list (member * Z)) :=
  command (fun s =>
    (filter (fun e => lo <= e.2 <= hi) (zsorted (byte_order s) (zget k s)), s)).

(** [zremrangebyscore(k, lo, hi)]: the number of members removed. *)
Definition zremrangebyscore (k : zkey) (lo hi : Z) : M Z :=
  command (fun s =>
    let z := zget k s in
    (Z.of_nat (length (filter (fun e => lo <= e.2 <= hi) z)),
     zput k (filter (fun e => ~ lo <= e.2 <= hi) z) s)).

(** [setex(key, ttl, value)]. *)
Definition setex (now : Z) (key : string) (ttl : Z) (value : string) : M bool :=
  r ← command (fun s =>
    match expire_error "setex" now ttl with
    | Some e => (Raise e, s)
    | None =>
        (Ok true, put_strings (<[key := (value, now + ttl)]> (strings s)) s)
    end);
  lift r.

(** [get(key)]. *)
Definition get (now : Z) (key : string) : M (option string) :=
  command (fun s => (live now key s, s)).

(** [RedisKeys.REMINDER_STATUS.format(reminder_id=reminder_id)]. *)
Definition status_key (reminder_id : Z) : string :=
  "reminder:status:" ++ pretty reminder_id.

Definition cache_reminder_status (now : Z) (reminder_id : Z)
    (status : ReminderStatus) (ttl : Z) : M unit :=
  try_except
    (let key := status_key reminder_id in
     _ ← setex now key ttl (status_value status); mret tt)
    (fun _ => mret tt).

(** [ReminderStatus(v)]: the member whose value is [v], [ValueError] when
    there is none. *)
Definition status_of_value (v : string) : result ReminderStatus :=
  match
    find (fun s => String.eqb (status_value s) v)
      [PENDING; SCHEDULED; SENT; DELIVERED; FAILED; CANCELLED; RETRY]
  with
  | Some s => Ok s
  | None => Raise (ValueError (v ++ " is not a valid ReminderStatus"))
  end.

Definition get_cached_reminder_status (now : Z) (reminder_id : Z)
  : M (option ReminderStatus) :=
  try_except
    (let key := status_key reminder_id in
     status_str ← get now key;
     if truthy status_str then
       status ← lift (status_of_value (default "" status_str));
       mret (Some status)
     else mret None)
    (fun _ => mret None).

(** [cleanup_expired_data]: entries more than 24 hours late leave the two
    sorted sets. *)
Definition cleanup_expired_data (now : Z) : M Z :=
  try_except
    (let cutoff := now - 24 * 3600 in
     expired_scheduled ← zremrangebyscore SCHEDULED_REMINDERS 0 cutoff;
     expired_retry ← zremrangebyscore RETRY_REMINDERS 0 cutoff;
     mret (expired_scheduled + expired_retry))
    (fun _ => mret 0).

(** The reminder a member yields when it is read back, if it parses. *)
Definition loaded (now : Z) (m : member) : option LoadedReminder :=
  match load_reminder now m with
  | Ok r => Some r
  | Raise _ => None
  end.

(** Whether a member is JSON with the given identifier. *)
Definition carries (reminder_id : option Z) (m : member) : bool :=
  match load_id m with
  | Ok data_id => bool_decide (data_id = reminder_id)
  | Raise _ => false
  end.

(** Reminders enqueued one after the other, the first of the list first. *)
Fixpoint enqueue_immediate_all (now : Z) (rs : list ReminderData) : M unit :=
  match rs with
  | [] => mret tt
  | r :: rs' =>
      _ ← RedisService.enqueue_immediate_reminder now r;
      enqueue_immediate_all now rs'
  end.

End RedisExtra.

(** ** The loops of the scheduler ([scheduler.py]) *)

Module SchedulerLoops.
Import Redis ReminderScheduler.

(** [_perform_cleanup]: the count of expired entries goes to a counter; an
    exception is logged. *)
Definition _perform_cleanup (now : Z) (sch : scheduler) : scheduler :=
  match RedisExtra.cleanup_expired_data now (redis_service sch) with
  | (Ok expired_count, s) =>
      put_redis
        (RedisService.increment_counter "cleanup_redis_items" expired_count s).2
        sch
  | (Raise _, s) => put_redis s sch
  end.

(** One turn of [_cleanup_loop], without its sleep: the lock is taken at
    [t0], the cleanup runs at [t1], and the lock is released at [t2]
    whatever the cleanup did. *)
Definition cleanup_iteration (t0 t1 t2 : Z) (sch : scheduler) : scheduler :=
  match
    RedisService.acquire_lock t0 "cleanup" (cleanup_interval (config sch))
      (redis_service sch)
  with
  | (Ok true, s) =>
      let sch := _perform_cleanup t1 (put_redis s sch) in
      put_redis (RedisService.release_lock t2 "cleanup" (redis_service sch)).2 sch
  | (_, s) => put_redis s sch
  end.

Section SchedulerCycle.

(** [_process_due_reminders] hands the due reminders to a pool of threads
    and catches every exception; for the loop it is a transformation of the
    scheduler's state, a parameter here. *)
Variable _process_due_reminders : scheduler -> scheduler.

(** One turn of [_scheduler_loop], without its sleep: the lock is taken at
    [t0] for [check_interval] seconds; when it is taken the due reminders
    are processed and the lock is released, at [t1]; when it is not, the
    turn is skipped. *)
Definition scheduler_iteration (t0 t1 : Z) (sch : scheduler) : scheduler :=
  match
    RedisService.acquire_lock t0 "scheduler" (check_interval (config sch))
      (redis_service sch)
  with
  | (Ok true, s) =>
      let sch := _process_due_reminders (put_redis s sch) in
      put_redis
        (RedisService.release_lock t1 "scheduler" (redis_service sch)).2 sch
  | (_, s) => put_redis s sch
  end.

End SchedulerCycle.

End SchedulerLoops.

(** ** The worker of the reminder service ([reminder_service.py]) *)

Module Worker.
Import Redis ReminderService.

(** [send_immediate]: a reminder due in five seconds, of high priority and
    with the defaults of [ReminderCreate], is created and processed at once;
    the object returned is the one the processing has modified. *)
Definition send_immediate (env : collaborators) (now : Z) (fresh_id : Z)
    (patient_id : Z) (reminder_type : ReminderType)
    (delivery_method : DeliveryMethod) (custom_message : option string)
    (w : service) : result ReminderData * service :=
  match datetime_add now 5 with
  | Raise e => (Raise e, w)
  | Ok scheduled_time =>
      let reminder_data :=
        mkCreate patient_id reminder_type delivery_method scheduled_time HIGH
          custom_message (Some ∅) 3 300 in
      match create_reminder env now fresh_id reminder_data w with
      | (Raise e, w) => (Raise e, w)
      | (Ok reminder, w) =>
          let (reminder, w) := _process_reminder env now reminder w in
          (Ok reminder, w)
      end
  end.

(** The record with the identifier a queue member carries; a member without
    identifier names no record. *)
Definition reminder_of_member_id (data_id : option Z) (w : service)
  : option ReminderData :=
  match data_id with
  | Some i => _get_reminder_from_db i w
  | None => None
  end.

(** The loop of [_process_due_reminders] over the due members.  A member is
    processed when its record is SCHEDULED or RETRY, and is removed from the
    set in any case; when a step raises, the handler removes the member, and
    an exception of the handler ends the loop. *)
Fixpoint process_due (env : collaborators) (now : Z)
    (due_reminders : list (member * Z)) (w : service) : result unit * service :=
  match due_reminders with
  | [] => (Ok tt, w)
  | (reminder_json, score) :: rest =>
      let body : result unit * service :=
        match load_id reminder_json with
        | Raise e => (Raise e, w)
        | Ok data_id =>
            let w :=
              match reminder_of_member_id data_id w with
              | Some reminder =>
                  if bool_decide (status reminder ∈ [SCHEDULED; RETRY]) then
                    (_process_reminder env now reminder w).2
                  else w
              | None => w
              end in
            match zrem SCHEDULED_REMINDERS reminder_json (server w) with
            | (Ok _, s) => (Ok tt, put_server s w)
            | (Raise e, s) => (Raise e, put_server s w)
            end
        end in
      match body with
      | (Ok _, w) => process_due env now rest w
      | (Raise _, w) =>
          match zrem SCHEDULED_REMINDERS reminder_json (server w) with
          | (Ok _, s) => process_due env now rest (put_server s w)
          | (Raise e, s) => (Raise e, put_server s w)
          end
      end
  end.

Section DegradedMode.

(** [_get_due_reminders_from_db] is a placeholder in the source; the due
    records of the table are a parameter. *)
Variable _get_due_reminders_from_db : Z -> service -> list ReminderData.

Definition _process_due_reminders_from_db (env : collaborators) (now : Z)
    (w : service) : service :=
  foldl (fun w reminder => (_process_reminder env now reminder w).2) w
    (_get_due_reminders_from_db now w).

(** [_process_due_reminders]: without a client the table is polled;
    otherwise the members due at [now] are read and processed, and an
    exception is logged. *)
Definition _process_due_reminders (env : collaborators) (now : Z)
    (w : service) : service :=
  if negb (redis_client w) then _process_due_reminders_from_db env now w
  else
    match
      RedisExtra.zrangebyscore_withscores SCHEDULED_REMINDERS 0 now (server w)
    with
    | (Ok due_reminders, _) => (process_due env now due_reminders w).2
    | (Raise _, _) => w
    end.

End DegradedMode.

End Worker.

(** * Properties *)

(** ** Retry delay *)

Section RetryDelay.

Example delay_ladder :
  map (_calculate_retry_delay default_config) [1; 2; 3; 4; 5; 9]
  = [Ok 300; Ok 900; Ok 1800; Ok 3600; Ok 3600; Ok 3600].
Proof. reflexivity. Qed.

Lemma py_index_in_range {A} (l : list A) (i : Z) :
  0 <= i < Z.of_nat (length l) ->
  exists x, l !! Z.to_nat i = Some x /\ py_index l i = Ok x.
Proof.
  intros Hi. unfold py_index.
  destruct (lookup_lt_is_Some_2 l (Z.to_nat i)) as [x Hx]; [lia|].
  exists x. split; [assumption|].
  rewrite decide_True by assumption. now rewrite Hx.
Qed.

Lemma py_index_last {A} (l : list A) :
  l <> [] -> exists b, last l = Some b /\ py_index l (-1) = Ok b.
Proof.
  intros Hne. unfold py_index.
  assert (Hlen : (0 < length l)%nat) by (destruct l; [congruence | simpl; lia]).
  rewrite decide_False by lia. rewrite decide_True by lia.
  rewrite last_lookup.
  replace (Z.to_nat (Z.of_nat (length l) + -1)) with (Nat.pred (length l)) by lia.
  destruct (lookup_lt_is_Some_2 l (Nat.pred (length l))) as [b Hb]; [lia|].
  exists b. now rewrite Hb.
Qed.

(** C6. For every attempt number [n >= 1] and every non-empty ladder, the
    delay is the ladder's entry [n - 1] while [n] is within the ladder, and
    beyond it the last entry doubled [n - len] times, capped at 3600
    seconds. *)
Theorem calculate_retry_delay_spec (config : SchedulerConfig) (n : Z) :
  1 <= n ->
  retry_delays config <> [] ->
  let len := Z.of_nat (length (retry_delays config)) in
  (n <= len ->
     exists d, retry_delays config !! Z.to_nat (n - 1) = Some d /\
               _calculate_retry_delay config n = Ok d) /\
  (len < n ->
     exists b, last (retry_delays config) = Some b /\
               _calculate_retry_delay config n
               = Ok (Z.min (b * 2 ^ (n - len)) 3600)).
Proof.
  intros Hn Hne len. unfold _calculate_retry_delay. fold len. split.
  - intros Hle. rewrite (proj2 (Z.leb_le n len)) by assumption.
    apply py_index_in_range. unfold len in Hle. lia.
  - intros Hgt. rewrite (proj2 (Z.leb_gt n len)) by assumption.
    destruct (py_index_last (retry_delays config) Hne) as [b [Hl Hb]].
    exists b. split; [assumption|]. now rewrite Hb.
Qed.

Lemma calculate_retry_delay_spec_witness :
  (exists d, [300; 900; 1800] !! Z.to_nat (2 - 1) = Some d /\
             _calculate_retry_delay default_config 2 = Ok d) /\
  (exists b, last [300; 900; 1800] = Some b /\
             _calculate_retry_delay default_config 5
             = Ok (Z.min (b * 2 ^ (5 - 3)) 3600)).
Proof.
  split.
  - apply (calculate_retry_delay_spec default_config 2);
      [lia | discriminate | simpl; lia].
  - apply (calculate_retry_delay_spec default_config 5);
      [lia | discriminate | simpl; lia].
Defined.

End RetryDelay.

(** ** The queue service on a reachable and on an unreachable server *)

Section QueueService.
Import Redis.

Lemma command_unreachable {A} (f : state -> A * state) (s : state) :
  reachable s = false -> command f s = (Raise ConnectionError, s).
Proof. intros H. unfold command. now rewrite H. Qed.

Lemma command_reachable {A} (f : state -> A * state) (s : state) :
  reachable s = true -> command f s = (Ok (f s).1, (f s).2).
Proof. intros H. unfold command. now rewrite H. Qed.

(** A sum that [datetime_add] returns is the sum. *)
Lemma datetime_add_sum t d t' : datetime_add t d = Ok t' -> t' = t + d.
Proof.
  unfold datetime_add, timedelta, mbind, result_bind.
  destruct (_ || _); [discriminate|]. destruct (_ || _); [discriminate|].
  destruct (_ && _); [|discriminate]. congruence.
Qed.

(** Between two datetimes the sum exists. *)
Lemma datetime_add_range t d :
  datetime_min <= t <= datetime_max ->
  datetime_min <= t + d <= datetime_max ->
  datetime_add t d = Ok (t + d).
Proof.
  unfold datetime_min, datetime_max. intros Ht Hs.
  assert (Hd : -4000000 <= d / 86400 <= 4000000).
  { split.
    - apply Z.div_le_lower_bound; lia.
    - apply Z.div_le_upper_bound; lia. }
  unfold datetime_add, timedelta, mbind, result_bind.
  rewrite (proj2 (orb_false_iff _ _)) by (split; lia).
  rewrite (proj2 (orb_false_iff _ _)) by (split; lia).
  unfold datetime_min, datetime_max.
  rewrite (proj2 (andb_true_iff _ _)) by (split; lia). reflexivity.
Qed.

(** Whatever [datetime_add] raises is an [OverflowError]. *)
Lemma datetime_add_raises t d e :
  datetime_add t d = Raise e -> exists msg, e = OverflowError msg.
Proof.
  unfold datetime_add, timedelta, mbind, result_bind.
  destruct (_ || _); [intros [= <-]; eauto|].
  destruct (_ || _); [intros [= <-]; eauto|].
  destruct (_ && _); [discriminate|]. intros [= <-]; eauto.
Qed.

Lemma enqueue_retry_reachable now r d t s :
  reachable s = true ->
  datetime_add now d = Ok t ->
  RedisService.enqueue_retry_reminder now r d s
  = (Ok tt, zput RETRY_REMINDERS (zset_add (Full r) t (retry s)) s).
Proof.
  intros H Ht. unfold RedisService.enqueue_retry_reminder, try_except, zadd.
  unfold mbind, M_bind, lift. rewrite Ht.
  rewrite command_reachable by assumption. reflexivity.
Qed.

(** An enqueue whose due time does not exist raises before it reaches the
    server. *)
Lemma enqueue_retry_overflow now r d e s :
  datetime_add now d = Raise e ->
  RedisService.enqueue_retry_reminder now r d s = (Raise e, s).
Proof.
  intros He. unfold RedisService.enqueue_retry_reminder, try_except.
  unfold mbind, M_bind, lift. now rewrite He.
Qed.

Lemma increment_counter_frame name v s :
  let s' := (RedisService.increment_counter name v s).2 in
  reachable s' = reachable s /\ scheduled s' = scheduled s /\
  retry s' = retry s /\ immediate s' = immediate s /\ strings s' = strings s.
Proof.
  unfold RedisService.increment_counter, try_except, hincrby, mbind, M_bind,
    command, lift.
  destruct (reachable s) eqn:H; simpl; rewrite ?H; auto.
  destruct (negb (int64 v)); simpl; rewrite ?H; auto.
  destruct (negb (int64 _)); simpl; rewrite ?H; auto.
Qed.

End QueueService.

(** ** Failure handling in the scheduler *)

Section SchedulerFailures.
Import Redis ReminderScheduler.

Lemma handle_failed_retry (update : ReminderData -> result unit)
    now r msg sch d t :
  reachable (redis_service sch) = true ->
  retry_count r + 1 < max_retries r ->
  _calculate_retry_delay (config sch) (retry_count r + 1) = Ok d ->
  datetime_add now d = Ok t ->
  update (failed_once msg RETRY r) = Ok tt ->
  exists sch',
    _handle_failed_reminder update now r msg sch
    = (failed_once msg RETRY r, sch') /\
    config sch' = config sch /\
    reachable (redis_service sch') = true /\
    retry (redis_service sch')
    = zset_add (Full (failed_once msg RETRY r)) t (retry (redis_service sch)).
Proof.
  intros Hup Hlt Hd Ht Hok. unfold _handle_failed_reminder.
  cbn [retry_count max_retries set_error_message set_retry_count].
  rewrite (proj2 (Z.ltb_lt _ _)) by assumption. rewrite Hd.
  fold (failed_once msg RETRY r). rewrite Hok.
  rewrite (enqueue_retry_reachable now _ d t) by assumption.
  eexists. split; [reflexivity|].
  cbn [config redis_service put_redis bump_retries].
  match goal with
  | |- context [RedisService.increment_counter ?n ?v ?s] =>
      destruct (increment_counter_frame n v s) as (Hr & _ & Hq & _)
  end.
  rewrite Hr, Hq. cbn. rewrite Hup. auto.
Qed.

Lemma handle_failed_final (update : ReminderData -> result unit)
    now r msg sch :
  ~ retry_count r + 1 < max_retries r ->
  exists sch',
    _handle_failed_reminder update now r msg sch
    = (failed_once msg FAILED r, sch') /\
    config sch' = config sch /\
    reachable (redis_service sch') = reachable (redis_service sch) /\
    retry (redis_service sch') = retry (redis_service sch).
Proof.
  intros Hge. unfold _handle_failed_reminder.
  cbn [retry_count max_retries set_error_message set_retry_count].
  rewrite (proj2 (Z.ltb_ge _ _)) by lia.
  fold (failed_once msg FAILED r).
  destruct (update _) as [[]|e]; eexists; (split; [reflexivity|]); [|auto].
  cbn [config redis_service put_redis].
  match goal with
  | |- context [RedisService.increment_counter ?n ?v ?s] =>
      destruct (increment_counter_frame n v s) as (Hr & _ & Hq & _)
  end.
  rewrite Hr, Hq. auto.
Qed.

(** Whatever the store and the server do, a failure with a retry left, and
    a delay that can be computed, leaves the reminder in RETRY, and the
    scheduler with the configuration it had. *)
Lemma handle_failed_any_store (update : ReminderData -> result unit)
    now r msg sch d :
  retry_count r + 1 < max_retries r ->
  _calculate_retry_delay (config sch) (retry_count r + 1) = Ok d ->
  exists sch',
    _handle_failed_reminder update now r msg sch
    = (failed_once msg RETRY r, sch') /\
    config sch' = config sch.
Proof.
  intros Hlt Hd. unfold _handle_failed_reminder.
  cbn [retry_count max_retries set_error_message set_retry_count].
  rewrite (proj2 (Z.ltb_lt _ _)) by assumption. rewrite Hd.
  fold (failed_once msg RETRY r).
  destruct (update _) as [[]|e]; [|eauto].
  destruct (RedisService.enqueue_retry_reminder _ _ _ _) as [[[]|e] s];
    eexists; split; reflexivity.
Qed.

(** With the store of the source, which rejects the call, the failure is
    counted on the reminder and its status is set, but nothing reaches the
    retry queue. *)
Remark handle_failed_store_rejects now r msg sch d :
  _calculate_retry_delay (config sch) (retry_count r + 1) = Ok d ->
  _handle_failed_reminder store_rejects now r msg sch
  = (failed_once msg
       (if retry_count r + 1 <? max_retries r then RETRY else FAILED) r,
     sch).
Proof.
  intros Hd. unfold _handle_failed_reminder. simpl.
  destruct (retry_count r + 1 <? max_retries r); [rewrite Hd|]; reflexivity.
Qed.

End SchedulerFailures.

Section FourFailures.
Import Redis ReminderScheduler.

Lemma failed_once_retry_count msg st r :
  retry_count (failed_once msg st r) = retry_count r + 1.
Proof. reflexivity. Qed.

Lemma failed_once_max_retries msg st r :
  max_retries (failed_once msg st r) = max_retries r.
Proof. reflexivity. Qed.

Lemma failed_once_status msg st r : status (failed_once msg st r) = st.
Proof. reflexivity. Qed.

Lemma Full_retry_count a b : Full a = Full b -> retry_count a = retry_count b.
Proof. intros H. congruence. Qed.

Lemma ladder_delay cfg n d :
  retry_delays cfg = [300; 900; 1800] ->
  _calculate_retry_delay (mkSchedulerConfig 0 0 0 0 [300; 900; 1800] 0 0 0) n
  = Ok d ->
  _calculate_retry_delay cfg n = Ok d.
Proof. unfold _calculate_retry_delay. intros ->. trivial. Qed.

(** C3, amended. With the ladder 300, 900, 1800 and [max_retries = 4], each
    of the first three failures in a row counts the failure and leaves the
    reminder in RETRY, the delays computed for them being 300, 900 and 1800
    seconds, and the fourth failure, which reaches [retry_count = 4], marks
    the reminder FAILED; 3600 seconds is the delay computed for an attempt
    number 4, which this reminder never makes.  All this whatever the
    reminder service does with the scheduler's update.  When the service
    accepts the update and the queue server is reachable, the three retries
    are in the retry queue after the fourth failure, due 300, 900 and 1800
    seconds after the failure they follow, and the fourth failure has
    enqueued nothing. *)
Theorem four_failures_in_a_row (update : ReminderData -> result unit)
    (r : ReminderData) (sch : scheduler) (t1 t2 t3 t4 : Z) :
  retry_delays (config sch) = [300; 900; 1800] ->
  retry_count r = 0 ->
  max_retries r = 4 ->
  status (fail_repeatedly update [t1] r sch).1 = RETRY /\
  status (fail_repeatedly update [t1; t2] r sch).1 = RETRY /\
  status (fail_repeatedly update [t1; t2; t3] r sch).1 = RETRY /\
  status (fail_repeatedly update [t1; t2; t3; t4] r sch).1 = FAILED /\
  retry_count (fail_repeatedly update [t1; t2; t3; t4] r sch).1 = 4 /\
  map (fun failures => retry_count (fail_repeatedly update failures r sch).1)
    [[t1]; [t1; t2]; [t1; t2; t3]] = [1; 2; 3] /\
  _calculate_retry_delay (config sch) <$> [1; 2; 3; 4]
  = [Ok 300; Ok 900; Ok 1800; Ok 3600] /\
  ((forall x, update x = Ok tt) ->
   reachable (redis_service sch) = true ->
   retry (redis_service sch) = [] ->
   (forall t, t ∈ [t1; t2; t3] ->
      datetime_min <= t /\ t + 1800 <= datetime_max) ->
   map snd (retry (redis_service
                     (fail_repeatedly update [t1; t2; t3; t4] r sch).2))
   = [t1 + 300; t2 + 900; t3 + 1800]).
Proof.
  intros Hcfg Hrc Hmax.
  set (r1 := failed_once None RETRY r).
  set (r2 := failed_once None RETRY r1).
  set (r3 := failed_once None RETRY r2).
  assert (Hc1 : retry_count r1 = 1)
    by (unfold r1; rewrite failed_once_retry_count; lia).
  assert (Hc2 : retry_count r2 = 2)
    by (unfold r2; rewrite failed_once_retry_count; lia).
  assert (Hc3 : retry_count r3 = 3)
    by (unfold r3; rewrite failed_once_retry_count; lia).
  assert (Hm1 : max_retries r1 = 4) by exact Hmax.
  assert (Hm2 : max_retries r2 = 4) by exact Hmax.
  assert (Hm3 : max_retries r3 = 4) by exact Hmax.
  destruct (handle_failed_any_store update t1 r None sch 300)
    as (s1 & E1 & C1); [lia | rewrite Hrc; now apply ladder_delay |].
  destruct (handle_failed_any_store update t2 r1 None s1 900)
    as (s2 & E2 & C2);
    [lia | rewrite Hc1, C1; now apply ladder_delay |].
  destruct (handle_failed_any_store update t3 r2 None s2 1800)
    as (s3 & E3 & C3);
    [lia | rewrite Hc2, C2, C1; now apply ladder_delay |].
  destruct (handle_failed_final update t4 r3 None s3)
    as (s4 & E4 & C4 & U4 & Q4); [lia|].
  fold r1 in E1. fold r2 in E2. fold r3 in E3.
  cbn [fail_repeatedly map]. rewrite !E1, !E2, !E3, E4. cbn [fst snd].
  split; [reflexivity|]. split; [reflexivity|]. split; [reflexivity|].
  split; [reflexivity|]. split; [rewrite failed_once_retry_count; lia|].
  split; [now rewrite Hc1, Hc2, Hc3|].
  split.
  { cbn [fmap list_fmap]. repeat f_equal; now apply ladder_delay. }
  intros Hok Hup Hq Ht.
  assert (Ht1 : datetime_add t1 300 = Ok (t1 + 300)).
  { destruct (Ht t1) as [? ?]; [repeat constructor|].
    apply datetime_add_range; unfold datetime_min, datetime_max in *; lia. }
  assert (Ht2 : datetime_add t2 900 = Ok (t2 + 900)).
  { destruct (Ht t2) as [? ?]; [repeat constructor|].
    apply datetime_add_range; unfold datetime_min, datetime_max in *; lia. }
  assert (Ht3 : datetime_add t3 1800 = Ok (t3 + 1800)).
  { destruct (Ht t3) as [? ?]; [repeat constructor|].
    apply datetime_add_range; unfold datetime_min, datetime_max in *; lia. }
  destruct (handle_failed_retry update t1 r None sch 300 (t1 + 300))
    as (s1' & E1' & _ & U1 & Q1);
    [assumption | lia | rewrite Hrc; now apply ladder_delay
    | assumption | apply Hok |].
  fold r1 in E1', Q1. rewrite E1 in E1'. injection E1' as <-.
  destruct (handle_failed_retry update t2 r1 None s1 900 (t2 + 900))
    as (s2' & E2' & _ & U2 & Q2);
    [assumption | lia | rewrite Hc1, C1; now apply ladder_delay
    | assumption | apply Hok |].
  fold r2 in E2', Q2. rewrite E2 in E2'. injection E2' as <-.
  destruct (handle_failed_retry update t3 r2 None s2 1800 (t3 + 1800))
    as (s3' & E3' & _ & U3 & Q3);
    [assumption | lia | rewrite Hc2, C2, C1; now apply ladder_delay
    | assumption | apply Hok |].
  fold r3 in E3', Q3. rewrite E3 in E3'. injection E3' as <-.
  rewrite Q4, Q3, Q2, Q1, Hq.
  assert (N12 : Full r1 <> Full r2)
    by (intros H; apply Full_retry_count in H; lia).
  assert (N13 : Full r1 <> Full r3)
    by (intros H; apply Full_retry_count in H; lia).
  assert (N23 : Full r2 <> Full r3)
    by (intros H; apply Full_retry_count in H; lia).
  simpl. rewrite decide_False by assumption. simpl.
  rewrite decide_False by assumption. rewrite decide_False by assumption.
  reflexivity.
Qed.

End FourFailures.

(** ** The bookkeeping invariant *)

Section RetryInvariant.
Import Redis ReminderService.

Lemma find_Forall {A} (P : A -> Prop) (f : A -> bool) (l : list A) (x : A) :
  Forall P l -> find f l = Some x -> P x.
Proof.
  intros Hall Hfind. apply find_some in Hfind as [Hin _].
  rewrite Forall_forall in Hall. apply Hall. now apply list_elem_of_In.
Qed.

Lemma update_db_inv r w :
  retry_inv r -> table_inv w -> table_inv (_update_reminder_in_db r w).
Proof.
  unfold table_inv, _update_reminder_in_db. simpl. intros Hr Hw.
  induction Hw as [|x l Hx Hl IH]; simpl; constructor; [|assumption].
  destruct (decide (id x = id r)); assumption.
Qed.

Lemma schedule_reminder_table r w : table (_schedule_reminder r w) = table w.
Proof.
  unfold _schedule_reminder.
  destruct (redis_client w); simpl; [|reflexivity].
  destruct (scheduled_time r); reflexivity.
Qed.

Lemma remove_from_queue_table i w : table (_remove_from_queue i w) = table w.
Proof. unfold _remove_from_queue. destruct (redis_client w); reflexivity. Qed.

Lemma reschedule_reminder_table r w :
  table (_reschedule_reminder r w) = table w.
Proof.
  unfold _reschedule_reminder. destruct (redis_client w); simpl; [|reflexivity].
  now rewrite schedule_reminder_table, remove_from_queue_table.
Qed.

Lemma schedule_retry_inv now r w :
  retry_inv r -> retry_count r < max_retries r -> table_inv w ->
  retry_inv (_schedule_retry now r w).1.2 /\
  table_inv (_schedule_retry now r w).2.
Proof.
  intros [H0 H1] Hlt Hw. unfold _schedule_retry.
  cbn [retry_interval set_status set_retry_count].
  destruct (datetime_add now (retry_interval r)) as [t|e]; cbn [fst snd].
  - assert (Hr : retry_inv
      (set_scheduled_time (Some t)
         (set_status RETRY (set_retry_count (retry_count r + 1) r)))).
    { unfold retry_inv. simpl. lia. }
    split; [exact Hr|].
    unfold table_inv. rewrite schedule_reminder_table.
    now apply update_db_inv.
  - split; [unfold retry_inv; simpl; lia | exact Hw].
Qed.

(** The service of a retry that could not be scheduled is the one given. *)
Lemma schedule_retry_raises now r w e :
  (_schedule_retry now r w).1.1 = Raise e -> (_schedule_retry now r w).2 = w.
Proof.
  unfold _schedule_retry.
  destruct (datetime_add _ _); cbn [fst snd]; [discriminate | reflexivity].
Qed.

Lemma send_sms_counts env r p :
  retry_count (_send_sms_reminder env r p).2 = retry_count r /\
  max_retries (_send_sms_reminder env r p).2 = max_retries r.
Proof.
  unfold _send_sms_reminder.
  destruct (truthy (custom_message r)); simpl.
  - destruct (send_sms env (phone p) _); simpl; auto.
  - destruct (create_personalized_message env (reminder_type r) p "sms");
      simpl; auto.
    destruct (send_sms env (phone p) _); simpl; auto.
Qed.

Lemma send_voice_counts env r p :
  retry_count (_send_voice_reminder env r p).2 = retry_count r /\
  max_retries (_send_voice_reminder env r p).2 = max_retries r.
Proof.
  unfold _send_voice_reminder.
  match goal with
  | |- context [match ?u with Ok _ => _ | Raise _ => _ end] => destruct u
  end; simpl; auto.
  destruct (make_voice_call env (phone p) _); simpl; auto.
Qed.

Lemma send_counts env r p :
  retry_count (send env r p).2 = retry_count r /\
  max_retries (send env r p).2 = max_retries r.
Proof.
  unfold send. destruct (delivery_method r).
  - apply send_sms_counts.
  - apply send_voice_counts.
  - destruct (send_sms_counts env r p) as [H1 H2].
    destruct (_send_sms_reminder env r p) as [b1 r1]. simpl in H1, H2.
    destruct (send_voice_counts env r1 p) as [H3 H4].
    destruct (_send_voice_reminder env r1 p) as [b2 r2]. simpl in *.
    split; congruence.
Qed.

Lemma update_delivery_status_inv now sid st ec em w :
  table_inv w -> table_inv (update_delivery_status now sid st ec em w).2.
Proof.
  intros Hw. unfold update_delivery_status.
  destruct (_get_reminder_by_twilio_sid sid w) as [r|] eqn:Hfind; [|exact Hw].
  assert (Hr : retry_inv r) by (eapply find_Forall; [exact Hw | exact Hfind]).
  set (new_status := default (status r) (status_mapping !! lower st)).
  destruct (decide (new_status <> status r)); [|exact Hw].
  destruct (decide (new_status = DELIVERED)).
  { cbn [snd]. apply update_db_inv; [exact Hr | exact Hw]. }
  destruct (decide (new_status = FAILED)).
  2:{ cbn [snd]. apply update_db_inv; [exact Hr | exact Hw]. }
  cbn [retry_count max_retries set_error_message set_updated_at set_status].
  destruct (retry_count r <? max_retries r) eqn:Hlt.
  - apply Z.ltb_lt in Hlt.
    match goal with
    | |- context [_schedule_retry now ?x w] =>
        destruct (schedule_retry_inv now x w) as [H1 H2];
          [exact Hr | exact Hlt | exact Hw |];
          destruct (_schedule_retry now x w) as [[[[]|e'] r'] w']
    end; cbn [fst snd] in *; [now apply update_db_inv | exact H2].
  - cbn [snd]. apply update_db_inv; [exact Hr | exact Hw].
Qed.

Lemma process_reminder_inv env now r w :
  retry_inv r -> table_inv w ->
  retry_inv (_process_reminder env now r w).1 /\
  table_inv (_process_reminder env now r w).2.
Proof.
  intros Hr Hw. unfold _process_reminder, process_failed.
  destruct (get_patient_by_id env (patient_id r)) as [patient|].
  2:{ cbn [fst snd]. split; [exact Hr | now apply update_db_inv]. }
  assert (Hw1 : table_inv (_update_reminder_in_db (set_status PENDING r) w))
    by now apply update_db_inv.
  destruct (send_counts env (set_status PENDING r) patient) as [Hc Hm].
  destruct (send env (set_status PENDING r) patient) as [result r1].
  cbn [snd retry_count max_retries set_status] in Hc, Hm.
  assert (Hr1 : retry_inv r1) by (unfold retry_inv in *; lia).
  destruct result.
  - cbn [fst snd]. split; [exact Hr1 | now apply update_db_inv].
  - cbn [retry_count max_retries set_status].
    destruct (retry_count r1 <? max_retries r1) eqn:Hlt.
    + apply Z.ltb_lt in Hlt.
      match goal with
      | |- context [_schedule_retry now ?x ?y] =>
          destruct (schedule_retry_inv now x y) as [H1 H2];
            [exact Hr1 | exact Hlt | exact Hw1 |];
            destruct (_schedule_retry now x y) as [[[[]|e'] r'] w']
      end; cbn [fst snd] in *;
        (split; [exact H1 | now apply update_db_inv]).
    + cbn [fst snd]. split; [exact Hr1 | now apply update_db_inv].
Qed.

Lemma create_reminder_inv env now fresh_id c w :
  valid_create now c -> table_inv w ->
  table_inv (create_reminder env now fresh_id c w).2 /\
  (forall r, (create_reminder env now fresh_id c w).1 = Ok r -> retry_inv r).
Proof.
  intros (Hmax & _ & _) Hw. unfold create_reminder.
  destruct (get_patient_by_id env (c_patient_id c)); [|split; [exact Hw | discriminate]].
  cbn [_save_reminder_to_db fst snd]. split.
  - unfold table_inv. rewrite schedule_reminder_table. cbn [table put_table].
    apply Forall_app. split; [exact Hw|].
    constructor; [|constructor]. unfold retry_inv. simpl. lia.
  - intros r [= <-]. unfold retry_inv. simpl. lia.
Qed.

Lemma apply_update_counts u r :
  retry_count (apply_update u r) = retry_count r /\
  max_retries (apply_update u r) = default (max_retries r) (u_max_retries u).
Proof.
  unfold apply_update.
  destruct (u_scheduled_time u), (u_priority u), (u_custom_message u),
    (u_metadata u), (u_max_retries u), (u_retry_interval u); simpl; auto.
Qed.

Lemma update_reminder_inv now i u w :
  table_inv w ->
  (forall r m, _get_reminder_from_db i w = Some r ->
               u_max_retries u = Some m -> retry_count r <= m) ->
  table_inv (update_reminder now i u w).2 /\
  (forall r', (update_reminder now i u w).1 = Ok (Some r') -> retry_inv r').
Proof.
  intros Hw Hm. unfold update_reminder.
  destruct (_get_reminder_from_db i w) as [r|] eqn:Hfind;
    [|split; [exact Hw | discriminate]].
  assert (Hr : retry_inv r) by (eapply find_Forall; [exact Hw | exact Hfind]).
  destruct (bool_decide _); [split; [exact Hw | discriminate]|].
  destruct (apply_update_counts u r) as [Hc Hx].
  assert (Hr' : retry_inv (set_updated_at (Some now) (apply_update u r))).
  { unfold retry_inv in *. cbn [retry_count max_retries set_updated_at].
    rewrite Hc, Hx. destruct (u_max_retries u) as [m|] eqn:Hu; simpl; [|lia].
    specialize (Hm r m eq_refl eq_refl). lia. }
  cbn [fst snd]. split.
  - unfold table_inv.
    destruct (u_scheduled_time u);
      rewrite ?reschedule_reminder_table; now apply update_db_inv.
  - intros r' [= <-]. exact Hr'.
Qed.

Lemma cancel_reminder_inv now i w :
  table_inv w -> table_inv (cancel_reminder now i w).2.
Proof.
  intros Hw. unfold cancel_reminder.
  destruct (_get_reminder_from_db i w) as [r|] eqn:Hfind; [|exact Hw].
  assert (Hr : retry_inv r) by (eapply find_Forall; [exact Hw | exact Hfind]).
  destruct (bool_decide _); [exact Hw|]. cbn [snd].
  unfold table_inv. rewrite remove_from_queue_table. now apply update_db_inv.
Qed.

Lemma retry_failed_reminder_inv now i force w :
  table_inv w -> table_inv (retry_failed_reminder now i force w).2.
Proof.
  intros Hw. unfold retry_failed_reminder.
  destruct (_get_reminder_from_db i w) as [r|] eqn:Hfind; [|exact Hw].
  assert (Hr : retry_inv r) by (eapply find_Forall; [exact Hw | exact Hfind]).
  destruct (_ && _); [exact Hw|]. destruct (_ && _); [exact Hw|].
  destruct (datetime_add _ _); [|exact Hw]. cbn [snd].
  unfold table_inv. rewrite schedule_reminder_table. now apply update_db_inv.
Qed.

Lemma handle_failed_inv update now r msg sch :
  retry_inv r -> retry_count r < max_retries r ->
  retry_inv (ReminderScheduler._handle_failed_reminder update now r msg sch).1.
Proof.
  intros [H0 H1] Hlt. unfold ReminderScheduler._handle_failed_reminder.
  cbn [retry_count max_retries set_error_message set_retry_count].
  assert (Hr : forall st,
    retry_inv (set_status st
      (set_error_message msg (set_retry_count (retry_count r + 1) r)))).
  { intros st. unfold retry_inv. simpl. lia. }
  assert (Hr0 : retry_inv
      (set_error_message msg (set_retry_count (retry_count r + 1) r))).
  { unfold retry_inv. simpl. lia. }
  destruct (retry_count r + 1 <? max_retries r).
  - destruct (_calculate_retry_delay _ _); [|exact Hr0].
    destruct (update _); [|apply Hr].
    destruct (RedisService.enqueue_retry_reminder _ _ _ _) as [[]]; apply Hr.
  - destruct (update _); apply Hr.
Qed.

End RetryInvariant.

Section RetryInvariantClaim.
Import Redis ReminderService Samples.

(** C2, amended. The invariant [0 <= retry_count <= max_retries] holds for a
    reminder as created, and is preserved by the delivery-status callback,
    by the service's own dispatch and retry scheduling, by cancelling and
    by a forced retry; it is preserved by the scheduler's failure handling
    when the reminder has a retry left before the failure, and by an update
    when the new [max_retries], if one is given, is not below the
    reminder's [retry_count]. *)
Theorem retry_inv_preserved (env : collaborators) (now : Z) (w : service) :
  table_inv w ->
  (forall fresh_id c, valid_create now c ->
     table_inv (create_reminder env now fresh_id c w).2 /\
     forall r, (create_reminder env now fresh_id c w).1 = Ok r -> retry_inv r) /\
  (forall sid st ec em, table_inv (update_delivery_status now sid st ec em w).2) /\
  (forall r, retry_inv r ->
     retry_inv (_process_reminder env now r w).1 /\
     table_inv (_process_reminder env now r w).2) /\
  (forall i, table_inv (cancel_reminder now i w).2) /\
  (forall i force, table_inv (retry_failed_reminder now i force w).2) /\
  (forall update r msg sch,
     retry_inv r -> retry_count r < max_retries r ->
     retry_inv
       (ReminderScheduler._handle_failed_reminder update now r msg sch).1) /\
  (forall i u,
     (forall r m, _get_reminder_from_db i w = Some r ->
                  u_max_retries u = Some m -> retry_count r <= m) ->
     table_inv (update_reminder now i u w).2 /\
     forall r', (update_reminder now i u w).1 = Ok (Some r') -> retry_inv r').
Proof.
  intros Hw. split; [|split; [|split; [|split; [|split; [|split]]]]].
  - intros fresh_id c Hc. now apply create_reminder_inv.
  - intros. now apply update_delivery_status_inv.
  - intros r Hr. now apply process_reminder_inv.
  - intros. now apply cancel_reminder_inv.
  - intros. now apply retry_failed_reminder_inv.
  - intros. now apply handle_failed_inv.
  - intros i u Hm. now apply update_reminder_inv.
Qed.

Lemma retrying_table_inv : table_inv (service_with retrying_reminder).
Proof. repeat constructor; simpl; lia. Qed.

Lemma retry_inv_preserved_witness :
  table_inv (service_with retrying_reminder) /\
  forall sid st ec em,
    table_inv
      (update_delivery_status 200 sid st ec em (service_with retrying_reminder)).2.
Proof.
  split; [exact retrying_table_inv|].
  exact (proj1 (proj2
    (retry_inv_preserved voice_refused 200 (service_with retrying_reminder)
       retrying_table_inv))).
Defined.

(** C2 as stated fails: an update may lower [max_retries] below the
    [retry_count] reached, and the scheduler counts the failure of a
    reminder that has no retry. *)
Lemma retry_inv_broken :
  (table_inv (service_with retrying_reminder) /\
   valid_update 0 lower_max_retries /\
   ~ table_inv
       (update_reminder 0 1 lower_max_retries (service_with retrying_reminder)).2)
  /\
  (retry_inv no_retry_reminder /\
   ~ retry_inv
       (ReminderScheduler._handle_failed_reminder
          ReminderScheduler.store_rejects 0 no_retry_reminder None
          sample_scheduler).1).
Proof.
  split; [split; [exact retrying_table_inv | split] | split].
  - unfold valid_update, lower_max_retries. simpl.
    split; [|split]; intros ? [=]; lia.
  - intros H. apply Forall_inv in H. destruct H as [_ H]. vm_compute in H.
    now apply H.
  - unfold retry_inv. simpl. lia.
  - intros [_ H]. vm_compute in H. now apply H.
Qed.

End RetryInvariantClaim.

Section FourFailuresClaim.
Import Redis ReminderScheduler Samples.

(** The four failures with a reminder service that accepts the update,
    and with the service the source wires, which rejects it. *)
Lemma four_failures_in_a_row_witness :
  (let update : ReminderData -> result unit := fun _ => Ok tt in
   let run :=
     fail_repeatedly update [1000; 1400; 2400; 4300] four_retries_reminder
       sample_scheduler in
   status (fail_repeatedly update [1000; 1400; 2400] four_retries_reminder
             sample_scheduler).1 = RETRY /\
   status run.1 = FAILED /\ retry_count run.1 = 4 /\
   map snd (retry (redis_service run.2))
   = [1000 + 300; 1400 + 900; 2400 + 1800]) /\
  (let run :=
     fail_repeatedly store_rejects [1000; 1400; 2400; 4300]
       four_retries_reminder sample_scheduler in
   status (fail_repeatedly store_rejects [1000; 1400; 2400]
             four_retries_reminder sample_scheduler).1 = RETRY /\
   status run.1 = FAILED /\ retry_count run.1 = 4).
Proof.
  split.
  - destruct (four_failures_in_a_row (fun _ => Ok tt) four_retries_reminder
                sample_scheduler 1000 1400 2400 4300 eq_refl eq_refl eq_refl)
      as (_ & _ & H3 & H4 & Hc & _ & _ & Hq).
    split; [exact H3|]. split; [exact H4|]. split; [exact Hc|].
    apply Hq; [reflexivity | reflexivity | reflexivity |].
    intros t Ht. unfold datetime_min, datetime_max.
    rewrite list_elem_of_In in Ht. simpl in Ht.
    destruct Ht as [<-|[<-|[<-|[]]]]; lia.
  - destruct (four_failures_in_a_row store_rejects four_retries_reminder
                sample_scheduler 1000 1400 2400 4300 eq_refl eq_refl eq_refl)
      as (_ & _ & H3 & H4 & Hc & _).
    split; [exact H3|]. split; [exact H4 | exact Hc].
Defined.

(** C3 as stated fails: the fourth failure in a row reaches
    [retry_count = max_retries = 4], so the reminder is marked FAILED
    without a fourth retry, and no retry with a delay of 3600 seconds is
    enqueued: not by a reminder service that accepts the scheduler's update,
    and not by the service of the source, which rejects it and so lets no
    retry reach the queue at all. *)
Lemma four_failures_no_fourth_retry :
  (let (r', sch') :=
     fail_repeatedly (fun _ => Ok tt) [0; 0; 0; 0] four_retries_reminder
       sample_scheduler in
   status r' = FAILED /\
   retry_delays_enqueued 0 sch' = [300; 900; 1800] /\
   retry_delays_enqueued 0 sch' <> [300; 900; 1800; 3600]) /\
  (let (r', sch') :=
     fail_repeatedly store_rejects [0; 0; 0; 0] four_retries_reminder
       sample_scheduler in
   status r' = FAILED /\ retry_count r' = 4 /\
   retry_delays_enqueued 0 sch' = []).
Proof. vm_compute. repeat split; discriminate. Qed.

End FourFailuresClaim.

(** ** Status ingestion *)

Section StatusIngestion.
Import Redis ReminderService.

Lemma status_mapping_lookup (k : string) :
  status_mapping !! k =
  if decide (k = "delivered") then Some DELIVERED
  else if decide (k = "sent") then Some SENT
  else if decide (k = "failed") then Some FAILED
  else if decide (k = "undelivered") then Some FAILED
  else None.
Proof.
  unfold status_mapping. cbn [list_to_map foldr uncurry curry fst snd].
  repeat (rewrite lookup_insert; case_decide; subst;
          [repeat (case_decide; try congruence); reflexivity|]).
  repeat (case_decide; try congruence). apply lookup_empty.
Qed.

Lemma find_after_update (f : ReminderData -> bool) (r r' : ReminderData)
    (l : list ReminderData) :
  find f l = Some r -> id r' = id r -> f r' = true ->
  find f (map (fun x => if decide (id x = id r') then r' else x) l) = Some r'.
Proof.
  intros Hfind Hid Hf. induction l as [|x l IH]; simpl in *; [discriminate|].
  destruct (f x) eqn:Hx.
  - injection Hfind as ->. rewrite decide_True by congruence. now rewrite Hf.
  - destruct (decide (id x = id r')); [now rewrite Hf|].
    rewrite Hx. now apply IH.
Qed.

Lemma find_sid_after_update sid r r' w :
  _get_reminder_by_twilio_sid sid w = Some r ->
  id r' = id r -> twilio_sid r' = twilio_sid r ->
  _get_reminder_by_twilio_sid sid (_update_reminder_in_db r' w) = Some r'.
Proof.
  unfold _get_reminder_by_twilio_sid, _update_reminder_in_db. cbn [table put_table].
  intros Hfind Hid Hsid. eapply find_after_update; [exact Hfind | exact Hid |].
  apply find_some in Hfind as [_ H]. now rewrite Hsid.
Qed.

Lemma find_sid_schedule sid r w :
  _get_reminder_by_twilio_sid sid (_schedule_reminder r w)
  = _get_reminder_by_twilio_sid sid w.
Proof.
  unfold _get_reminder_by_twilio_sid. now rewrite schedule_reminder_table.
Qed.

(** What the handler does once the reminder is found. *)
Lemma update_delivery_status_found now sid st ec em w r :
  _get_reminder_by_twilio_sid sid w = Some r ->
  _get_reminder_by_twilio_sid sid (update_delivery_status now sid st ec em w).2
  = Some (delivery_outcome now st ec em r) /\
  (default (status r) (status_mapping !! lower st) = status r ->
   update_delivery_status now sid st ec em w = (Ok true, w)) /\
  (forall e, retry_scheduled st r ->
     datetime_add now (retry_interval r) = Raise e ->
     update_delivery_status now sid st ec em w = (Raise e, w)) /\
  ((retry_scheduled st r ->
    exists t, datetime_add now (retry_interval r) = Ok t) ->
   (update_delivery_status now sid st ec em w).1 = Ok true).
Proof.
  intros Hfind. unfold update_delivery_status, delivery_outcome, retry_scheduled.
  rewrite Hfind.
  destruct (status_mapping !! lower st) as [ns|] eqn:Hmap;
    cbn [default from_option]; unfold Datatypes.id.
  2:{ rewrite decide_False by (intros H; now apply H).
      repeat split; auto. intros e (? & _); discriminate. }
  destruct (decide (ns = status r)) as [->|Hne].
  { rewrite decide_False by (intros H; now apply H).
    repeat split; auto. intros e ([= H1] & H2 & _). congruence. }
  rewrite decide_True by assumption.
  assert (Hput : forall r', id r' = id r -> twilio_sid r' = twilio_sid r ->
    _get_reminder_by_twilio_sid sid (_update_reminder_in_db r' w) = Some r')
    by (intros; now apply (find_sid_after_update sid r)).
  destruct (decide (ns = DELIVERED)) as [->|HnD].
  { cbn [fst snd]. split; [now apply Hput|].
    split; [intros H; cbn in H; congruence|].
    split; [intros e ([=] & _)|reflexivity]. }
  destruct (decide (ns = FAILED)) as [->|HnF].
  2:{ cbn [fst snd]. split; [destruct ns; try congruence; now apply Hput|].
      split; [intros H; cbn in H; congruence|].
      split; [intros e ([= H] & _); congruence|reflexivity]. }
  cbn [retry_count max_retries set_error_message set_updated_at set_status].
  destruct (retry_count r <? max_retries r) eqn:Hlt.
  - apply Z.ltb_lt in Hlt. unfold _schedule_retry.
    cbn [retry_count retry_interval set_retry_count set_status
         set_error_message set_updated_at].
    destruct (datetime_add now (retry_interval r)) as [t|e] eqn:Hadd;
      cbn [fst snd].
    + split.
      { eapply find_sid_after_update; [|reflexivity|reflexivity].
        rewrite find_sid_schedule. now apply Hput. }
      split; [intros H; cbn in H; congruence|].
      split; [intros e _ [=]|reflexivity].
    + split; [exact Hfind|].
      split; [intros H; cbn in H; congruence|].
      split; [intros e' _ [= <-]; reflexivity|].
      intros H. destruct H as [t Ht]; [auto|discriminate].
  - apply Z.ltb_ge in Hlt. cbn [fst snd]. split; [now apply Hput|].
    split; [intros H; cbn in H; congruence|].
    split; [intros e (_ & _ & H); lia|reflexivity].
Qed.

Lemma status_mapping_terminal k ns :
  status_mapping !! k = Some ns -> terminal ns = true.
Proof.
  rewrite status_mapping_lookup.
  repeat case_decide; intros [=]; subst; reflexivity.
Qed.

Lemma outcome_retry now st ec em r t :
  retry_scheduled st r ->
  datetime_add now (retry_interval r) = Ok t ->
  status (delivery_outcome now st ec em r) = RETRY /\
  retry_count (delivery_outcome now st ec em r) = retry_count r + 1 /\
  max_retries (delivery_outcome now st ec em r) = max_retries r /\
  retry_interval (delivery_outcome now st ec em r) = retry_interval r /\
  scheduled_time (delivery_outcome now st ec em r) = Some t.
Proof.
  intros (Hmap & Hst & Hlt) Ht. unfold delivery_outcome. rewrite Hmap.
  rewrite decide_False by congruence.
  rewrite (proj2 (Z.ltb_lt _ _)) by assumption. rewrite Ht. auto.
Qed.

Lemma outcome_overflow now st ec em r e :
  retry_scheduled st r ->
  datetime_add now (retry_interval r) = Raise e ->
  delivery_outcome now st ec em r = r.
Proof.
  intros (Hmap & Hst & Hlt) He. unfold delivery_outcome. rewrite Hmap.
  rewrite decide_False by congruence.
  rewrite (proj2 (Z.ltb_lt _ _)) by assumption. now rewrite He.
Qed.

Lemma outcome_no_retry now st ec em r :
  ~ retry_scheduled st r ->
  status (delivery_outcome now st ec em r)
  = default (status r) (status_mapping !! lower st) /\
  retry_count (delivery_outcome now st ec em r) = retry_count r /\
  max_retries (delivery_outcome now st ec em r) = max_retries r.
Proof.
  intros Hno. unfold delivery_outcome, retry_scheduled in *.
  destruct (status_mapping !! lower st) as [ns|]; [|auto].
  cbn [default from_option]; unfold Datatypes.id.
  destruct (decide (ns = status r)) as [->|Hne]; [auto|].
  destruct ns; try (cbn; auto; fail).
  destruct (retry_count r <? max_retries r) eqn:Hlt; [|cbn; auto].
  apply Z.ltb_lt in Hlt. exfalso. apply Hno. auto.
Qed.

(** C10. A callback whose status, in lower case, is none of [delivered],
    [sent], [failed] and [undelivered] leaves the whole state as it is, every
    field of every reminder with it; when a reminder carries the identifier,
    the handler still returns success and the reminder found afterwards is
    the same record. *)
Theorem unknown_status_no_effect now sid st ec em w :
  lower st ∉ ["delivered"; "sent"; "failed"; "undelivered"] ->
  (update_delivery_status now sid st ec em w).2 = w /\
  (forall r, _get_reminder_by_twilio_sid sid w = Some r ->
     (update_delivery_status now sid st ec em w).1 = Ok true /\
     _get_reminder_by_twilio_sid sid
       (update_delivery_status now sid st ec em w).2 = Some r).
Proof.
  intros Hkey.
  assert (Hmap : status_mapping !! lower st = None).
  { rewrite status_mapping_lookup. rewrite list_elem_of_In in Hkey.
    simpl in Hkey.
    repeat (case_decide; [exfalso; apply Hkey; auto 6|]).
    reflexivity. }
  assert (Heq : (update_delivery_status now sid st ec em w).2 = w /\
                forall r, _get_reminder_by_twilio_sid sid w = Some r ->
                  (update_delivery_status now sid st ec em w).1 = Ok true).
  { unfold update_delivery_status.
    destruct (_get_reminder_by_twilio_sid sid w) as [r|]; [|split; [reflexivity|discriminate]].
    rewrite Hmap. cbn [default from_option]. unfold Datatypes.id.
    rewrite decide_False by (intros H; now apply H). auto. }
  destruct Heq as [Hw Hret]. split; [exact Hw|].
  intros r Hfind. split; [now apply (Hret r)|]. now rewrite Hw.
Qed.

(** C5, amended. Replaying a callback leaves the state exactly as the
    first application left it, and returns the same answer, whenever the
    first application does not schedule a retry: for every status other
    than a failure, for a reminder already FAILED, and for a reminder
    without retries left.  When it does schedule a retry and the time of
    the retry is a date, the replay is applied again to the reminder in
    RETRY: it counts a further retry if one is left, and its time is a date
    again, and marks the reminder FAILED if none is left.  When the time
    of the retry is no date the handler raises and changes nothing, the
    first time as in the replay. *)
Theorem replay_idempotence now1 now2 sid st ec em w :
  let once := update_delivery_status now1 sid st ec em w in
  let twice := update_delivery_status now2 sid st ec em once.2 in
  ((forall r, _get_reminder_by_twilio_sid sid w = Some r ->
              ~ retry_scheduled st r) ->
   twice = once) /\
  (forall r e, _get_reminder_by_twilio_sid sid w = Some r ->
               retry_scheduled st r ->
               datetime_add now1 (retry_interval r) = Raise e ->
   once = (Raise e, w)) /\
  (forall r t, _get_reminder_by_twilio_sid sid w = Some r ->
               retry_scheduled st r ->
               datetime_add now1 (retry_interval r) = Ok t ->
   exists r1 r2,
     once.1 = Ok true /\
     _get_reminder_by_twilio_sid sid once.2 = Some r1 /\
     _get_reminder_by_twilio_sid sid twice.2 = Some r2 /\
     status r1 = RETRY /\ retry_count r1 = retry_count r + 1 /\
     (retry_count r + 1 < max_retries r ->
      (forall t2, datetime_add now2 (retry_interval r) = Ok t2 ->
         twice.1 = Ok true /\
         status r2 = RETRY /\ retry_count r2 = retry_count r + 2) /\
      (forall e, datetime_add now2 (retry_interval r) = Raise e ->
         twice = (Raise e, once.2))) /\
     (max_retries r <= retry_count r + 1 ->
      twice.1 = Ok true /\
      status r2 = FAILED /\ retry_count r2 = retry_count r + 1)).
Proof.
  intros once twice. split; [|split].
  - intros Hno. subst once twice.
    destruct (_get_reminder_by_twilio_sid sid w) as [r|] eqn:Hfind.
    2:{ unfold update_delivery_status at 2 3. rewrite Hfind. cbn [snd].
        unfold update_delivery_status. now rewrite Hfind. }
    specialize (Hno r eq_refl).
    destruct (update_delivery_status_found now1 sid st ec em w r Hfind)
      as (Hafter & _ & _ & Hret).
    destruct (update_delivery_status_found now2 sid st ec em _ _ Hafter)
      as (_ & Hsame & _).
    destruct (outcome_no_retry now1 st ec em r Hno) as (Hst & _).
    assert (Hfix : default (status (delivery_outcome now1 st ec em r))
                     (status_mapping !! lower st)
                   = status (delivery_outcome now1 st ec em r)).
    { rewrite Hst. now destruct (status_mapping !! lower st). }
    specialize (Hsame Hfix).
    assert (Hret1 : (update_delivery_status now1 sid st ec em w).1 = Ok true)
      by (apply Hret; intros H; now destruct Hno).
    destruct (update_delivery_status now1 sid st ec em w) as [b1 w1].
    cbn [fst snd] in *. congruence.
  - intros r e Hfind Hretry He. subst once.
    destruct (update_delivery_status_found now1 sid st ec em w r Hfind)
      as (_ & _ & Hraise & _).
    now apply Hraise.
  - intros r t Hfind Hretry Ht. subst once twice.
    destruct (update_delivery_status_found now1 sid st ec em w r Hfind)
      as (Hafter & _ & _ & Hret).
    destruct (update_delivery_status_found now2 sid st ec em _ _ Hafter)
      as (Hafter2 & _ & Hraise2 & Hret2).
    destruct (outcome_retry now1 st ec em r t Hretry Ht)
      as (Hst & Hrc & Hmax & Hri & _).
    set (r1 := delivery_outcome now1 st ec em r) in *.
    exists r1, (delivery_outcome now2 st ec em r1).
    split; [apply Hret; eauto|].
    split; [exact Hafter|]. split; [exact Hafter2|].
    split; [exact Hst|]. split; [exact Hrc|].
    assert (Hmap : status_mapping !! lower st = Some FAILED)
      by now destruct Hretry.
    split.
    + intros Hlt.
      assert (Hretry1 : retry_scheduled st r1).
      { split; [exact Hmap|]. split; [congruence | lia]. }
      split.
      * intros t2 Ht2. rewrite <- Hri in Ht2.
        destruct (outcome_retry now2 st ec em r1 t2 Hretry1 Ht2)
          as (H1 & H2 & _).
        split; [apply Hret2; eauto|]. split; [exact H1 | lia].
      * intros e He. rewrite <- Hri in He. now apply Hraise2.
    + intros Hge.
      assert (Hno1 : ~ retry_scheduled st r1) by (intros (_ & _ & Hlt); lia).
      destruct (outcome_no_retry now2 st ec em r1 Hno1) as (H1 & H2 & _).
      rewrite Hmap in H1.
      split; [apply Hret2; intros H; now destruct Hno1|].
      split; [exact H1 | lia].
Qed.

End StatusIngestion.

Section StatusIngestionClaims.
Import Redis ReminderService Samples.

Lemma unknown_status_no_effect_witness :
  (update_delivery_status 200 "SM1" "QUEUED" None None
     (service_with sent_reminder)).2 = service_with sent_reminder /\
  (forall r,
     _get_reminder_by_twilio_sid "SM1" (service_with sent_reminder) = Some r ->
     (update_delivery_status 200 "SM1" "QUEUED" None None
        (service_with sent_reminder)).1 = Ok true /\
     _get_reminder_by_twilio_sid "SM1"
       (update_delivery_status 200 "SM1" "QUEUED" None None
          (service_with sent_reminder)).2 = Some r).
Proof.
  apply (unknown_status_no_effect 200 "SM1" "QUEUED" None None
           (service_with sent_reminder)).
  rewrite list_elem_of_In. simpl. intuition discriminate.
Defined.

Lemma replay_idempotence_witness :
  update_delivery_status 300 "SM1" "delivered" None None
    (update_delivery_status 200 "SM1" "delivered" None None
       (service_with sent_reminder)).2
  = update_delivery_status 200 "SM1" "delivered" None None
      (service_with sent_reminder).
Proof.
  apply (proj1 (replay_idempotence 200 300 "SM1" "delivered" None None
                  (service_with sent_reminder))).
  intros r _ (Hmap & _). vm_compute in Hmap. discriminate.
Defined.

(** C5 as stated fails: a replayed failure callback is counted again. *)
Lemma replay_counts_twice :
  let once :=
    (update_delivery_status 200 "SM1" "failed" None None
       (service_with sent_reminder)).2 in
  let twice := (update_delivery_status 200 "SM1" "failed" None None once).2 in
  retry_count <$> _get_reminder_by_twilio_sid "SM1" once = Some 1 /\
  retry_count <$> _get_reminder_by_twilio_sid "SM1" twice = Some 2 /\
  twice <> once.
Proof. vm_compute. repeat split; discriminate. Qed.

End StatusIngestionClaims.

(** ** Cancelling *)

Section Cancel.
Import Redis ReminderService Samples.

Lemma find_id_after_update i r r' w :
  _get_reminder_from_db i w = Some r -> id r' = id r ->
  _get_reminder_from_db i (_update_reminder_in_db r' w) = Some r'.
Proof.
  unfold _get_reminder_from_db, _update_reminder_in_db. cbn [table put_table].
  intros Hfind Hid. eapply find_after_update; [exact Hfind | exact Hid |].
  apply find_some in Hfind as [_ H]. now rewrite Hid.
Qed.

(** C4, amended. Cancelling a reminder that exists succeeds if and only if
    its status is neither SENT nor DELIVERED, so also for a FAILED and for
    a CANCELLED reminder, and leaves the reminder CANCELLED; for a SENT or
    DELIVERED reminder it raises [ValueError] and leaves the state as it
    is. *)
Theorem cancel_reminder_iff now i w r :
  _get_reminder_from_db i w = Some r ->
  ((cancel_reminder now i w).1 = Ok true <-> status r ∉ [SENT; DELIVERED]) /\
  (status r ∉ [SENT; DELIVERED] ->
   exists r', _get_reminder_from_db i (cancel_reminder now i w).2 = Some r' /\
              status r' = CANCELLED) /\
  (status r ∈ [SENT; DELIVERED] ->
   cancel_reminder now i w
   = (Raise (ValueError "Impossible d'annuler un rappel déjà envoyé"), w)).
Proof.
  intros Hfind. unfold cancel_reminder. rewrite Hfind.
  destruct (bool_decide (status r ∈ [SENT; DELIVERED])) eqn:Hin.
  - apply bool_decide_eq_true in Hin. split; [|split].
    + split; [discriminate | intros H; now destruct H].
    + intros H. now destruct H.
    + reflexivity.
  - apply bool_decide_eq_false in Hin. split; [|split].
    + split; [intros _; exact Hin | reflexivity].
    + intros _. eexists. split.
      * cbn [snd]. unfold _get_reminder_from_db.
        rewrite remove_from_queue_table.
        now apply (find_id_after_update i r).
      * reflexivity.
    + intros H. now destruct Hin.
Qed.

Lemma cancel_reminder_iff_witness :
  ((cancel_reminder 5 1 (service_with retrying_reminder)).1 = Ok true <->
   status retrying_reminder ∉ [SENT; DELIVERED]) /\
  (status retrying_reminder ∉ [SENT; DELIVERED] ->
   exists r',
     _get_reminder_from_db 1
       (cancel_reminder 5 1 (service_with retrying_reminder)).2 = Some r' /\
     status r' = CANCELLED) /\
  (status retrying_reminder ∈ [SENT; DELIVERED] ->
   cancel_reminder 5 1 (service_with retrying_reminder)
   = (Raise (ValueError "Impossible d'annuler un rappel déjà envoyé"),
      service_with retrying_reminder)).
Proof.
  apply (cancel_reminder_iff 5 1 (service_with retrying_reminder)
           retrying_reminder).
  reflexivity.
Defined.

(** C4 as stated fails: cancelling a FAILED reminder succeeds and changes
    it. *)
Lemma cancel_failed_succeeds :
  status failed_reminder = FAILED /\
  (cancel_reminder 5 1 (service_with failed_reminder)).1 = Ok true /\
  status <$> _get_reminder_from_db 1
               (cancel_reminder 5 1 (service_with failed_reminder)).2
  = Some CANCELLED.
Proof. vm_compute. repeat split. Qed.

End Cancel.

(** ** Dispatch on both channels *)

Section BothChannels.
Import Redis ReminderService Samples.

(** A failed voice attempt leaves its error text on the reminder: the text
    of the exception raised while preparing the call, or the gateway's. *)
Lemma voice_failure_message env r p :
  (_send_voice_reminder env r p).1 = false ->
  exists msg,
    (_send_voice_reminder env r p).2 = set_error_message (Some msg) r.
Proof.
  unfold _send_voice_reminder.
  match goal with
  | |- context [match ?u with Ok _ => _ | Raise _ => _ end] => destruct u
  end; cbn [fst snd].
  - destruct (make_voice_call env (phone p) _); cbn [fst snd];
      [discriminate | eauto].
  - eauto.
Qed.

End BothChannels.


(** ** The queue service without its server *)

Section Unreachable.
Import Redis RedisService Samples.

(** C8, amended. When the server cannot be reached, the three dequeue
    operations return the empty list and leave the state as it is; the
    enqueue operations log the error and raise it again to their caller:
    the connection error, or, for a delay whose due time is no date, the
    overflow the computation of the due time has raised before. *)
Theorem unreachable_server now limit r delay s :
  reachable s = false ->
  let raised :=
    match datetime_add now delay with
    | Ok _ => ConnectionError
    | Raise e => e
    end in
  get_due_scheduled_reminders now limit s = (Ok [], s) /\
  get_due_retry_reminders now limit s = (Ok [], s) /\
  get_immediate_reminders now limit s = (Ok [], s) /\
  enqueue_scheduled_reminder now r delay s
  = (Raise (if 0 <? delay then raised else ConnectionError), s) /\
  enqueue_immediate_reminder now r s = (Raise ConnectionError, s) /\
  enqueue_retry_reminder now r delay s = (Raise raised, s).
Proof.
  intros Hdown raised. subst raised.
  unfold get_due_scheduled_reminders, get_due_retry_reminders,
    get_immediate_reminders, enqueue_immediate_reminder,
    enqueue_scheduled_reminder, enqueue_retry_reminder,
    try_except, zrangebyscore, llen, zadd, lpush, raise.
  unfold mbind, M_bind, lift.
  rewrite !command_unreachable by assumption.
  destruct (datetime_add now delay), (0 <? delay); cbn;
    rewrite ?command_unreachable by assumption; repeat split; reflexivity.
Qed.

Lemma unreachable_server_witness :
  let s := set_reachable false empty_state in
  get_due_scheduled_reminders 100 50 s = (Ok [], s) /\
  get_due_retry_reminders 100 50 s = (Ok [], s) /\
  get_immediate_reminders 100 50 s = (Ok [], s) /\
  enqueue_scheduled_reminder 100 sent_reminder 60 s = (Raise ConnectionError, s) /\
  enqueue_immediate_reminder 100 sent_reminder s = (Raise ConnectionError, s) /\
  enqueue_retry_reminder 100 sent_reminder 60 s = (Raise ConnectionError, s).
Proof.
  apply (unreachable_server 100 50 sent_reminder 60
           (set_reachable false empty_state)).
  reflexivity.
Defined.

(** C8 as stated fails: an enqueue on an unreachable server ends in an
    exception, not in a value. *)
Lemma enqueue_raises :
  reachable (set_reachable false empty_state) = false /\
  (enqueue_retry_reminder 100 sent_reminder 300
     (set_reachable false empty_state)).1 = Raise ConnectionError /\
  (forall v, (enqueue_scheduled_reminder 100 sent_reminder 60
                (set_reachable false empty_state)).1 <> Ok v).
Proof. repeat split. intros v. vm_compute. discriminate. Qed.

End Unreachable.

(** ** Locks *)

Section Locks.
Import Redis RedisService.

Lemma live_delete now' key s :
  live now' key (put_strings (delete key (strings s)) s) = None.
Proof. unfold live. cbn [strings put_strings]. now rewrite lookup_delete_eq. Qed.

(** C9, amended. [release_lock] removes the lock of the given name whoever
    wrote the identifier stored under it: on a reachable server, when the
    lock is held, by any holder, the release returns true and the lock is
    free afterwards.  The lock protects only against acquiring: while it is
    held, [acquire_lock] returns false and changes nothing. *)
Theorem release_lock_any_holder now lock_name timeout s v :
  reachable s = true ->
  holder now lock_name s = Some v ->
  (release_lock now lock_name s).1 = Ok true /\
  (forall now', holder now' lock_name (release_lock now lock_name s).2 = None) /\
  acquire_lock now lock_name timeout s = (Ok false, s).
Proof.
  unfold holder. intros Hup Hheld. split; [|split].
  - unfold release_lock, try_except, delete_key, mbind, M_bind.
    rewrite command_reachable by assumption. cbn [fst snd].
    now rewrite Hheld.
  - intros now'. unfold release_lock, try_except, delete_key, mbind, M_bind.
    rewrite command_reachable by assumption. cbn [fst snd].
    apply live_delete.
  - unfold acquire_lock, try_except, set_nx_ex, mbind, M_bind, lift.
    rewrite command_reachable by assumption. cbn [fst snd].
    destruct (expire_error "set" now timeout); [reflexivity|].
    now rewrite Hheld.
Qed.

Lemma release_lock_any_holder_witness :
  let s := (acquire_lock 0 "scheduler" 60 empty_state).2 in
  (release_lock 30 "scheduler" s).1 = Ok true /\
  (forall now', holder now' "scheduler" (release_lock 30 "scheduler" s).2 = None) /\
  acquire_lock 30 "scheduler" 60 s = (Ok false, s).
Proof.
  apply (release_lock_any_holder 30 "scheduler" 60
           (acquire_lock 0 "scheduler" 60 empty_state).2 (identifier 0));
    reflexivity.
Defined.

(** C9 as stated fails.  A first scheduler takes the lock at time 0 for 60
    seconds and overruns; the lock expires, a second scheduler takes it at
    time 61; the first one then releases at time 62: the lock, which
    carries the second scheduler's identifier, is removed. *)
Lemma release_by_non_holder :
  let s1 := (acquire_lock 0 "scheduler" 60 empty_state).2 in
  let s2 := (acquire_lock 61 "scheduler" 60 s1).2 in
  let s3 := (release_lock 62 "scheduler" s2).2 in
  holder 0 "scheduler" s1 = Some (identifier 0) /\
  (acquire_lock 61 "scheduler" 60 s1).1 = Ok true /\
  holder 62 "scheduler" s2 = Some (identifier 61) /\
  identifier 61 <> identifier 0 /\
  (release_lock 62 "scheduler" s2).1 = Ok true /\
  holder 62 "scheduler" s3 = None.
Proof. vm_compute. repeat split; discriminate. Qed.

End Locks.

(** * Further properties *)

(** ** Locks: exclusion, expiry, independence *)

Section LockProperties.
Import Redis RedisService.

Lemma lock_key_inj a b : lock_key a = lock_key b -> a = b.
Proof. unfold lock_key. cbn. intros H. now simplify_eq. Qed.

(** The expiries the server accepts: a positive number of seconds that,
    added to a clock reading after the epoch, stays below [2 ^ 63]
    milliseconds; and no expiry that is not positive. *)
Lemma expire_accepted c now ex :
  0 < ex -> 0 <= now -> (now + ex) * 1000 < 2 ^ 63 ->
  expire_error c now ex = None.
Proof.
  intros Hpos Hnow Hfit. unfold expire_error, int64.
  assert (H63 : 2 ^ 63 = 9223372036854775808) by reflexivity.
  assert (Hdiv : (2 ^ 63 - 1) / 1000 = 9223372036854775) by reflexivity.
  rewrite Hdiv. rewrite H63 in *.
  repeat match goal with
  | |- context [?a <=? ?b] => destruct (Z.leb_spec a b); try lia
  | |- context [?a <? ?b] => destruct (Z.ltb_spec a b); try lia
  end.
  reflexivity.
Qed.

Lemma expire_refused c now ex :
  ex <= 0 -> exists e, expire_error c now ex = Some e.
Proof.
  intros Hle. unfold expire_error.
  destruct (negb (int64 ex)); [eauto|].
  rewrite (proj2 (Z.leb_le ex 0)) by assumption. cbn [orb]. eauto.
Qed.

Lemma acquire_lock_cases now lock_name timeout s :
  acquire_lock now lock_name timeout s =
  if reachable s then
    match expire_error "set" now timeout with
    | Some _ => (Ok false, s)
    | None =>
        match live now (lock_key lock_name) s with
        | Some _ => (Ok false, s)
        | None =>
            (Ok true,
             put_strings
               (<[lock_key lock_name := (identifier now, now + timeout)]>
                  (strings s)) s)
        end
    end
  else (Ok false, s).
Proof.
  unfold acquire_lock, try_except, set_nx_ex, mbind, M_bind, lift, command.
  destruct (reachable s); [|reflexivity]. cbn [fst snd].
  destruct (expire_error "set" now timeout); [reflexivity|].
  destruct (live now (lock_key lock_name) s); reflexivity.
Qed.

Lemma acquire_lock_held now lock_name timeout s v :
  reachable s = true ->
  holder now lock_name s = Some v ->
  acquire_lock now lock_name timeout s = (Ok false, s).
Proof.
  unfold holder. intros Hup Hheld.
  rewrite acquire_lock_cases, Hup, Hheld.
  now destruct (expire_error "set" now timeout).
Qed.

(** X1. Taking a free lock on a reachable server succeeds when the server
    accepts the duration: the lock then carries the caller's identifier
    until the duration has passed, every attempt to take it in the meantime
    fails and changes nothing, and from the expiry on it is free again.
    When the server refuses the duration, the lock is not taken although it
    is free.  The server accepts a positive duration that ends before
    [2 ^ 63] milliseconds. *)
Theorem acquire_lock_exclusive now lock_name timeout s :
  reachable s = true ->
  holder now lock_name s = None ->
  let s' := (acquire_lock now lock_name timeout s).2 in
  (expire_error "set" now timeout = None ->
   (acquire_lock now lock_name timeout s).1 = Ok true /\
   (forall now', now' < now + timeout ->
      holder now' lock_name s' = Some (identifier now)) /\
   (forall now' timeout', now' < now + timeout ->
      acquire_lock now' lock_name timeout' s' = (Ok false, s')) /\
   (forall now', now + timeout <= now' -> holder now' lock_name s' = None)) /\
  (forall e, expire_error "set" now timeout = Some e ->
   acquire_lock now lock_name timeout s = (Ok false, s)) /\
  (0 < timeout -> 0 <= now -> (now + timeout) * 1000 < 2 ^ 63 ->
   expire_error "set" now timeout = None).
Proof.
  intros Hup Hfree s'. split; [|split].
  - intros Hok.
    assert (Hacq : acquire_lock now lock_name timeout s
      = (Ok true,
         put_strings (<[lock_key lock_name := (identifier now, now + timeout)]>
                        (strings s)) s)).
    { rewrite acquire_lock_cases, Hup, Hok.
      unfold holder in Hfree. now rewrite Hfree. }
    subst s'. rewrite Hacq. cbn [fst snd].
    assert (Hheld : forall now', now' < now + timeout ->
      holder now' lock_name
        (put_strings (<[lock_key lock_name := (identifier now, now + timeout)]>
                        (strings s)) s) = Some (identifier now)).
    { intros now' Hlt. unfold holder, live. cbn [strings put_strings].
      rewrite lookup_insert_eq.
      now rewrite (proj2 (Z.ltb_lt _ _)) by assumption. }
    split; [reflexivity|]. split; [exact Hheld|]. split.
    + intros now' timeout' Hlt.
      eapply acquire_lock_held; [exact Hup | now apply Hheld].
    + intros now' Hge. unfold holder, live. cbn [strings put_strings].
      rewrite lookup_insert_eq.
      now rewrite (proj2 (Z.ltb_ge _ _)) by assumption.
  - intros e He. now rewrite acquire_lock_cases, Hup, He.
  - apply expire_accepted.
Qed.

(** X2. Locks of different names do not interfere: taking or releasing one,
    on any server and whatever the outcome, leaves the holder of the other
    as it was. *)
Theorem locks_independent now now' name name' timeout s :
  name <> name' ->
  holder now' name' (acquire_lock now name timeout s).2 = holder now' name' s /\
  holder now' name' (release_lock now name s).2 = holder now' name' s.
Proof.
  intros Hne.
  assert (Hk : lock_key name <> lock_key name')
    by (intros H; now apply Hne, lock_key_inj).
  split.
  - rewrite acquire_lock_cases.
    destruct (reachable s); [|reflexivity].
    destruct (expire_error "set" now timeout); [reflexivity|].
    destruct (live now (lock_key name) s); cbn [fst snd]; [reflexivity|].
    unfold holder, live. simpl.
    now rewrite lookup_insert_ne.
  - unfold release_lock, try_except, delete_key, mbind, M_bind, command.
    destruct (reachable s); [|reflexivity]. cbn [fst snd].
    unfold holder, live. simpl.
    now rewrite lookup_delete_ne.
Qed.

Lemma release_lock_cases now lock_name s :
  release_lock now lock_name s =
  if reachable s then
    (Ok (match live now (lock_key lock_name) s with
         | Some _ => true
         | None => false
         end),
     put_strings (delete (lock_key lock_name) (strings s)) s)
  else (Ok false, s).
Proof.
  unfold release_lock, try_except, delete_key, mbind, M_bind, command.
  destruct (reachable s); [|reflexivity]. cbn [fst snd].
  destruct (live now (lock_key lock_name) s); reflexivity.
Qed.

(** X3. The lock operations never raise.  On an unreachable server both
    answer false and change nothing; so does [acquire_lock] when the
    duration is not positive, and [release_lock] of a lock that is free
    answers false. *)
Theorem lock_operations_total now lock_name timeout s :
  (exists b, (acquire_lock now lock_name timeout s).1 = Ok b) /\
  (exists b, (release_lock now lock_name s).1 = Ok b) /\
  (reachable s = false ->
     acquire_lock now lock_name timeout s = (Ok false, s) /\
     release_lock now lock_name s = (Ok false, s)) /\
  (timeout <= 0 -> acquire_lock now lock_name timeout s = (Ok false, s)) /\
  (holder now lock_name s = None ->
     (release_lock now lock_name s).1 = Ok false).
Proof.
  rewrite acquire_lock_cases, release_lock_cases. unfold holder.
  split; [|split; [|split; [|split]]].
  - destruct (reachable s); [|eauto].
    destruct (expire_error "set" now timeout); [eauto|].
    destruct (live now (lock_key lock_name) s); eauto.
  - destruct (reachable s); eauto.
  - now intros ->.
  - intros Ht. destruct (reachable s); [|reflexivity].
    destruct (expire_refused "set" now timeout Ht) as [e ->]. reflexivity.
  - intros Hfree. rewrite Hfree. now destruct (reachable s).
Qed.

End LockProperties.

(** ** The status cache *)

Section StatusCache.
Import Redis RedisExtra.

Lemma status_of_value_round_trip st : status_of_value (status_value st) = Ok st.
Proof. destruct st; reflexivity. Qed.

Lemma status_value_truthy st : truthy (Some (status_value st)) = true.
Proof. destruct st; reflexivity. Qed.

Lemma status_key_inj i j : status_key i = status_key j -> i = j.
Proof.
  unfold status_key. cbn. intros H. simplify_eq. now apply (inj pretty).
Qed.

(** X4. A status cached for a reminder on a reachable server, with a
    lifetime the server accepts, is read back as the same status until the
    lifetime has passed and as absent from then on; the cached status of
    any other reminder is not affected.  With a lifetime the server
    refuses, the refusal is swallowed and nothing is cached.  The server
    accepts a positive lifetime that ends before [2 ^ 63] milliseconds,
    and no lifetime that is not positive. *)
Theorem status_cache_round_trip now reminder_id st ttl s :
  reachable s = true ->
  let s' := (cache_reminder_status now reminder_id st ttl s).2 in
  (expire_error "setex" now ttl = None ->
   (cache_reminder_status now reminder_id st ttl s).1 = Ok tt /\
   (forall now', now' < now + ttl ->
      get_cached_reminder_status now' reminder_id s' = (Ok (Some st), s')) /\
   (forall now', now + ttl <= now' ->
      get_cached_reminder_status now' reminder_id s' = (Ok None, s')) /\
   (forall now' other, other <> reminder_id ->
      (get_cached_reminder_status now' other s').1
      = (get_cached_reminder_status now' other s).1)) /\
  (forall e, expire_error "setex" now ttl = Some e ->
   cache_reminder_status now reminder_id st ttl s = (Ok tt, s)) /\
  (0 < ttl -> 0 <= now -> (now + ttl) * 1000 < 2 ^ 63 ->
   expire_error "setex" now ttl = None) /\
  (ttl <= 0 -> exists e, expire_error "setex" now ttl = Some e).
Proof.
  intros Hup s'. split; [|split; [|split]].
  2:{ intros e He.
      unfold cache_reminder_status, try_except, setex, mbind, M_bind, lift.
      rewrite command_reachable by assumption. cbn [fst snd].
      now rewrite He. }
  2:{ apply expire_accepted. }
  2:{ apply expire_refused. }
  intros Hok.
  assert (Hset : cache_reminder_status now reminder_id st ttl s
    = (Ok tt,
       put_strings (<[status_key reminder_id := (status_value st, now + ttl)]>
                      (strings s)) s)).
  { unfold cache_reminder_status, try_except, setex, mbind, M_bind, lift.
    rewrite command_reachable by assumption. cbn [fst snd].
    now rewrite Hok. }
  subst s'. rewrite Hset. cbn [fst snd].
  set (s1 := put_strings _ s).
  assert (Hup1 : reachable s1 = true) by exact Hup.
  assert (Hget : forall now' i,
    get_cached_reminder_status now' i s1
    = (match live now' (status_key i) s1 with
       | Some v =>
           if truthy (Some v) then
             match status_of_value v with
             | Ok x => Ok (Some x)
             | Raise _ => Ok None
             end
           else Ok None
       | None => Ok None
       end, s1)).
  { intros now' i.
    unfold get_cached_reminder_status, try_except, get, mbind, M_bind, lift.
    rewrite command_reachable by assumption. cbn [fst snd].
    destruct (live now' (status_key i) s1) as [v|]; [|reflexivity].
    cbn [default from_option]. unfold Datatypes.id.
    destruct (truthy (Some v)); [|reflexivity].
    destruct (status_of_value v); reflexivity. }
  split; [reflexivity|]. split; [|split].
  - intros now' Hlt. rewrite Hget. unfold live, s1. cbn [strings put_strings].
    rewrite lookup_insert_eq. rewrite (proj2 (Z.ltb_lt _ _)) by assumption.
    now rewrite status_value_truthy, status_of_value_round_trip.
  - intros now' Hge. rewrite Hget. unfold live, s1. cbn [strings put_strings].
    rewrite lookup_insert_eq. now rewrite (proj2 (Z.ltb_ge _ _)) by assumption.
  - intros now' other Hne.
    unfold get_cached_reminder_status, try_except, get, mbind, M_bind, lift.
    rewrite !command_reachable by assumption. cbn [fst snd].
    assert (Hl : live now' (status_key other) s1 = live now' (status_key other) s).
    { unfold live, s1. cbn [strings put_strings].
      rewrite lookup_insert_ne; [reflexivity|].
      intros H. apply Hne. symmetry. now apply status_key_inj. }
    rewrite Hl. destruct (live now' (status_key other) s) as [v|]; [|reflexivity].
    cbn [default from_option]. unfold Datatypes.id.
    destruct (truthy (Some v)); [|reflexivity].
    destruct (status_of_value v); reflexivity.
Qed.

End StatusCache.

Section LockAndCacheWitnesses.
Import Redis RedisService RedisExtra.

(** A lock taken for five minutes, and one asked for [10 ^ 16] seconds,
    which the server refuses. *)
Lemma acquire_lock_exclusive_witness :
  let s' := (acquire_lock 100 "metrics" 300 empty_state).2 in
  ((acquire_lock 100 "metrics" 300 empty_state).1 = Ok true /\
   (forall now', now' < 100 + 300 ->
      holder now' "metrics" s' = Some (identifier 100)) /\
   (forall now' timeout', now' < 100 + 300 ->
      acquire_lock now' "metrics" timeout' s' = (Ok false, s')) /\
   (forall now', 100 + 300 <= now' -> holder now' "metrics" s' = None)) /\
  acquire_lock 100 "metrics" (10 ^ 16) empty_state = (Ok false, empty_state).
Proof.
  split.
  - apply (acquire_lock_exclusive 100 "metrics" 300 empty_state);
      reflexivity.
  - eapply (acquire_lock_exclusive 100 "metrics" (10 ^ 16) empty_state);
      reflexivity.
Defined.

Lemma locks_independent_witness :
  holder 5 "cleanup" (acquire_lock 1 "metrics" 300 empty_state).2
  = holder 5 "cleanup" empty_state /\
  holder 5 "cleanup" (release_lock 1 "metrics" empty_state).2
  = holder 5 "cleanup" empty_state.
Proof.
  apply (locks_independent 1 5 "metrics" "cleanup" 300 empty_state).
  discriminate.
Defined.

Lemma status_cache_round_trip_witness :
  let s' := (cache_reminder_status 100 7 RETRY 300 empty_state).2 in
  (cache_reminder_status 100 7 RETRY 300 empty_state).1 = Ok tt /\
  (forall now', now' < 100 + 300 ->
     get_cached_reminder_status now' 7 s' = (Ok (Some RETRY), s')) /\
  (forall now', 100 + 300 <= now' ->
     get_cached_reminder_status now' 7 s' = (Ok None, s')) /\
  (forall now' other, other <> 7 ->
     (get_cached_reminder_status now' other s').1
     = (get_cached_reminder_status now' other empty_state).1).
Proof.
  apply (status_cache_round_trip 100 7 RETRY 300 empty_state);
    reflexivity.
Defined.

End LockAndCacheWitnesses.

(** ** Cleaning the sorted sets *)

Section Cleanup.
Import Redis RedisExtra.

Lemma zremrangebyscore_reachable k lo hi s :
  reachable s = true ->
  zremrangebyscore k lo hi s
  = (Ok (Z.of_nat (length (filter (fun e => lo <= e.2 <= hi) (zget k s)))),
     zput k (filter (fun e => ~ lo <= e.2 <= hi) (zget k s)) s).
Proof.
  intros Hup. unfold zremrangebyscore. now rewrite command_reachable.
Qed.

Lemma filter_length_split {A} (P : A -> Prop) `{!forall x, Decision (P x)}
    (l : list A) :
  length l = (length (filter P l) + length (filter (fun x => ~ P x) l))%nat.
Proof.
  induction l as [|x l IH]; [reflexivity|].
  rewrite !filter_cons. destruct (decide (P x)) as [HP|HP].
  - rewrite decide_False by tauto. simpl. lia.
  - rewrite decide_True by assumption. simpl. lia.
Qed.

Lemma cleanup_expired_data_reachable now s :
  reachable s = true ->
  cleanup_expired_data now s
  = (Ok (Z.of_nat (length (filter (fun e => 0 <= e.2 <= now - 86400)
                             (scheduled s)))
         + Z.of_nat (length (filter (fun e => 0 <= e.2 <= now - 86400)
                               (retry s)))),
     mkState (reachable s)
       (filter (fun e => ~ 0 <= e.2 <= now - 86400) (scheduled s))
       (filter (fun e => ~ 0 <= e.2 <= now - 86400) (retry s))
       (immediate s) (strings s) (counters s) (byte_order s)).
Proof.
  intros Hup. unfold cleanup_expired_data, try_except, mbind, M_bind.
  rewrite zremrangebyscore_reachable by assumption.
  rewrite zremrangebyscore_reachable by (destruct s; exact Hup).
  destruct s; reflexivity.
Qed.

(** X5. [cleanup_expired_data] on a reachable server removes from the
    scheduled and the retry set exactly the entries whose score lies between
    0 and 24 hours before the clock reading: every other entry is kept,
    entries of negative score included, and the answer is the number of
    entries removed.  On an unreachable server it answers 0 and changes
    nothing. *)
Theorem cleanup_expired_data_spec now s :
  let expired (e : member * Z) := 0 <= e.2 <= now - 86400 in
  let n := (cleanup_expired_data now s).1 in
  let s' := (cleanup_expired_data now s).2 in
  (reachable s = true ->
     (forall e, e ∈ scheduled s' <-> e ∈ scheduled s /\ ~ expired e) /\
     (forall e, e ∈ retry s' <-> e ∈ retry s /\ ~ expired e) /\
     n = Ok (Z.of_nat (length (scheduled s)) - Z.of_nat (length (scheduled s'))
             + (Z.of_nat (length (retry s)) - Z.of_nat (length (retry s')))) /\
     immediate s' = immediate s /\ strings s' = strings s) /\
  (reachable s = false -> cleanup_expired_data now s = (Ok 0, s)).
Proof.
  intros expired n s'. subst expired. cbn beta. split.
  - intros Hup.
    subst n s'. rewrite cleanup_expired_data_reachable by assumption. cbn [fst snd scheduled retry immediate strings].
    split; [|split; [|split; [|split]]]; try reflexivity.
    + intros e. rewrite list_elem_of_filter. tauto.
    + intros e. rewrite list_elem_of_filter. tauto.
    + f_equal.
      pose proof (filter_length_split
        (fun e : member * Z => 0 <= e.2 <= now - 86400) (scheduled s)).
      pose proof (filter_length_split
        (fun e : member * Z => 0 <= e.2 <= now - 86400) (retry s)). lia.
  - intros Hdown. unfold cleanup_expired_data, try_except, mbind, M_bind,
      zremrangebyscore.
    now rewrite command_unreachable.
Qed.

End Cleanup.

(** ** The loops of the scheduler *)

Section Loops.
Import Redis RedisService RedisExtra ReminderScheduler SchedulerLoops.

Lemma put_redis_same sch : put_redis (redis_service sch) sch = sch.
Proof. now destruct sch. Qed.

Lemma increment_counter_cases name v s :
  increment_counter name v s
  = (Ok tt,
     if reachable s && int64 v && int64 (default 0 (counters s !! name) + v)
     then
       put_counters
         (<[name := default 0 (counters s !! name) + v]> (counters s)) s
     else s).
Proof.
  unfold increment_counter, try_except, hincrby, mbind, M_bind, lift, command.
  destruct (reachable s); [|reflexivity]. cbn [fst snd andb].
  destruct (int64 v); [|reflexivity]. cbn [negb andb].
  destruct (int64 _); reflexivity.
Qed.

(** X6. One turn of the cleanup loop.  When the [cleanup] lock is free on a
    reachable server and the server accepts the interval as the lock's
    duration, the turn removes the entries that are more than 24 hours late
    at the time of the cleanup, adds their number to the counter
    [cleanup_redis_items] unless that takes the counter out of the signed
    64-bit integers, and leaves the lock free.  When the lock is held, the
    server unreachable, or the interval refused as a duration, the turn
    changes nothing. *)
Theorem cleanup_iteration_spec t0 t1 t2 sch :
  let s := redis_service sch in
  let s' := redis_service (cleanup_iteration t0 t1 t2 sch) in
  let expired (e : member * Z) := 0 <= e.2 <= t1 - 86400 in
  let removed :=
    Z.of_nat (length (scheduled s)) - Z.of_nat (length (scheduled s'))
    + (Z.of_nat (length (retry s)) - Z.of_nat (length (retry s'))) in
  let counted := default 0 (counters s !! "cleanup_redis_items") + removed in
  (reachable s = true -> holder t0 "cleanup" s = None ->
   expire_error "set" t0 (cleanup_interval (config sch)) = None ->
     (forall e, e ∈ scheduled s' <-> e ∈ scheduled s /\ ~ expired e) /\
     (forall e, e ∈ retry s' <-> e ∈ retry s /\ ~ expired e) /\
     (int64 removed && int64 counted = true ->
      counters s' = <["cleanup_redis_items" := counted]> (counters s)) /\
     (int64 removed && int64 counted = false -> counters s' = counters s) /\
     (forall now, holder now "cleanup" s' = None)) /\
  ((reachable s = false \/ (exists v, holder t0 "cleanup" s = Some v)
    \/ exists e, expire_error "set" t0 (cleanup_interval (config sch)) = Some e) ->
   cleanup_iteration t0 t1 t2 sch = sch).
Proof.
  intros s s' expired removed counted.
  subst expired counted removed. cbn beta. split.
  - intros Hup Hfree Hok. subst s'. unfold cleanup_iteration.
    rewrite acquire_lock_cases. fold s. rewrite Hup, Hok.
    unfold holder in Hfree. rewrite Hfree.
    unfold _perform_cleanup. cbn [redis_service put_redis].
    rewrite cleanup_expired_data_reachable by exact Hup.
    rewrite increment_counter_cases.
    cbn [snd redis_service put_redis reachable put_strings counters].
    rewrite release_lock_cases.
    cbn [reachable put_counters scheduled retry strings counters immediate
         put_strings fst snd].
    set (n := Z.of_nat (length (filter
                  (fun e : member * Z => 0 <= e.2 <= t1 - 86400) (scheduled s)))
              + Z.of_nat (length (filter
                  (fun e : member * Z => 0 <= e.2 <= t1 - 86400) (retry s)))).
    assert (Hn : n = Z.of_nat (length (scheduled s))
                     - Z.of_nat (length (filter
                         (fun e : member * Z => ~ 0 <= e.2 <= t1 - 86400)
                         (scheduled s)))
                     + (Z.of_nat (length (retry s))
                        - Z.of_nat (length (filter
                            (fun e : member * Z => ~ 0 <= e.2 <= t1 - 86400)
                            (retry s))))).
    { subst n.
      pose proof (filter_length_split
        (fun e : member * Z => 0 <= e.2 <= t1 - 86400) (scheduled s)).
      pose proof (filter_length_split
        (fun e : member * Z => 0 <= e.2 <= t1 - 86400) (retry s)).
      lia. }
    rewrite Hup. cbn [andb].
    destruct (int64 n && int64 (default 0 (counters s !! "cleanup_redis_items") + n))
      eqn:Hfit;
      cbn [reachable put_counters scheduled retry strings counters immediate
           put_strings fst snd]; rewrite ?Hup;
      cbn [fst snd redis_service put_redis scheduled retry counters strings
           put_strings put_counters]; rewrite <- Hn, Hfit.
    + split; [|split; [|split; [|split]]].
      * intros e. rewrite list_elem_of_filter. tauto.
      * intros e. rewrite list_elem_of_filter. tauto.
      * reflexivity.
      * discriminate.
      * intros now. unfold holder, live. simpl.
        now rewrite lookup_delete_eq.
    + split; [|split; [|split; [|split]]].
      * intros e. rewrite list_elem_of_filter. tauto.
      * intros e. rewrite list_elem_of_filter. tauto.
      * discriminate.
      * reflexivity.
      * intros now. unfold holder, live. simpl.
        now rewrite lookup_delete_eq.
  - intros Hskip; unfold cleanup_iteration; rewrite acquire_lock_cases; fold s.
    destruct (reachable s); [|apply put_redis_same].
    destruct (expire_error "set" t0 _) as [e|] eqn:He; [apply put_redis_same|].
    destruct Hskip as [?|[[v Hheld]|[e He']]]; [discriminate| |discriminate].
    unfold holder in Hheld. rewrite Hheld. apply put_redis_same.
Qed.

(** X7. One turn of the scheduler loop.  When the [scheduler] lock is held
    by anyone, when the server is unreachable, or when the server refuses
    [check_interval] as a duration, the turn does not process anything and
    changes nothing.  When the lock is free, the processing starts from a
    state in which this turn holds the lock until [check_interval] seconds
    have passed, and no longer: a processing that overruns goes on without
    the lock.  After the processing the lock is released whoever holds it
    then, so that, if the server is still reachable, the lock is free at the
    end of the turn and the queues are as the processing left them. *)
Theorem scheduler_iteration_spec
    (process : scheduler -> scheduler) t0 t1 sch :
  let s := redis_service sch in
  let timeout := check_interval (config sch) in
  ((reachable s = false \/ (exists v, holder t0 "scheduler" s = Some v)
    \/ exists e, expire_error "set" t0 timeout = Some e) ->
   scheduler_iteration process t0 t1 sch = sch) /\
  (reachable s = true -> holder t0 "scheduler" s = None ->
   expire_error "set" t0 timeout = None ->
   let locked := (acquire_lock t0 "scheduler" timeout s).2 in
   let processed := process (put_redis locked sch) in
   let s' := redis_service (scheduler_iteration process t0 t1 sch) in
   (forall now, now < t0 + timeout ->
      holder now "scheduler" locked = Some (identifier t0)) /\
   (forall now, t0 + timeout <= now -> holder now "scheduler" locked = None) /\
   scheduler_iteration process t0 t1 sch
   = put_redis (release_lock t1 "scheduler" (redis_service processed)).2
       processed /\
   (forall v, holder t1 "scheduler" (redis_service processed) = Some v ->
      reachable (redis_service processed) = true ->
      forall now, holder now "scheduler" s' = None) /\
   (reachable (redis_service processed) = true ->
    (forall now, holder now "scheduler" s' = None) /\
    scheduled s' = scheduled (redis_service processed) /\
    retry s' = retry (redis_service processed) /\
    immediate s' = immediate (redis_service processed) /\
    counters s' = counters (redis_service processed))).
Proof.
  intros s timeout. split.
  - intros Hskip. unfold scheduler_iteration. rewrite acquire_lock_cases.
    fold s timeout.
    destruct (reachable s) eqn:Hup; [|apply put_redis_same].
    destruct (expire_error "set" t0 timeout) as [e|] eqn:He;
      [apply put_redis_same|].
    destruct Hskip as [?|[[v Hheld]|[e He']]]; [discriminate| |discriminate].
    unfold holder in Hheld. rewrite Hheld. apply put_redis_same.
  - intros Hup Hfree Hok locked processed s'.
    assert (Hfree' : live t0 (lock_key "scheduler") s = None) by exact Hfree.
    assert (Hlocked : locked
      = put_strings
          (<[lock_key "scheduler" := (identifier t0, t0 + timeout)]> (strings s))
          s).
    { subst locked. rewrite acquire_lock_cases. now rewrite Hup, Hok, Hfree'. }
    assert (Hit : scheduler_iteration process t0 t1 sch
      = put_redis (release_lock t1 "scheduler" (redis_service processed)).2
          processed).
    { unfold scheduler_iteration. fold s timeout.
      rewrite acquire_lock_cases. rewrite Hup, Hok, Hfree'. cbv zeta.
      subst processed. now rewrite Hlocked. }
    assert (Hend : reachable (redis_service processed) = true ->
      (forall now, holder now "scheduler" s' = None) /\
      scheduled s' = scheduled (redis_service processed) /\
      retry s' = retry (redis_service processed) /\
      immediate s' = immediate (redis_service processed) /\
      counters s' = counters (redis_service processed)).
    { intros Hup'. subst s'. rewrite Hit. rewrite release_lock_cases.
      rewrite Hup'. cbn [snd redis_service put_redis].
      split; [|repeat split].
      intros now. unfold holder, live. simpl.
      now rewrite lookup_delete_eq. }
    split; [|split; [|split; [exact Hit|split; [|exact Hend]]]].
    + intros now Hlt. rewrite Hlocked. unfold holder, live. simpl.
      rewrite lookup_insert_eq. now rewrite (proj2 (Z.ltb_lt _ _)) by lia.
    + intros now Hge. rewrite Hlocked. unfold holder, live. simpl.
      rewrite lookup_insert_eq. now rewrite (proj2 (Z.ltb_ge _ _)) by lia.
    + intros v _ Hup'. now apply Hend.
Qed.

End Loops.

(** ** The immediate queue *)

Section ImmediateQueue.
Import Redis RedisService RedisExtra.

Lemma put_immediate_same s : put_immediate (immediate s) s = s.
Proof. now destruct s. Qed.

Lemma put_immediate_twice l l' s :
  put_immediate l (put_immediate l' s) = put_immediate l s.
Proof. reflexivity. Qed.

Lemma pop_immediate_spec now n acc q s :
  reachable s = true ->
  immediate s = reverse q ->
  pop_immediate now n acc s
  = (Ok (acc ++ omap (loaded now) (take n q))%list,
     put_immediate (reverse (drop n q)) s).
Proof.
  revert acc q s. induction n as [|n IH]; intros acc q s Hup Himm.
  - cbn [pop_immediate]. rewrite take_0, drop_0. cbn [omap list_omap].
    rewrite app_nil_r, <- Himm. now rewrite put_immediate_same.
  - cbn [pop_immediate]. unfold mbind, M_bind, rpop.
    rewrite command_reachable by assumption. cbn [fst snd]. rewrite Himm.
    destruct q as [|x q].
    + cbn [reverse rev_append last removelast].
      assert (E : pop_immediate now n acc (put_immediate [] s)
                  = (Ok (acc ++ omap (loaded now) (take n []))%list,
                     put_immediate (reverse (drop n [])) (put_immediate [] s)))
        by now apply IH.
      rewrite E. now rewrite take_nil, drop_nil.
    + rewrite reverse_cons, last_snoc, removelast_last.
      rewrite firstn_cons, skipn_cons. cbn [omap list_omap]. unfold loaded at 1.
      destruct (load_reminder now x) as [r|e].
      * rewrite (IH (acc ++ [r])%list q (put_immediate (reverse q) s))
          by (assumption || reflexivity).
        now rewrite <- app_assoc.
      * rewrite (IH acc q (put_immediate (reverse q) s))
          by (assumption || reflexivity).
        reflexivity.
Qed.

Lemma enqueue_immediate_all_spec now rs s :
  reachable s = true ->
  enqueue_immediate_all now rs s
  = (Ok tt, put_immediate (reverse (Full <$> rs) ++ immediate s)%list s).
Proof.
  revert s. induction rs as [|r rs IH]; intros s Hup.
  - cbn. now rewrite put_immediate_same.
  - cbn [enqueue_immediate_all]. unfold mbind, M_bind.
    unfold enqueue_immediate_reminder, enqueue_scheduled_reminder, try_except,
      lpush, mbind, M_bind.
    cbn [Z.ltb Z.compare]. rewrite command_reachable by assumption.
    unfold mret, M_ret. cbn [fst snd]. rewrite IH by assumption.
    cbn [immediate put_immediate]. rewrite fmap_cons, reverse_cons.
    now rewrite <- app_assoc.
Qed.

Lemma take_min_length {A} (limit : Z) (l : list A) :
  take (Z.to_nat (Z.min limit (Z.of_nat (length l)))) l = take (Z.to_nat limit) l /\
  drop (Z.to_nat (Z.min limit (Z.of_nat (length l)))) l = drop (Z.to_nat limit) l.
Proof.
  destruct (Z.le_gt_cases limit (Z.of_nat (length l))) as [H|H].
  - now rewrite Z.min_l by assumption.
  - rewrite Z.min_r by lia. rewrite Nat2Z.id.
    rewrite !take_ge, !drop_ge by lia. auto.
Qed.

Lemma omap_loaded_Full now (rs : list ReminderData) :
  omap (loaded now) (Full <$> rs) = loads now <$> rs.
Proof. induction rs as [|r rs IH]; [reflexivity|]. cbn. now rewrite IH. Qed.

(** X8. The immediate queue is first in, first out.  Reminders enqueued one
    after the other on a reachable server whose immediate list is empty are
    handed out by [get_immediate_reminders] in the order of their enqueuing,
    each as the object read back from its JSON, with its dates as text: a
    call returns the oldest [limit] of them and leaves the others, in order,
    for the next call. *)
Theorem immediate_fifo now now' limit rs s :
  reachable s = true ->
  immediate s = [] ->
  let s1 := (enqueue_immediate_all now rs s).2 in
  (enqueue_immediate_all now rs s).1 = Ok tt /\
  get_immediate_reminders now' limit s1
  = (Ok (loads now' <$> take (Z.to_nat limit) rs),
     put_immediate (reverse (Full <$> drop (Z.to_nat limit) rs)) s1) /\
  (get_immediate_reminders now' (Z.of_nat (length rs))
     (get_immediate_reminders now' limit s1).2).1
  = Ok (loads now' <$> drop (Z.to_nat limit) rs).
Proof.
  intros Hup Hempty s1. subst s1.
  rewrite enqueue_immediate_all_spec by assumption. cbn [fst snd].
  rewrite Hempty, app_nil_r.
  set (s1 := put_immediate (reverse (Full <$> rs)) s).
  assert (Hup1 : reachable s1 = true) by exact Hup.
  assert (Hget : forall limit' q s2,
    reachable s2 = true -> immediate s2 = reverse (Full <$> q) ->
    get_immediate_reminders now' limit' s2
    = (Ok (loads now' <$> take (Z.to_nat limit') q),
       put_immediate (reverse (Full <$> drop (Z.to_nat limit') q)) s2)).
  { intros limit' q s2 Hup2 Himm.
    unfold get_immediate_reminders, try_except, mbind, M_bind, llen.
    rewrite command_reachable by assumption. cbn [fst snd].
    rewrite (pop_immediate_spec now' _ [] (Full <$> q) s2) by assumption.
    rewrite Himm, length_reverse.
    destruct (take_min_length limit' (Full <$> q)) as [-> ->].
    rewrite <- fmap_take, <- fmap_drop, omap_loaded_Full. reflexivity. }
  split; [reflexivity|]. split.
  - now apply Hget.
  - rewrite (Hget limit rs s1) by (assumption || reflexivity). cbn [snd].
    rewrite (Hget _ (drop (Z.to_nat limit) rs)) by (assumption || reflexivity).
    cbn [fst]. do 2 f_equal. apply take_ge. rewrite length_drop. lia.
Qed.

(** Three reminders, of which a first call takes two: the dates of the
    reminders handed out are texts. *)
Lemma immediate_fifo_witness :
  let rs := [Samples.sent_reminder; Samples.failed_reminder;
             Samples.retrying_reminder] in
  let s1 := (enqueue_immediate_all 10 rs empty_state).2 in
  (enqueue_immediate_all 10 rs empty_state).1 = Ok tt /\
  get_immediate_reminders 20 2 s1
  = (Ok [loads 20 Samples.sent_reminder; loads 20 Samples.failed_reminder],
     put_immediate [Full Samples.retrying_reminder] s1) /\
  (get_immediate_reminders 20 (Z.of_nat (length rs))
     (get_immediate_reminders 20 2 s1).2).1
  = Ok [loads 20 Samples.retrying_reminder] /\
  l_created_at (loads 20 Samples.sent_reminder) = DateText 0.
Proof.
  split; [|split; [|split; [|reflexivity]]];
    apply (immediate_fifo 10 20 2
             [Samples.sent_reminder; Samples.failed_reminder;
              Samples.retrying_reminder] empty_state); reflexivity.
Defined.

End ImmediateQueue.

(** ** The sorted sets *)

Section SortedSets.
Import Redis RedisService RedisExtra.

Lemma insert_by_score_perm before x l :
  insert_by_score before x l ≡ₚ x :: l.
Proof.
  induction l as [|y l IH]; [reflexivity|]. cbn [insert_by_score].
  destruct ((x.2 <? y.2) || ((x.2 =? y.2) && before x.1 y.1));
    [reflexivity|].
  rewrite IH. apply Permutation_swap.
Qed.

Lemma zsorted_perm before z : zsorted before z ≡ₚ z.
Proof.
  unfold zsorted.
  assert (H : forall acc,
            foldl (fun acc x => insert_by_score before x acc) acc z
                          ≡ₚ (acc ++ z)%list).
  { induction z as [|x z IH]; intros acc; cbn [foldl].
    - now rewrite app_nil_r.
    - rewrite IH, insert_by_score_perm. apply Permutation_middle. }
  apply (H []).
Qed.

Lemma zget_zput k z s : zget k (zput k z s) = z.
Proof. now destruct k. Qed.

Lemma zput_zput k z z' s : zput k z' (zput k z s) = zput k z' s.
Proof. now destruct k. Qed.

Lemma zput_same k s : zput k (zget k s) s = s.
Proof. now destruct k, s. Qed.

Lemma reachable_zput k z s : reachable (zput k z s) = reachable s.
Proof. now destruct k. Qed.

Lemma zrem_reachable k m s :
  reachable s = true ->
  zrem k m s = (Ok (if zmem m (zget k s) then 1 else 0),
                zput k (zset_rem m (zget k s)) s).
Proof. intros Hup. unfold zrem. now rewrite command_reachable. Qed.

Lemma zset_rem_elem m e z : e ∈ zset_rem m z <-> e ∈ z /\ e.1 <> m.
Proof. unfold zset_rem. rewrite list_elem_of_filter. tauto. Qed.

(** The members removed one after the other. *)
Lemma foldl_zset_rem_elem ms e z :
  e ∈ foldl (fun z m => zset_rem m z) z ms <-> e ∈ z /\ e.1 ∉ ms.
Proof.
  revert z. induction ms as [|m ms IH]; intros z; cbn [foldl].
  - split; [intros H; split; [exact H | apply not_elem_of_nil] | tauto].
  - rewrite IH, zset_rem_elem, not_elem_of_cons. tauto.
Qed.

Lemma collect_due_spec now k results acc s :
  reachable s = true ->
  collect_due now k results acc s
  = (Ok (acc ++ omap (loaded now) results)%list,
     zput k
       (foldl (fun z m => zset_rem m z) (zget k s)
          (filter (fun m => is_Some (loaded now m)) results)) s).
Proof.
  unfold loaded.
  revert acc s. induction results as [|m results IH]; intros acc s Hup.
  - cbn [collect_due]. unfold mret, M_ret. rewrite filter_nil.
    cbn [omap list_omap foldl]. now rewrite app_nil_r, zput_same.
  - cbn [collect_due]. rewrite filter_cons. cbn [omap list_omap].
    destruct (load_reminder now m) as [r|e].
    + rewrite decide_True by eauto.
      unfold mbind, M_bind, try_except.
      rewrite zrem_reachable by assumption. unfold mret, M_ret.
      cbn [fst snd foldl].
      rewrite IH by now rewrite reachable_zput.
      now rewrite zget_zput, zput_zput, <- app_assoc.
    + rewrite decide_False by (intros [? ?]; discriminate).
      now apply IH.
Qed.

Lemma NoDup_fst_unique {A B} (l : list (A * B)) a b b' :
  NoDup l.*1 -> (a, b) ∈ l -> (a, b') ∈ l -> b = b'.
Proof.
  induction l as [|[x y] l IH]; cbn [fmap list_fmap fst].
  - intros _ H. now apply elem_of_nil in H.
  - intros Hnd H1 H2. apply NoDup_cons in Hnd as [Hx Hnd].
    apply elem_of_cons in H1 as [E1|H1], H2 as [E2|H2].
    + congruence.
    + injection E1 as -> ->. exfalso. apply Hx.
      apply list_elem_of_fmap. now exists (x, b').
    + injection E2 as -> ->. exfalso. apply Hx.
      apply list_elem_of_fmap. now exists (x, b).
    + now apply IH.
Qed.

(** The members [zrangebyscore] returns, related to the set. *)
Lemma range_members k lo hi start num s m :
  m ∈ (if num <? 0
       then drop (Z.to_nat start)
              (filter (fun e : member * Z => lo <= e.2 <= hi)
                 (zsorted (byte_order s) (zget k s)))
       else take (Z.to_nat num)
              (drop (Z.to_nat start)
                 (filter (fun e : member * Z => lo <= e.2 <= hi)
                    (zsorted (byte_order s) (zget k s))))).*1 ->
  exists sc, (m, sc) ∈ zget k s /\ lo <= sc <= hi.
Proof.
  intros Hm. apply list_elem_of_fmap in Hm as [[m' sc] [-> He]].
  exists sc. cbn [fst].
  assert (Hin : (m', sc) ∈ filter (fun e : member * Z => lo <= e.2 <= hi)
                             (zsorted (byte_order s) (zget k s))).
  { destruct (num <? 0).
    - eapply subseteq_drop; eassumption.
    - eapply subseteq_drop, subseteq_take; eassumption. }
  apply list_elem_of_filter in Hin as [Hsc Hin].
  rewrite zsorted_perm in Hin. auto.
Qed.

Lemma length_omap_le {A B} (f : A -> option B) (l : list A) :
  (length (omap f l) <= length l)%nat.
Proof.
  induction l as [|x l IH]; cbn [omap list_omap length]; [lia|].
  destruct (f x); cbn [length]; lia.
Qed.

Lemma NoDup_fst_foldl_zset_rem ms z :
  NoDup z.*1 -> NoDup (foldl (fun z m => zset_rem m z) z ms).*1.
Proof.
  revert z. induction ms as [|m ms IH]; intros z Hz; cbn [foldl]; [exact Hz|].
  apply IH. unfold zset_rem. eapply sublist_NoDup; [exact Hz|].
  apply fmap_sublist, sublist_filter.
Qed.

(** The two dequeue methods, by the set they read. *)
Lemma get_due_unfold now limit s k :
  reachable s = true ->
  (match k with
   | SCHEDULED_REMINDERS => get_due_scheduled_reminders
   | RETRY_REMINDERS => get_due_retry_reminders
   end) now limit s
  = (if int64 limit then
       let due :=
         (if limit <? 0
          then drop (Z.to_nat 0)
                 (filter (fun e : member * Z => 0 <= e.2 <= now)
                    (zsorted (byte_order s) (zget k s)))
          else take (Z.to_nat limit)
                 (drop (Z.to_nat 0)
                    (filter (fun e : member * Z => 0 <= e.2 <= now)
                       (zsorted (byte_order s) (zget k s))))).*1 in
       (Ok (omap (loaded now) due),
        zput k
          (foldl (fun z m => zset_rem m z) (zget k s)
             (filter (fun m => is_Some (loaded now m)) due)) s)
     else (Ok [], s)).
Proof.
  intros Hup.
  destruct k; unfold get_due_scheduled_reminders, get_due_retry_reminders,
    try_except, zrangebyscore; unfold mbind, M_bind, lift;
    rewrite command_reachable by assumption; cbn [fst snd];
    change (int64 0) with true; cbn [andb];
    change (0 <? 0) with false; cbv iota;
    (destruct (int64 limit); cbn [fst snd];
     [rewrite collect_due_spec by assumption; reflexivity | reflexivity]).
Qed.

Lemma due_member_kept now limit s k e :
  reachable s = true ->
  NoDup (zget k s).*1 ->
  e ∈ zget k s ->
  ~ 0 <= e.2 <= now ->
  e ∈ zget k
        ((match k with
          | SCHEDULED_REMINDERS => get_due_scheduled_reminders
          | RETRY_REMINDERS => get_due_retry_reminders
          end) now limit s).2.
Proof.
  intros Hup Hnd He Hnot. rewrite get_due_unfold by assumption.
  destruct (int64 limit); [|exact He]. cbv zeta.
  cbn [snd]. rewrite zget_zput.
  apply foldl_zset_rem_elem. split; [exact He|].
  intros Hin. apply list_elem_of_filter in Hin as [_ Hin].
  apply range_members in Hin as [sc [Hin' Hsc]]. destruct e as [m sc0].
  cbn [fst snd] in *.
  assert (sc0 = sc) by (eapply NoDup_fst_unique; eassumption). lia.
Qed.

Lemma due_member_taken now limit s k m sc r :
  reachable s = true ->
  int64 limit = true ->
  limit < 0 \/ Z.of_nat (length (zget k s)) <= limit ->
  (m, sc) ∈ zget k s ->
  0 <= sc <= now ->
  load_reminder now m = Ok r ->
  exists rs,
    ((match k with
      | SCHEDULED_REMINDERS => get_due_scheduled_reminders
      | RETRY_REMINDERS => get_due_retry_reminders
      end) now limit s).1 = Ok rs /\ r ∈ rs /\
    m ∉ (zget k
           ((match k with
             | SCHEDULED_REMINDERS => get_due_scheduled_reminders
             | RETRY_REMINDERS => get_due_retry_reminders
             end) now limit s).2).*1.
Proof.
  intros Hup Hint Hlim Hin Hsc Hload.
  rewrite get_due_unfold by assumption. rewrite Hint. cbv zeta. cbn [fst snd].
  set (F := filter (fun e : member * Z => 0 <= e.2 <= now)
              (zsorted (byte_order s) (zget k s))).
  assert (HF : (m, sc) ∈ F).
  { apply list_elem_of_filter. split; [exact Hsc|]. now rewrite zsorted_perm. }
  assert (Hall : (if limit <? 0 then drop (Z.to_nat 0) F
                  else take (Z.to_nat limit) (drop (Z.to_nat 0) F)) = F).
  { destruct (limit <? 0) eqn:Hl; [reflexivity|]. cbn [Z.to_nat drop].
    apply Z.ltb_ge in Hl. apply take_ge.
    pose proof (length_filter (fun e : member * Z => 0 <= e.2 <= now)
                  (zsorted (byte_order s) (zget k s))) as Hle.
    fold F in Hle.
    rewrite (Permutation_length (zsorted_perm _ (zget k s))) in Hle.
    destruct Hlim; lia. }
  rewrite Hall.
  assert (Hm : m ∈ F.*1) by (apply list_elem_of_fmap; now exists (m, sc)).
  assert (Hl : loaded now m = Some r) by (unfold loaded; now rewrite Hload).
  eexists. split; [reflexivity|]. split.
  - apply list_elem_of_omap. eauto.
  - rewrite zget_zput. intros Hin'.
    apply list_elem_of_fmap in Hin' as [e [-> He]].
    apply foldl_zset_rem_elem in He as [_ He]. apply He.
    apply list_elem_of_filter. split; [|exact Hm]. rewrite Hl. eauto.
Qed.

(** X9. What the dequeue of due reminders hands out and what it leaves, on
    a reachable server whose set has unique members, for the scheduled and
    for the retry set alike and whatever the order of the server among
    members of equal score.  Every object returned is read from a member
    whose score lies between 0 and the clock reading, and that member has
    left the set; at most [limit] objects are returned; entries that are
    not due, and entries whose member does not parse, stay in the set; the
    other queues are not touched; and with a limit that is no signed 64-bit
    integer, which the server refuses, nothing is returned and nothing
    leaves the set. *)
Theorem due_dequeue_sound now limit s k :
  let get_due :=
    match k with
    | SCHEDULED_REMINDERS => get_due_scheduled_reminders
    | RETRY_REMINDERS => get_due_retry_reminders
    end in
  let other :=
    match k with
    | SCHEDULED_REMINDERS => RETRY_REMINDERS
    | RETRY_REMINDERS => SCHEDULED_REMINDERS
    end in
  reachable s = true ->
  NoDup (zget k s).*1 ->
  exists rs s',
    get_due now limit s = (Ok rs, s') /\
    (forall r, r ∈ rs ->
       exists m sc, (m, sc) ∈ zget k s /\ 0 <= sc <= now /\
                    load_reminder now m = Ok r /\ m ∉ (zget k s').*1) /\
    (0 <= limit -> Z.of_nat (length rs) <= limit) /\
    (forall e, e ∈ zget k s' -> e ∈ zget k s) /\
    (forall e, e ∈ zget k s -> ~ 0 <= e.2 <= now -> e ∈ zget k s') /\
    (forall e, e ∈ zget k s -> loaded now e.1 = None -> e ∈ zget k s') /\
    NoDup (zget k s').*1 /\
    zget other s' = zget other s /\ immediate s' = immediate s /\
    strings s' = strings s /\
    (int64 limit = false -> rs = [] /\ s' = s).
Proof.
  intros get_due other Hup Hnd. subst get_due.
  rewrite get_due_unfold by assumption.
  destruct (int64 limit) eqn:Hint.
  2:{ exists [], s. split; [reflexivity|].
      split; [intros r Hr; now apply elem_of_nil in Hr|].
      split; [cbn [length]; lia|].
      repeat (split; [now auto|]). now auto. }
  cbv zeta.
  set (due := (if limit <? 0 then _ else _).*1).
  assert (Hdue : forall m, m ∈ due ->
            exists sc, (m, sc) ∈ zget k s /\ 0 <= sc <= now)
    by (intros m; apply range_members).
  eexists _, _. split; [reflexivity|].
  rewrite zget_zput.
  split; [|split; [|split; [|split; [|split; [|split; [|split;
    [|split; [|split]]]]]]]].
  - intros r Hr. apply list_elem_of_omap in Hr as [m [Hm Hl]].
    destruct (Hdue m Hm) as [sc [Hin Hsc]]. exists m, sc.
    split; [exact Hin|]. split; [exact Hsc|]. split.
    + unfold loaded in Hl. destruct (load_reminder now m); congruence.
    + intros Hin'. apply list_elem_of_fmap in Hin' as [e [-> He]].
      apply foldl_zset_rem_elem in He as [_ He]. apply He.
      apply list_elem_of_filter. split; [|exact Hm]. rewrite Hl. eauto.
  - intros Hlim. pose proof (length_omap_le (loaded now) due) as Hle.
    assert (Hl : (limit <? 0) = false) by (apply Z.ltb_ge; lia).
    subst due. rewrite Hl in *.
    rewrite length_fmap, length_take in Hle. lia.
  - intros e He. now apply foldl_zset_rem_elem in He.
  - intros e He Hnot. apply foldl_zset_rem_elem. split; [exact He|].
    intros Hin. apply list_elem_of_filter in Hin as [_ Hin].
    destruct (Hdue _ Hin) as [sc [Hin' Hsc]]. destruct e as [m sc0].
    cbn [fst snd] in *.
    assert (sc0 = sc) by (eapply NoDup_fst_unique; eassumption). lia.
  - intros e He Hnone. apply foldl_zset_rem_elem. split; [exact He|].
    intros Hin. apply list_elem_of_filter in Hin as [[r Hr] _]. congruence.
  - now apply NoDup_fst_foldl_zset_rem.
  - subst other. now destruct k.
  - now destruct k.
  - now destruct k.
  - discriminate.
Qed.

(** X10. With a limit the server accepts (a signed 64-bit integer) that is
    negative or not below the size of the set, the dequeue hands out every
    due entry that parses: the object read from a member with a score
    between 0 and the clock reading is returned and the member leaves the
    set.  With a limit the server refuses, nothing is returned and the
    state stays as it is. *)
Theorem due_dequeue_complete now limit s k m sc r :
  let get_due :=
    match k with
    | SCHEDULED_REMINDERS => get_due_scheduled_reminders
    | RETRY_REMINDERS => get_due_retry_reminders
    end in
  reachable s = true ->
  limit < 0 \/ Z.of_nat (length (zget k s)) <= limit ->
  (m, sc) ∈ zget k s ->
  0 <= sc <= now ->
  load_reminder now m = Ok r ->
  (int64 limit = true ->
     exists rs, (get_due now limit s).1 = Ok rs /\ r ∈ rs /\
                m ∉ (zget k (get_due now limit s).2).*1) /\
  (int64 limit = false -> get_due now limit s = (Ok [], s)).
Proof.
  intros get_due Hup Hlim Hin Hsc Hload. subst get_due. split.
  - intros Hint. now apply (due_member_taken now limit s k m sc r).
  - intros Hint. rewrite get_due_unfold by assumption. now rewrite Hint.
Qed.

Lemma zmem_spec m z : zmem m z = true <-> m ∈ z.*1.
Proof.
  unfold zmem. rewrite existsb_exists, list_elem_of_fmap. split.
  - intros [e [Hin He]]. apply bool_decide_eq_true in He.
    exists e. split; [now symmetry|]. now apply list_elem_of_In.
  - intros [e [-> Hin]]. exists e. split; [now apply list_elem_of_In|].
    now apply bool_decide_eq_true.
Qed.

Lemma zset_add_fst m sc z :
  (zset_add m sc z).*1 = if zmem m z then z.*1 else (z.*1 ++ [m])%list.
Proof.
  induction z as [|e z IH]; [reflexivity|].
  cbn [zset_add]. unfold zmem in *. cbn [existsb].
  destruct (decide (e.1 = m)) as [He|He].
  - rewrite bool_decide_eq_true_2 by assumption. cbn. now rewrite He.
  - rewrite bool_decide_eq_false_2 by assumption. cbn [orb fmap list_fmap].
    rewrite IH. now destruct (existsb _ z).
Qed.

Lemma zset_add_NoDup m sc z : NoDup z.*1 -> NoDup (zset_add m sc z).*1.
Proof.
  intros Hnd. rewrite zset_add_fst. destruct (zmem m z) eqn:Hm; [exact Hnd|].
  apply NoDup_app. split; [exact Hnd|]. split; [|apply NoDup_singleton].
  intros x Hx Hx'. apply list_elem_of_singleton in Hx' as ->.
  apply zmem_spec in Hx. congruence.
Qed.

Lemma zset_add_elem_eq m sc z : (m, sc) ∈ zset_add m sc z.
Proof.
  induction z as [|e z IH]; cbn [zset_add]; [left|].
  destruct (decide (e.1 = m)); [left | now right].
Qed.

Lemma zset_add_elem_ne m sc m' sc' z :
  m' <> m -> (m', sc') ∈ zset_add m sc z <-> (m', sc') ∈ z.
Proof.
  intros Hne. induction z as [|e z IH]; cbn [zset_add].
  - rewrite list_elem_of_singleton. split; [congruence|].
    intros H. now apply elem_of_nil in H.
  - destruct (decide (e.1 = m)) as [He|He]; rewrite !elem_of_cons.
    + split; intros [H|H]; auto.
      * congruence.
      * subst e. cbn in He. congruence.
    + now rewrite IH.
Qed.

Lemma zadd_reachable k m sc s :
  reachable s = true ->
  zadd k m sc s = (Ok (if zmem m (zget k s) then 0 else 1),
                   zput k (zset_add m sc (zget k s)) s).
Proof. intros Hup. unfold zadd. now rewrite command_reachable. Qed.

(** X11. The retry set is keyed by the JSON text of the record.  On a
    reachable server whose retry set has unique members, when the due time
    [now + retry_delay] is a date, [enqueue_retry_reminder] leaves the set
    with unique members, holding the text of the record with the new due
    time and with no other; the set grows by one entry only if that very
    text was not in it; every other member keeps its score, so an older
    text of the same reminder (another [retry_count], say) stays queued
    next to the new one.  When the due time is no date the method raises
    the [OverflowError] and the server is not reached. *)
Theorem enqueue_retry_replaces now r retry_delay s :
  reachable s = true ->
  NoDup (retry s).*1 ->
  let s' := (enqueue_retry_reminder now r retry_delay s).2 in
  (forall t, datetime_add now retry_delay = Ok t ->
     t = now + retry_delay /\
     (enqueue_retry_reminder now r retry_delay s).1 = Ok tt /\
     NoDup (retry s').*1 /\
     (forall sc, (Full r, sc) ∈ retry s' <-> sc = t) /\
     (forall m sc, m <> Full r -> (m, sc) ∈ retry s' <-> (m, sc) ∈ retry s) /\
     (forall r0 sc, id r0 = id r -> r0 <> r -> (Full r0, sc) ∈ retry s ->
        (Full r0, sc) ∈ retry s' /\ (Full r, t) ∈ retry s') /\
     length (retry s')
     = (if bool_decide (Full r ∈ (retry s).*1) then length (retry s)
        else S (length (retry s))) /\
     scheduled s' = scheduled s /\ immediate s' = immediate s) /\
  (forall e, datetime_add now retry_delay = Raise e ->
     enqueue_retry_reminder now r retry_delay s = (Raise e, s)).
Proof.
  intros Hup Hnd s'. subst s'. split; [|intros e; apply enqueue_retry_overflow].
  intros t Ht.
  rewrite (enqueue_retry_reachable now r retry_delay t) by assumption.
  cbn [fst snd retry zput].
  pose proof (zset_add_NoDup (Full r) t (retry s) Hnd) as Hnd'.
  split; [now apply datetime_add_sum|].
  split; [reflexivity|]. split; [exact Hnd'|].
  split; [|split; [|split; [|split]]].
  - intros sc. split.
    + intros Hin. eapply NoDup_fst_unique; [exact Hnd' | exact Hin |].
      apply zset_add_elem_eq.
    + intros ->. apply zset_add_elem_eq.
  - intros m sc Hne. now apply zset_add_elem_ne.
  - intros r0 sc _ Hne Hin. split; [|apply zset_add_elem_eq].
    apply zset_add_elem_ne; [congruence | exact Hin].
  - rewrite <- (length_fmap fst (zset_add _ _ _)), zset_add_fst.
    destruct (zmem (Full r) (retry s)) eqn:Hm.
    + rewrite bool_decide_eq_true_2 by now apply zmem_spec.
      now rewrite length_fmap.
    + rewrite bool_decide_eq_false_2
        by (intros H; apply zmem_spec in H; congruence).
      rewrite length_app, length_fmap. cbn. lia.
  - auto.
Qed.

(** X12. A reminder enqueued with a positive delay goes to the scheduled
    set when the due time [now + delay] is a date: on a reachable server
    whose set has unique members, no dequeue before the due time takes it
    out, and a dequeue at or after the due time, with a limit the server
    accepts and that does not cut, returns the object read from its text
    (the dates as text, see [loads]) and removes it; when the due time is
    no date the method raises the [OverflowError] and the server is not
    reached.  Enqueued with a delay that is not positive, it goes to the
    head of the immediate list and the scheduled set is not touched. *)
Theorem scheduled_round_trip now delay r s :
  reachable s = true ->
  NoDup (scheduled s).*1 ->
  let s1 := (enqueue_scheduled_reminder now r delay s).2 in
  (0 < delay ->
     (forall t, datetime_add now delay = Ok t ->
        t = now + delay /\
        (enqueue_scheduled_reminder now r delay s).1 = Ok tt /\
        immediate s1 = immediate s /\
        (forall now' limit, now' < t ->
           (Full r, t)
           ∈ scheduled (get_due_scheduled_reminders now' limit s1).2) /\
        (forall now' limit, 0 <= t <= now' ->
           int64 limit = true ->
           limit < 0 \/ Z.of_nat (length (scheduled s1)) <= limit ->
           exists rs,
             (get_due_scheduled_reminders now' limit s1).1 = Ok rs /\
             loads now' r ∈ rs /\
             Full r
             ∉ (scheduled (get_due_scheduled_reminders now' limit s1).2).*1)) /\
     (forall e, datetime_add now delay = Raise e ->
        enqueue_scheduled_reminder now r delay s = (Raise e, s))) /\
  (delay <= 0 ->
     (enqueue_scheduled_reminder now r delay s).1 = Ok tt /\
     scheduled s1 = scheduled s /\ immediate s1 = Full r :: immediate s).
Proof.
  intros Hup Hnd s1. subst s1.
  unfold enqueue_scheduled_reminder, try_except, lpush.
  unfold mbind, M_bind, lift.
  destruct (0 <? delay) eqn:Hd.
  - apply Z.ltb_lt in Hd. split; [|lia]. intros _. split.
    + intros t Ht. rewrite Ht. rewrite zadd_reachable by assumption.
      unfold mret, M_ret. cbn [fst snd zget zput].
      set (s1 := mkState _ _ _ _ _ _ _).
      assert (Hup1 : reachable s1 = true) by exact Hup.
      assert (Hnd1 : NoDup (zget SCHEDULED_REMINDERS s1).*1)
        by (apply zset_add_NoDup; exact Hnd).
      assert (Hin1 : (Full r, t) ∈ zget SCHEDULED_REMINDERS s1)
        by apply zset_add_elem_eq.
      split; [now apply datetime_add_sum|].
      split; [reflexivity|]. split; [reflexivity|]. split.
      * intros now' limit Hlt.
        apply (due_member_kept now' limit s1 SCHEDULED_REMINDERS);
          [assumption.. | cbn [snd]; lia].
      * intros now' limit Hdue Hint Hlim.
        apply (due_member_taken now' limit s1 SCHEDULED_REMINDERS (Full r)
                 t (loads now' r)); [assumption.. | reflexivity].
    + intros e He. now rewrite He.
  - apply Z.ltb_ge in Hd. rewrite command_reachable by assumption.
    unfold mret, M_ret. cbn [fst snd].
    split; [lia|]. intros _. repeat split.
Qed.

End SortedSets.

Section SortedSetWitnesses.
Import Redis RedisService RedisExtra Samples.

Lemma sample_queue_NoDup k : NoDup (zget k sample_queue).*1.
Proof.
  destruct k; cbn; [constructor|].
  repeat (apply NoDup_cons; split;
          [rewrite ?elem_of_cons, elem_of_nil; intuition discriminate|]).
  constructor.
Qed.

Lemma due_dequeue_sound_witness :
  (exists rs s',
     get_due_retry_reminders 100 50 sample_queue = (Ok rs, s') /\
     (forall r, r ∈ rs ->
        exists m sc, (m, sc) ∈ zget RETRY_REMINDERS sample_queue /\
                     0 <= sc <= 100 /\
                     load_reminder 100 m = Ok r /\
                     m ∉ (zget RETRY_REMINDERS s').*1) /\
     (0 <= 50 -> Z.of_nat (length rs) <= 50) /\
     (forall e, e ∈ zget RETRY_REMINDERS s' ->
                e ∈ zget RETRY_REMINDERS sample_queue) /\
     (forall e, e ∈ zget RETRY_REMINDERS sample_queue ->
                ~ 0 <= e.2 <= 100 -> e ∈ zget RETRY_REMINDERS s') /\
     (forall e, e ∈ zget RETRY_REMINDERS sample_queue ->
                loaded 100 e.1 = None -> e ∈ zget RETRY_REMINDERS s') /\
     NoDup (zget RETRY_REMINDERS s').*1 /\
     zget SCHEDULED_REMINDERS s' = zget SCHEDULED_REMINDERS sample_queue /\
     immediate s' = immediate sample_queue /\
     strings s' = strings sample_queue /\
     (int64 50 = false -> rs = [] /\ s' = sample_queue)) /\
  (exists x,
     load_reminder 100 (Entry sample_entry) = Ok x /\
     (get_due_retry_reminders 100 50 sample_queue).1
     = Ok [x; loads 100 retrying_reminder] /\
     (get_due_retry_reminders 100 2 sample_queue).1 = Ok [x]) /\
  retry (get_due_retry_reminders 100 50 sample_queue).2
  = [(Text "oops", 20); (Full sent_reminder, 500)] /\
  (get_due_retry_reminders 100 1 sample_queue).1 = Ok [].
Proof.
  split.
  - apply (due_dequeue_sound 100 50 sample_queue RETRY_REMINDERS);
      [reflexivity | apply sample_queue_NoDup].
  - split; [eexists; repeat split|split; reflexivity].
Defined.

Lemma due_dequeue_complete_witness :
  (int64 50 = true ->
     exists rs,
       (get_due_retry_reminders 400 50 sample_queue).1 = Ok rs /\
       loads 400 retrying_reminder ∈ rs /\
       Full retrying_reminder
       ∉ (zget RETRY_REMINDERS
            (get_due_retry_reminders 400 50 sample_queue).2).*1) /\
  (int64 50 = false ->
     get_due_retry_reminders 400 50 sample_queue = (Ok [], sample_queue)).
Proof.
  apply (due_dequeue_complete 400 50 sample_queue RETRY_REMINDERS
           (Full retrying_reminder) 50 (loads 400 retrying_reminder)).
  - reflexivity.
  - right. vm_compute. discriminate.
  - vm_compute. left.
  - lia.
  - reflexivity.
Defined.

Lemma enqueue_retry_replaces_witness :
  let s' := (enqueue_retry_reminder 10 retrying_reminder 300 sample_queue).2 in
  ((forall t, datetime_add 10 300 = Ok t ->
      t = 10 + 300 /\
      (enqueue_retry_reminder 10 retrying_reminder 300 sample_queue).1 = Ok tt /\
      NoDup (retry s').*1 /\
      (forall sc, (Full retrying_reminder, sc) ∈ retry s' <-> sc = t) /\
      (forall m sc, m <> Full retrying_reminder ->
         (m, sc) ∈ retry s' <-> (m, sc) ∈ retry sample_queue) /\
      (forall r0 sc, id r0 = id retrying_reminder -> r0 <> retrying_reminder ->
         (Full r0, sc) ∈ retry sample_queue ->
         (Full r0, sc) ∈ retry s' /\ (Full retrying_reminder, t) ∈ retry s') /\
      length (retry s')
      = (if bool_decide (Full retrying_reminder ∈ (retry sample_queue).*1)
         then length (retry sample_queue)
         else S (length (retry sample_queue))) /\
      scheduled s' = scheduled sample_queue /\
      immediate s' = immediate sample_queue) /\
   (forall e, datetime_add 10 300 = Raise e ->
      enqueue_retry_reminder 10 retrying_reminder 300 sample_queue
      = (Raise e, sample_queue))) /\
  datetime_add 10 300 = Ok 310 /\
  (Full retrying_reminder, 50) ∈ retry sample_queue /\
  (Full sent_reminder, 500) ∈ retry sample_queue /\
  id sent_reminder = id retrying_reminder /\
  retry s'
  = [(Full retrying_reminder, 310);
     (Entry sample_entry, 30); (Text "oops", 20);
     (Full sent_reminder, 500)].
Proof.
  split.
  - apply (enqueue_retry_replaces 10 retrying_reminder 300 sample_queue);
      [reflexivity | apply (sample_queue_NoDup RETRY_REMINDERS)].
  - split; [reflexivity|]. split; [left|].
    split; [do 3 right; left|]. split; reflexivity.
Defined.

Lemma scheduled_round_trip_witness :
  let s1 := (enqueue_scheduled_reminder 10 sent_reminder 60 empty_state).2 in
  ((0 < 60 ->
      (forall t, datetime_add 10 60 = Ok t ->
         t = 10 + 60 /\
         (enqueue_scheduled_reminder 10 sent_reminder 60 empty_state).1 = Ok tt /\
         immediate s1 = immediate empty_state /\
         (forall now' limit, now' < t ->
            (Full sent_reminder, t)
            ∈ scheduled (get_due_scheduled_reminders now' limit s1).2) /\
         (forall now' limit, 0 <= t <= now' ->
            int64 limit = true ->
            limit < 0 \/ Z.of_nat (length (scheduled s1)) <= limit ->
            exists rs,
              (get_due_scheduled_reminders now' limit s1).1 = Ok rs /\
              loads now' sent_reminder ∈ rs /\
              Full sent_reminder
              ∉ (scheduled (get_due_scheduled_reminders now' limit s1).2).*1)) /\
      (forall e, datetime_add 10 60 = Raise e ->
         enqueue_scheduled_reminder 10 sent_reminder 60 empty_state
         = (Raise e, empty_state))) /\
   (60 <= 0 ->
      (enqueue_scheduled_reminder 10 sent_reminder 60 empty_state).1 = Ok tt /\
      scheduled s1 = scheduled empty_state /\
      immediate s1 = Full sent_reminder :: immediate empty_state)) /\
  datetime_add 10 60 = Ok 70 /\
  (get_due_scheduled_reminders 69 10 s1).1 = Ok [] /\
  (get_due_scheduled_reminders 70 10 s1).1 = Ok [loads 70 sent_reminder] /\
  scheduled (get_due_scheduled_reminders 70 10 s1).2 = [] /\
  (exists msg,
     enqueue_scheduled_reminder 10 sent_reminder (10 ^ 12) empty_state
     = (Raise (OverflowError msg), empty_state)).
Proof.
  split.
  - apply (scheduled_round_trip 10 60 sent_reminder empty_state);
      [reflexivity | constructor].
  - repeat (split; [reflexivity|]). eexists. vm_compute. reflexivity.
Defined.

End SortedSetWitnesses.

(** ** Updating, retrying and creating reminders *)

Section ServiceOperations.
Import Redis ReminderService.

Lemma schedule_reminder_entry r t w :
  redis_client w = true ->
  reachable (server w) = true ->
  scheduled_time r = Some t ->
  (Entry (entry_of r), t) ∈ scheduled (server (_schedule_reminder r w)).
Proof.
  intros Hc Hup Ht. unfold _schedule_reminder. rewrite Hc, Ht. cbn [negb].
  rewrite zadd_reachable by exact Hup. cbn. apply zset_add_elem_eq.
Qed.

(** X13. [update_reminder] refuses a SENT, DELIVERED or CANCELLED reminder
    with [ValueError] and answers [None] for an unknown identifier, in both
    cases without changing anything.  Otherwise, so also for a FAILED
    reminder, it stores and returns the reminder with the time of the
    update and each of the six fields of the request that is given: the
    scheduled time, the priority, the custom message, the retry limit and
    the retry interval are replaced, and the metadata given are merged over
    the old ones.  No other field changes: identifier, patient, type,
    channel, status, retry count, external identifier, error message and
    the times of creation, sending and delivery are kept. *)
Theorem update_reminder_frame now i u w :
  (_get_reminder_from_db i w = None -> update_reminder now i u w = (Ok None, w)) /\
  (forall r, _get_reminder_from_db i w = Some r ->
     status r ∈ [SENT; DELIVERED; CANCELLED] ->
     exists msg, update_reminder now i u w = (Raise (ValueError msg), w)) /\
  (forall r, _get_reminder_from_db i w = Some r ->
     status r ∉ [SENT; DELIVERED; CANCELLED] ->
     exists r',
       (update_reminder now i u w).1 = Ok (Some r') /\
       _get_reminder_from_db i (update_reminder now i u w).2 = Some r' /\
       id r' = id r /\ patient_id r' = patient_id r /\
       status r' = status r /\ retry_count r' = retry_count r /\
       twilio_sid r' = twilio_sid r /\ error_message r' = error_message r /\
       updated_at r' = Some now /\
       scheduled_time r'
       = from_option Some (scheduled_time r) (u_scheduled_time u) /\
       max_retries r' = default (max_retries r) (u_max_retries u) /\
       retry_interval r' = default (retry_interval r) (u_retry_interval u) /\
       priority r' = default (priority r) (u_priority u) /\
       custom_message r'
       = from_option Some (custom_message r) (u_custom_message u) /\
       metadata r'
       = from_option (fun m => m ∪ metadata r) (metadata r) (u_metadata u) /\
       (forall k v m, u_metadata u = Some m -> m !! k = Some v ->
          metadata r' !! k = Some v) /\
       (forall k m, u_metadata u = Some m -> m !! k = None ->
          metadata r' !! k = metadata r !! k) /\
       reminder_type r' = reminder_type r /\
       delivery_method r' = delivery_method r /\
       created_at r' = created_at r /\ sent_at r' = sent_at r /\
       delivered_at r' = delivered_at r).
Proof.
  unfold update_reminder. split; [|split].
  - now intros ->.
  - intros r -> Hin. rewrite bool_decide_eq_true_2 by assumption. eauto.
  - intros r Hfind Hnot. rewrite Hfind.
    rewrite bool_decide_eq_false_2 by assumption.
    eexists. split; [reflexivity|]. cbn [fst snd]. split.
    + assert (Hget : _get_reminder_from_db i
                (_update_reminder_in_db
                   (set_updated_at (Some now) (apply_update u r)) w)
              = Some (set_updated_at (Some now) (apply_update u r))).
      { apply (find_id_after_update i r); [exact Hfind|].
        unfold apply_update.
        destruct (u_scheduled_time u), (u_priority u), (u_custom_message u),
          (u_metadata u), (u_max_retries u), (u_retry_interval u); reflexivity. }
      destruct (u_scheduled_time u); [|exact Hget].
      unfold _get_reminder_from_db in *. now rewrite reschedule_reminder_table.
    + assert (Hover : forall (m o : gmap string string) k v,
                m !! k = Some v -> (m ∪ o) !! k = Some v)
        by (intros m o k v Hk; now apply lookup_union_Some_l).
      assert (Hkeep : forall (m o : gmap string string) k,
                m !! k = None -> (m ∪ o) !! k = o !! k)
        by (intros m o k Hk; now apply lookup_union_r).
      unfold apply_update.
      destruct (u_scheduled_time u), (u_priority u), (u_custom_message u),
        (u_metadata u), (u_max_retries u), (u_retry_interval u);
        cbn; repeat split; try reflexivity;
        try (intros k v m [= <-]; apply Hover);
        try (intros k m [= <-]; apply Hkeep);
        discriminate.
Qed.

Lemma retry_rescheduled now i r t w :
  _get_reminder_from_db i w = Some r ->
  let r' := set_updated_at (Some now)
              (set_scheduled_time (Some t) (set_status RETRY r)) in
  let w' := _schedule_reminder r' (_update_reminder_in_db r' w) in
  _get_reminder_from_db i w' = Some r' /\
  (redis_client w = true -> reachable (server w) = true ->
   (Entry (entry_of r'), t) ∈ scheduled (server w')).
Proof.
  intros Hfind r' w'. subst r' w'. split.
  - unfold _get_reminder_from_db. rewrite schedule_reminder_table.
    now apply (find_id_after_update i r).
  - intros Hc Hup.
    apply schedule_reminder_entry; [exact Hc | exact Hup | reflexivity].
Qed.

(** X14. [retry_failed_reminder] on an existing reminder.  The retry is
    allowed without [force] exactly when the reminder is FAILED and has a
    retry left, and with [force] always, from any status; when it is not
    allowed the method raises [ValueError] and changes nothing.  When it is
    allowed and the retry time [now + retry_interval] is a date, the method
    answers [True], the reminder is put in RETRY and scheduled at that time,
    its [retry_count] is left as it is, and with a client on a reachable
    server its entry is in the scheduled set with that due time.  When it
    is allowed and the retry time is no date, the method raises the
    [OverflowError] and stores nothing. *)
Theorem retry_failed_reminder_spec now i force w r :
  _get_reminder_from_db i w = Some r ->
  let allowed := status r = FAILED /\ retry_count r < max_retries r in
  let w' := (retry_failed_reminder now i force w).2 in
  (forall t, datetime_add now (retry_interval r) = Ok t ->
     ((retry_failed_reminder now i force w).1 = Ok true <->
      force = true \/ allowed) /\
     (force = true \/ allowed ->
      t = now + retry_interval r /\
      exists r',
        _get_reminder_from_db i w' = Some r' /\
        status r' = RETRY /\ retry_count r' = retry_count r /\
        max_retries r' = max_retries r /\
        scheduled_time r' = Some t /\
        (redis_client w = true -> reachable (server w) = true ->
         (Entry (entry_of r'), t) ∈ scheduled (server w')))) /\
  (forall e, datetime_add now (retry_interval r) = Raise e ->
     force = true \/ allowed ->
     retry_failed_reminder now i force w = (Raise e, w)) /\
  (~ (force = true \/ allowed) ->
   exists msg, retry_failed_reminder now i force w = (Raise (ValueError msg), w)).
Proof.
  intros Hfind allowed w'. subst allowed w'.
  assert (Hok : forall t, datetime_add now (retry_interval r) = Ok t ->
            t = now + retry_interval r /\
            exists r',
              _get_reminder_from_db i
                (_schedule_reminder
                   (set_updated_at (Some now)
                      (set_scheduled_time (Some t) (set_status RETRY r)))
                   (_update_reminder_in_db
                      (set_updated_at (Some now)
                         (set_scheduled_time (Some t) (set_status RETRY r)))
                      w)) = Some r' /\
              status r' = RETRY /\ retry_count r' = retry_count r /\
              max_retries r' = max_retries r /\
              scheduled_time r' = Some t /\
              (redis_client w = true -> reachable (server w) = true ->
               (Entry (entry_of r'), t)
               ∈ scheduled
                   (server
                      (_schedule_reminder
                         (set_updated_at (Some now)
                            (set_scheduled_time (Some t) (set_status RETRY r)))
                         (_update_reminder_in_db
                            (set_updated_at (Some now)
                               (set_scheduled_time (Some t)
                                  (set_status RETRY r)))
                            w))))).
  { intros t Ht. split; [now apply datetime_add_sum|].
    destruct (retry_rescheduled now i r t w Hfind) as [Hget Hq].
    eexists. split; [exact Hget|]. repeat (split; [reflexivity|]). exact Hq. }
  unfold retry_failed_reminder. rewrite Hfind.
  change (retry_interval (set_status RETRY r)) with (retry_interval r).
  destruct force; cbn [negb andb].
  - rewrite !andb_false_r. split; [|split].
    + intros t Ht. rewrite Ht. cbn [fst snd]. split; [split; auto|].
      intros _. now apply Hok.
    + intros e He _. now rewrite He.
    + intros H. exfalso. apply H. now left.
  - rewrite !andb_true_r.
    destruct (decide (status r = FAILED)) as [Hst|Hst].
    + rewrite bool_decide_eq_false_2 by (intros H; now apply H).
      destruct (max_retries r <=? retry_count r) eqn:Hrc.
      * apply Z.leb_le in Hrc. split; [|split].
        -- intros t _. split.
           ++ split; [discriminate|]. intros [?|[_ ?]]; [discriminate | lia].
           ++ intros [?|[_ ?]]; [discriminate | lia].
        -- intros e _ [?|[_ ?]]; [discriminate | lia].
        -- eauto.
      * apply Z.leb_gt in Hrc. split; [|split].
        -- intros t Ht. rewrite Ht. cbn [fst snd]. split; [split; auto|].
           intros _. now apply Hok.
        -- intros e He _. now rewrite He.
        -- intros H. exfalso. apply H. right. auto.
    + rewrite bool_decide_eq_true_2 by assumption. split; [|split].
      * intros t _. split.
        -- split; [discriminate|].
           intros [?|[? _]]; [discriminate | congruence].
        -- intros [?|[? _]]; [discriminate | congruence].
      * intros e _ [?|[? _]]; [discriminate | congruence].
      * eauto.
Qed.

Lemma find_app_singleton {A} (f : A -> bool) (l : list A) (x : A) :
  find f (l ++ [x])
  = match find f l with
    | Some y => Some y
    | None => if f x then Some x else None
    end.
Proof.
  induction l as [|y l IH]; cbn; [now destruct (f x)|].
  destruct (f y); [reflexivity | exact IH].
Qed.

Lemma find_none_iff {A} (f : A -> bool) (l : list A) :
  (forall x, x ∈ l -> f x = false) -> find f l = None.
Proof.
  induction l as [|y l IH]; intros H; cbn; [reflexivity|].
  rewrite (H y) by left. apply IH. intros x Hx. apply H. now right.
Qed.

(** X15. [create_reminder] raises [ValueError] and changes nothing when the
    patient is unknown.  For a known patient it returns a PENDING reminder
    with the identifier assigned, no retry counted and the limits of the
    request; the reminder is read back under that identifier when no record
    had it before, the records under other identifiers are read as before,
    and with a client on a reachable server the reminder's entry is in the
    scheduled set at its scheduled time. *)
Theorem create_reminder_round_trip env now fresh_id c w :
  (get_patient_by_id env (c_patient_id c) = None ->
   exists msg, create_reminder env now fresh_id c w = (Raise (ValueError msg), w)) /\
  (forall p, get_patient_by_id env (c_patient_id c) = Some p ->
   let w' := (create_reminder env now fresh_id c w).2 in
   exists r,
     (create_reminder env now fresh_id c w).1 = Ok r /\
     id r = Some fresh_id /\ status r = PENDING /\ retry_count r = 0 /\
     max_retries r = c_max_retries c /\
     retry_interval r = c_retry_interval c /\
     scheduled_time r = Some (c_scheduled_time c) /\
     ((forall x, x ∈ table w -> id x <> Some fresh_id) ->
      _get_reminder_from_db fresh_id w' = Some r) /\
     (forall j, j <> fresh_id ->
      _get_reminder_from_db j w' = _get_reminder_from_db j w) /\
     (redis_client w = true -> reachable (server w) = true ->
      (Entry (entry_of r), c_scheduled_time c) ∈ scheduled (server w')) /\
     (redis_client w = false -> server w' = server w)).
Proof.
  unfold create_reminder. split.
  - intros ->. eauto.
  - intros p Hp. cbv zeta. rewrite Hp. cbn [_save_reminder_to_db fst snd].
    eexists. split; [reflexivity|].
    split; [reflexivity|]. split; [reflexivity|]. split; [reflexivity|].
    split; [reflexivity|]. split; [reflexivity|]. split; [reflexivity|].
    split; [|split; [|split]].
    + intros Hfresh. unfold _get_reminder_from_db.
      rewrite schedule_reminder_table. cbn [table put_table].
      rewrite find_app_singleton, find_none_iff.
      * cbn [id set_id]. now rewrite bool_decide_eq_true_2.
      * intros x Hx. apply bool_decide_eq_false_2. now apply Hfresh.
    + intros j Hj. unfold _get_reminder_from_db.
      rewrite schedule_reminder_table. cbn [table put_table].
      rewrite find_app_singleton. destruct (find _ (table w)); [reflexivity|].
      cbn [id set_id]. rewrite bool_decide_eq_false_2; [reflexivity|].
      congruence.
    + intros Hc Hup.
      apply schedule_reminder_entry; [exact Hc | exact Hup | reflexivity].
    + intros Hc. unfold _schedule_reminder. cbn [redis_client put_table].
      now rewrite Hc.
Qed.

Lemma update_db_lookup_other r' w k x :
  table w !! k = Some x -> id x <> id r' ->
  table (_update_reminder_in_db r' w) !! k = Some x.
Proof.
  intros Hk Hne. unfold _update_reminder_in_db. cbn [table put_table].
  rewrite list_lookup_fmap, Hk. cbn. now rewrite decide_False.
Qed.

Lemma update_db_length r' w :
  length (table (_update_reminder_in_db r' w)) = length (table w).
Proof. unfold _update_reminder_in_db. cbn [table put_table]. apply length_fmap. Qed.

Lemma delivery_outcome_frame now st ec em r :
  let r' := delivery_outcome now st ec em r in
  id r' = id r /\ patient_id r' = patient_id r /\
  twilio_sid r' = twilio_sid r /\ max_retries r' = max_retries r /\
  retry_interval r' = retry_interval r /\ sent_at r' = sent_at r /\
  created_at r' = created_at r /\ custom_message r' = custom_message r.
Proof.
  unfold delivery_outcome.
  destruct (status_mapping !! lower st) as [ns|]; [|repeat split].
  destruct (decide (ns = status r)); [repeat split|].
  destruct ns; try (repeat split; fail).
  destruct (retry_count r <? max_retries r); [|repeat split].
  destruct (datetime_add now (retry_interval r)); repeat split.
Qed.

(** X16. The delivery-status callback touches one reminder only.  For an
    external identifier no reminder carries it answers false and changes
    nothing.  Otherwise the table keeps its length, every record whose
    identifier differs from that of the reminder found is left as it is,
    and the reminder found keeps its identifier, patient, external
    identifier, retry limit, retry interval, time of sending and message. *)
Theorem update_delivery_status_frame now sid st ec em w :
  (_get_reminder_by_twilio_sid sid w = None ->
   update_delivery_status now sid st ec em w = (Ok false, w)) /\
  (forall r, _get_reminder_by_twilio_sid sid w = Some r ->
   let w' := (update_delivery_status now sid st ec em w).2 in
   length (table w') = length (table w) /\
   (forall k x, table w !! k = Some x -> id x <> id r ->
                table w' !! k = Some x) /\
   exists r',
     _get_reminder_by_twilio_sid sid w' = Some r' /\
     id r' = id r /\ patient_id r' = patient_id r /\
     twilio_sid r' = twilio_sid r /\ max_retries r' = max_retries r /\
     retry_interval r' = retry_interval r /\ sent_at r' = sent_at r /\
     created_at r' = created_at r /\ custom_message r' = custom_message r).
Proof.
  split.
  - intros Hnone. unfold update_delivery_status. now rewrite Hnone.
  - intros r Hfind w'. subst w'. split; [|split].
    + unfold update_delivery_status. rewrite Hfind.
      destruct (decide _); [|reflexivity].
      destruct (decide _); [cbn [snd]; apply update_db_length|].
      destruct (decide _); [|cbn [snd]; apply update_db_length].
      destruct (_ <? _); [|cbn [snd]; apply update_db_length].
      unfold _schedule_retry.
      destruct (datetime_add _ _); cbn [snd]; [|reflexivity].
      rewrite update_db_length.
      rewrite schedule_reminder_table. apply update_db_length.
    + intros k x Hk Hne. unfold update_delivery_status. rewrite Hfind.
      destruct (decide _); [|exact Hk].
      destruct (decide _); [cbn [snd]; now apply update_db_lookup_other|].
      destruct (decide _); [|cbn [snd]; now apply update_db_lookup_other].
      destruct (_ <? _); [|cbn [snd]; now apply update_db_lookup_other].
      unfold _schedule_retry.
      destruct (datetime_add _ _); cbn [snd]; [|exact Hk].
      apply update_db_lookup_other; [|exact Hne].
      rewrite schedule_reminder_table.
      now apply update_db_lookup_other.
    + exists (delivery_outcome now st ec em r). split.
      * now apply update_delivery_status_found.
      * apply delivery_outcome_frame.
Qed.

Lemma send_sms_frame env r p :
  let r' := (_send_sms_reminder env r p).2 in
  entry_of r' = entry_of r /\ status r' = status r /\
  scheduled_time r' = scheduled_time r /\ retry_interval r' = retry_interval r /\
  sent_at r' = sent_at r.
Proof.
  unfold _send_sms_reminder.
  destruct (truthy (custom_message r)); cbn.
  - destruct (send_sms env (phone p) _); cbn; auto.
  - destruct (create_personalized_message env (reminder_type r) p "sms");
      cbn; auto.
    destruct (send_sms env (phone p) _); cbn; auto.
Qed.

Lemma send_voice_frame env r p :
  let r' := (_send_voice_reminder env r p).2 in
  entry_of r' = entry_of r /\ status r' = status r /\
  scheduled_time r' = scheduled_time r /\ retry_interval r' = retry_interval r /\
  sent_at r' = sent_at r.
Proof.
  unfold _send_voice_reminder.
  match goal with
  | |- context [match ?u with Ok _ => _ | Raise _ => _ end] => destruct u
  end; cbn; auto.
  destruct (make_voice_call env (phone p) _); cbn; auto.
Qed.

Lemma send_frame env r p :
  let r' := (send env r p).2 in
  entry_of r' = entry_of r /\ status r' = status r /\
  scheduled_time r' = scheduled_time r /\ retry_interval r' = retry_interval r /\
  sent_at r' = sent_at r.
Proof.
  unfold send. destruct (delivery_method r).
  - apply send_sms_frame.
  - apply send_voice_frame.
  - pose proof (send_sms_frame env r p) as H1. cbv zeta in H1.
    destruct (_send_sms_reminder env r p) as [b1 r1]. cbn [snd] in H1.
    pose proof (send_voice_frame env r1 p) as H2. cbv zeta in H2.
    destruct (_send_voice_reminder env r1 p) as [b2 r2]. cbn [snd] in *.
    destruct H1 as (? & ? & ? & ? & ?), H2 as (? & ? & ? & ? & ?).
    repeat split; congruence.
Qed.

(** [_process_reminder] for a known patient, by the outcome of the
    dispatch and of the retry time. *)
Lemma process_reminder_known env now r w p :
  get_patient_by_id env (patient_id r) = Some p ->
  let sent := send env (set_status PENDING r) p in
  let w0 := _update_reminder_in_db (set_status PENDING r) w in
  let failed :=
    set_status RETRY
      (set_retry_count (retry_count r + 1) (set_status FAILED sent.2)) in
  _process_reminder env now r w
  = if sent.1 then
      let r1 := set_updated_at (Some now)
                  (set_sent_at (Some now) (set_status SENT sent.2)) in
      (r1, _update_reminder_in_db r1 w0)
    else if retry_count r <? max_retries r then
      match datetime_add now (retry_interval r) with
      | Ok t =>
          let r1 := set_scheduled_time (Some t) failed in
          let r2 := set_updated_at (Some now) r1 in
          (r2, _update_reminder_in_db r2
                 (_schedule_reminder r1 (_update_reminder_in_db r1 w0)))
      | Raise e => process_failed now e failed w0
      end
    else
      let r1 := set_updated_at (Some now) (set_status FAILED sent.2) in
      (r1, _update_reminder_in_db r1 w0).
Proof.
  intros Hp sent w0 failed. subst sent w0 failed.
  unfold _process_reminder. rewrite Hp.
  destruct (send_counts env (set_status PENDING r) p) as [Hc Hm].
  pose proof (send_frame env (set_status PENDING r) p) as Hf. cbv zeta in Hf.
  destruct (send env (set_status PENDING r) p) as [ok r1].
  cbn [fst snd retry_count max_retries set_status] in *.
  destruct Hf as (_ & _ & _ & Hri & _). cbn [retry_interval set_status] in Hri.
  destruct ok; [reflexivity|].
  rewrite Hc, Hm. destruct (retry_count r <? max_retries r); [|reflexivity].
  unfold _schedule_retry.
  cbn [retry_count retry_interval set_retry_count set_status].
  rewrite Hc, Hri.
  now destruct (datetime_add now (retry_interval r)).
Qed.

(** X17. The outcomes of [_process_reminder].  For an unknown patient the
    reminder is left FAILED with the error text naming the patient, without
    a retry although retries may be left, and the queue is not touched.
    For a known patient the reminder is left SENT, with the time of
    sending, when the dispatch succeeded, and FAILED with the retry count
    as it was when it failed and no retry was left.  When it failed and a
    retry was left, one more retry is counted; the reminder is left in
    RETRY with the due time [now + retry_interval] when that time is a
    date, and FAILED with the text of the [OverflowError] and the queue
    untouched when it is not.  The retry count changes in no other case. *)
Theorem process_reminder_outcomes env now r w :
  let r' := (_process_reminder env now r w).1 in
  let w' := (_process_reminder env now r w).2 in
  updated_at r' = Some now /\ id r' = id r /\ max_retries r' = max_retries r /\
  match get_patient_by_id env (patient_id r) with
  | None =>
      status r' = FAILED /\ retry_count r' = retry_count r /\
      error_message r'
      = Some ("Patient " ++ pretty (patient_id r) ++ " introuvable") /\
      server w' = server w
  | Some p =>
      let ok := (send env (set_status PENDING r) p).1 in
      (ok = true ->
         status r' = SENT /\ sent_at r' = Some now /\
         retry_count r' = retry_count r /\ server w' = server w) /\
      (ok = false -> retry_count r < max_retries r ->
         (forall t, datetime_add now (retry_interval r) = Ok t ->
            t = now + retry_interval r /\
            status r' = RETRY /\ retry_count r' = retry_count r + 1 /\
            scheduled_time r' = Some t) /\
         (forall e, datetime_add now (retry_interval r) = Raise e ->
            status r' = FAILED /\ retry_count r' = retry_count r + 1 /\
            error_message r' = Some (exn_str e) /\
            scheduled_time r'
            = scheduled_time (send env (set_status PENDING r) p).2 /\
            server w' = server w)) /\
      (ok = false -> max_retries r <= retry_count r ->
         status r' = FAILED /\ retry_count r' = retry_count r /\
         server w' = server w)
  end.
Proof.
  intros r' w'. subst r' w'.
  destruct (get_patient_by_id env (patient_id r)) as [p|] eqn:Hp.
  2:{ unfold _process_reminder. rewrite Hp. cbn. repeat split. }
  rewrite (process_reminder_known env now r w p Hp). cbv zeta.
  destruct (send_counts env (set_status PENDING r) p) as [Hc Hm].
  pose proof (send_frame env (set_status PENDING r) p) as Hf. cbv zeta in Hf.
  destruct (send env (set_status PENDING r) p) as [ok r1].
  cbn [fst snd retry_count max_retries set_status] in *.
  destruct Hf as (He & _ & _ & Hri & _). cbn [retry_interval set_status] in Hri.
  assert (Hid : id r1 = id r)
    by (apply (f_equal Redis.e_id) in He; exact He).
  destruct ok.
  - cbn. repeat split; auto; discriminate.
  - destruct (retry_count r <? max_retries r) eqn:Hlt.
    + apply Z.ltb_lt in Hlt.
      destruct (datetime_add now (retry_interval r)) as [t|e] eqn:Hadd.
      * apply datetime_add_sum in Hadd. cbn.
        repeat split; auto; try discriminate; try lia; try congruence.
      * cbn. repeat split; auto; try discriminate; try lia; try congruence.
    + apply Z.ltb_ge in Hlt. cbn.
      repeat split; auto; try discriminate; lia.
Qed.

Lemma retry_failed_reminder_spec_witness :
  let r := Samples.failed_reminder in
  let w := Samples.service_with r in
  let allowed := status r = FAILED /\ retry_count r < max_retries r in
  let w' := (retry_failed_reminder 500 1 true w).2 in
  ((forall t, datetime_add 500 (retry_interval r) = Ok t ->
      ((retry_failed_reminder 500 1 true w).1 = Ok true <->
       true = true \/ allowed) /\
      (true = true \/ allowed ->
       t = 500 + retry_interval r /\
       exists r',
         _get_reminder_from_db 1 w' = Some r' /\
         status r' = RETRY /\ retry_count r' = retry_count r /\
         max_retries r' = max_retries r /\
         scheduled_time r' = Some t /\
         (redis_client w = true -> reachable (server w) = true ->
          (Entry (entry_of r'), t) ∈ scheduled (server w')))) /\
   (forall e, datetime_add 500 (retry_interval r) = Raise e ->
      true = true \/ allowed ->
      retry_failed_reminder 500 1 true w = (Raise e, w)) /\
   (~ (true = true \/ allowed) ->
    exists msg,
      retry_failed_reminder 500 1 true w = (Raise (ValueError msg), w))) /\
  datetime_add 500 (retry_interval r) = Ok 800 /\
  retry_count r = max_retries r /\
  (let big := set_retry_interval (10 ^ 12) r in
   retry_failed_reminder 500 1 true (Samples.service_with big)
   = (Raise (OverflowError "date value out of range"),
      Samples.service_with big)).
Proof.
  split.
  - apply (retry_failed_reminder_spec 500 1 true
             (Samples.service_with Samples.failed_reminder)
             Samples.failed_reminder).
    reflexivity.
  - repeat split.
Defined.

End ServiceOperations.

(** ** Cancelling and the queue *)

Section CancelQueue.
Import Redis RedisExtra ReminderService.

Lemma remove_first_spec i L s :
  reachable s = true ->
  (forall m, m ∈ L -> exists d, load_id m = Ok d) ->
  remove_first i L s
  = (Ok tt,
     match find (carries i) L with
     | Some m => zput SCHEDULED_REMINDERS (zset_rem m (scheduled s)) s
     | None => s
     end).
Proof.
  intros Hup. induction L as [|m L IH]; intros Hparse; [reflexivity|].
  cbn [remove_first find]. unfold carries at 1.
  destruct (Hparse m) as [d Hd]; [left|]. rewrite Hd.
  unfold mbind, M_bind, lift. cbn [fst snd].
  destruct (decide (d = i)) as [->|Hne].
  - rewrite bool_decide_eq_true_2 by reflexivity.
    rewrite zrem_reachable by assumption. reflexivity.
  - rewrite bool_decide_eq_false_2 by assumption.
    apply IH. intros m' Hm'. apply Hparse. now right.
Qed.

Lemma remove_from_queue_server i w :
  redis_client w = true ->
  reachable (server w) = true ->
  (forall e, e ∈ scheduled (server w) -> exists d, load_id e.1 = Ok d) ->
  server (_remove_from_queue i w)
  = match
      find (carries i)
        (zsorted (byte_order (server w)) (scheduled (server w))).*1
    with
    | Some m =>
        zput SCHEDULED_REMINDERS (zset_rem m (scheduled (server w))) (server w)
    | None => server w
    end.
Proof.
  intros Hc Hup Hparse. unfold _remove_from_queue. rewrite Hc. cbn [negb].
  unfold try_except, mbind, M_bind, zrange_all.
  rewrite command_reachable by assumption. cbn [fst snd zget].
  rewrite remove_first_spec; [reflexivity | assumption |].
  intros m Hm. apply list_elem_of_fmap in Hm as [e [-> He]].
  apply Hparse. now rewrite zsorted_perm in He.
Qed.

Lemma find_first {A} (f : A -> bool) (l : list A) (m : A) :
  find f l = Some m ->
  exists before after,
    l = (before ++ m :: after)%list /\
    (forall x, x ∈ before -> f x = false) /\ f m = true.
Proof.
  induction l as [|x l IH]; cbn [find]; [discriminate|].
  destruct (f x) eqn:Hx.
  - intros [= <-]. exists [], l. split; [reflexivity|]. split; [|exact Hx].
    intros y Hy. now apply elem_of_nil in Hy.
  - intros Hf. destruct (IH Hf) as (before & after & -> & Hb & Hm).
    exists (x :: before), after. split; [reflexivity|]. split; [|exact Hm].
    intros y Hy. apply elem_of_cons in Hy as [->|Hy]; auto.
Qed.

Lemma zset_rem_absent m z : m ∉ z.*1 -> zset_rem m z = z.
Proof.
  unfold zset_rem. induction z as [|e z IH]; intros Hm; [reflexivity|].
  cbn [fmap list_fmap] in Hm. apply not_elem_of_cons in Hm as [Hne Hm].
  rewrite filter_cons, decide_True by congruence. now rewrite IH.
Qed.

Lemma zset_rem_length m z :
  NoDup z.*1 -> m ∈ z.*1 -> length z = S (length (zset_rem m z)).
Proof.
  induction z as [|e z IH]; cbn [fmap list_fmap]; intros Hnd Hm.
  - now apply elem_of_nil in Hm.
  - apply NoDup_cons in Hnd as [Hnot Hnd]. unfold zset_rem in *.
    rewrite filter_cons. destruct (decide (e.1 = m)) as [He|He].
    + rewrite decide_False by (intros H; now apply H).
      pose proof (zset_rem_absent m z) as Hid. unfold zset_rem in Hid.
      rewrite Hid by congruence. reflexivity.
    + rewrite decide_True by exact He. cbn [length]. f_equal. apply IH.
      * exact Hnd.
      * apply elem_of_cons in Hm as [Hm|Hm]; [congruence | exact Hm].
Qed.

(** X18. Cancelling takes one entry of the reminder out of the queue.  For
    a reminder that can be cancelled, with a client on a reachable server
    whose scheduled members all parse, [cancel_reminder] adds nothing to
    the scheduled set and leaves the set as it is when no member carries
    the reminder's identifier.  When some member carries it, exactly the
    first such member in the order of the server (by score, then by the
    bytes of the member) is removed: no member before it carries the
    identifier, it is no longer in the set, and every other entry, a later
    one carrying the identifier included, stays, so that a set with unique
    members loses exactly one entry.  The retry set and the immediate list
    are not touched. *)
Theorem cancel_reminder_dequeues now i w r :
  _get_reminder_from_db i w = Some r ->
  status r ∉ [SENT; DELIVERED] ->
  redis_client w = true ->
  reachable (server w) = true ->
  (forall e, e ∈ scheduled (server w) -> exists d, load_id e.1 = Ok d) ->
  let z := scheduled (server w) in
  let z' := scheduled (server (cancel_reminder now i w).2) in
  (forall e, e ∈ z' -> e ∈ z) /\
  ((forall e, e ∈ z -> carries (Some i) e.1 = false) -> z' = z) /\
  ((exists e, e ∈ z /\ carries (Some i) e.1 = true) ->
   exists m before after,
     (zsorted (byte_order (server w)) z).*1 = (before ++ m :: after)%list /\
     (forall m', m' ∈ before -> carries (Some i) m' = false) /\
     carries (Some i) m = true /\
     m ∈ z.*1 /\ (m ∉ z'.*1) /\
     (forall e, e ∈ z -> e.1 <> m -> e ∈ z') /\
     (NoDup z.*1 -> length z = S (length z'))) /\
  retry (server (cancel_reminder now i w).2) = retry (server w) /\
  immediate (server (cancel_reminder now i w).2) = immediate (server w).
Proof.
  intros Hfind Hst Hc Hup Hparse z z'. subst z z'.
  unfold cancel_reminder. rewrite Hfind.
  rewrite bool_decide_eq_false_2 by assumption. cbn [snd].
  rewrite remove_from_queue_server by assumption.
  cbn [server _update_reminder_in_db put_table].
  set (z := scheduled (server w)).
  destruct (find (carries (Some i)) (zsorted (byte_order (server w)) z).*1)
    as [m|] eqn:Hf.
  - destruct (find_first _ _ _ Hf) as (before & after & Hsplit & Hb & Hcm).
    assert (Hm : m ∈ z.*1).
    { rewrite <- (zsorted_perm (byte_order (server w)) z), Hsplit.
      apply elem_of_app. right. left. }
    cbn [scheduled zput retry immediate].
    split; [|split; [|split; [|split]]].
    + intros e He. now apply zset_rem_elem in He.
    + intros Hall. apply list_elem_of_fmap in Hm as [e [-> He]].
      rewrite Hall in Hcm by exact He. discriminate.
    + intros _. exists m, before, after.
      split; [exact Hsplit|]. split; [exact Hb|]. split; [exact Hcm|].
      split; [exact Hm|]. split; [|split].
      * intros Hin. apply list_elem_of_fmap in Hin as [e [-> He]].
        apply zset_rem_elem in He as [_ He]. now apply He.
      * intros e He Hne. apply zset_rem_elem. auto.
      * intros Hnd. now apply zset_rem_length.
    + now destruct (server w).
    + now destruct (server w).
  - pose proof (find_none _ _ Hf) as Hnone.
    assert (Hall : forall e, e ∈ z -> carries (Some i) e.1 = false).
    { intros e He. apply Hnone. apply list_elem_of_In, list_elem_of_fmap.
      exists e. split; [reflexivity|]. now rewrite zsorted_perm. }
    split; [|split; [|split; [|split]]]; auto.
    intros [e [He Hce]]. rewrite Hall in Hce by assumption. discriminate.
Qed.

End CancelQueue.

(** ** The worker of the reminder service *)

Section WorkerProperties.
Import Redis RedisExtra ReminderService Worker.

Lemma process_reminder_server env now r w :
  redis_client w = true ->
  reachable (server w) = true ->
  server (_process_reminder env now r w).2 = server w \/
  exists t,
    server (_process_reminder env now r w).2
    = zput SCHEDULED_REMINDERS
        (zset_add (Entry (entry_of r)) t (scheduled (server w))) (server w).
Proof.
  intros Hc Hup.
  destruct (get_patient_by_id env (patient_id r)) as [p|] eqn:Hp.
  2:{ left. unfold _process_reminder. now rewrite Hp. }
  rewrite (process_reminder_known env now r w p Hp). cbv zeta.
  pose proof (send_frame env (set_status PENDING r) p) as Hf. cbv zeta in Hf.
  destruct (send env (set_status PENDING r) p) as [ok r1]. cbn [fst snd] in *.
  destruct Hf as (He & _).
  destruct ok; [now left|].
  destruct (retry_count r <? max_retries r); [|now left].
  destruct (datetime_add now (retry_interval r)) as [t|e]; [|now left].
  right. exists t. unfold _schedule_reminder. cbn [fst snd].
  cbn [redis_client _update_reminder_in_db put_table scheduled_time
       set_scheduled_time].
  rewrite Hc. cbn [negb server put_server put_table].
  rewrite zadd_reachable by exact Hup.
  cbn [snd zget server _update_reminder_in_db put_table put_server].
  assert (He2 : forall a b c,
    entry_of (set_scheduled_time a
                (set_status b (set_retry_count c (set_status FAILED r1))))
    = entry_of r) by (intros; exact He).
  now rewrite He2.
Qed.

Lemma process_reminder_stored env now r r0 i w :
  _get_reminder_from_db i w = Some r0 ->
  id r = id r0 ->
  _get_reminder_from_db i (_process_reminder env now r w).2
  = Some (_process_reminder env now r w).1.
Proof.
  intros Hfind Hid.
  destruct (get_patient_by_id env (patient_id r)) as [p|] eqn:Hp.
  2:{ unfold _process_reminder. rewrite Hp. cbn [fst snd process_failed].
      now apply (find_id_after_update i r0). }
  rewrite (process_reminder_known env now r w p Hp). cbv zeta.
  assert (H1 : _get_reminder_from_db i
                 (_update_reminder_in_db (set_status PENDING r) w)
               = Some (set_status PENDING r))
    by now apply (find_id_after_update i r0).
  pose proof (send_frame env (set_status PENDING r) p) as Hf. cbv zeta in Hf.
  destruct (send env (set_status PENDING r) p) as [ok r1]. cbn [fst snd] in *.
  destruct Hf as (He & _).
  assert (Hid1 : id r1 = id (set_status PENDING r))
    by (apply (f_equal e_id) in He; exact He).
  destruct ok.
  - cbn [fst snd]. apply (find_id_after_update i (set_status PENDING r));
      [exact H1 | exact Hid1].
  - destruct (retry_count r <? max_retries r).
    + destruct (datetime_add now (retry_interval r)) as [t|e].
      * cbn [fst snd].
        eapply find_id_after_update.
        { unfold _get_reminder_from_db. rewrite schedule_reminder_table.
          apply (find_id_after_update i (set_status PENDING r));
            [exact H1 | exact Hid1]. }
        reflexivity.
      * cbn [fst snd process_failed].
        apply (find_id_after_update i (set_status PENDING r));
          [exact H1 | exact Hid1].
    + cbn [fst snd]. apply (find_id_after_update i (set_status PENDING r));
        [exact H1 | exact Hid1].
Qed.

(** X19. The worker consumes the entry of a due reminder whatever it does
    with the reminder.  With a client on a reachable server whose scheduled
    set holds the entry of one stored reminder, due, a worker cycle leaves
    the set empty.  A reminder that is not SCHEDULED or RETRY (a PENDING one,
    as [create_reminder] stores it, included) is not processed and its
    record is unchanged.  A SCHEDULED or RETRY reminder is processed and
    stored as [_process_reminder] leaves it; when that is in RETRY, the
    retry's entry, the same member with a new score, has been removed with
    the one consumed. *)
Theorem worker_consumes_entry
    (due_from_db : Z -> service -> list ReminderData) env now w r i sc :
  redis_client w = true ->
  reachable (server w) = true ->
  scheduled (server w) = [(Entry (entry_of r), sc)] ->
  0 <= sc <= now ->
  id r = Some i ->
  _get_reminder_from_db i w = Some r ->
  let w' := _process_due_reminders due_from_db env now w in
  scheduled (server w') = [] /\
  (status r ∉ [SCHEDULED; RETRY] -> table w' = table w) /\
  (status r ∈ [SCHEDULED; RETRY] ->
   table w' = table (_process_reminder env now r w).2 /\
   _get_reminder_from_db i w' = Some (_process_reminder env now r w).1).
Proof.
  intros Hc Hup Hq Hsc Hid Hfind w'. subst w'.
  unfold _process_due_reminders. rewrite Hc. cbn [negb].
  unfold zrangebyscore_withscores. rewrite command_reachable by assumption.
  cbn [fst snd zget]. rewrite Hq. unfold zsorted.
  cbn [foldl insert_by_score]. rewrite filter_cons, filter_nil.
  rewrite decide_True by exact Hsc.
  cbn [process_due load_id e_id entry_of]. rewrite Hid.
  cbn [reminder_of_member_id]. rewrite Hfind.
  destruct (bool_decide (status r ∈ [SCHEDULED; RETRY])) eqn:Hst.
  - apply bool_decide_eq_true in Hst.
    pose proof (process_reminder_stored env now r r i w Hfind eq_refl) as Hstored.
    destruct (process_reminder_server env now r w Hc Hup) as [Hs|[t Hs]].
    + rewrite zrem_reachable by now rewrite Hs.
      cbn [fst snd]. rewrite Hs. cbn [zget]. rewrite Hq.
      unfold zset_rem. rewrite filter_cons, filter_nil.
      rewrite decide_False by (intros H; now apply H).
      cbn [server put_server scheduled zput table].
      split; [reflexivity|]. split; [intros H; now destruct H|].
      intros _. split; [reflexivity|]. exact Hstored.
    + rewrite zrem_reachable by (rewrite Hs; now rewrite reachable_zput).
      cbn [fst snd]. rewrite Hs. rewrite zget_zput, zput_zput, Hq.
      cbn [zset_add fst]. rewrite decide_True by reflexivity.
      unfold zset_rem. rewrite filter_cons, filter_nil.
      rewrite decide_False by (intros H; now apply H).
      cbn [server put_server scheduled zput table].
      split; [reflexivity|]. split; [intros H; now destruct H|].
      intros _. split; [reflexivity|]. exact Hstored.
  - apply bool_decide_eq_false in Hst.
    rewrite zrem_reachable by assumption. cbn [fst snd zget]. rewrite Hq.
    unfold zset_rem. rewrite filter_cons, filter_nil.
    rewrite decide_False by (intros H; now apply H).
    cbn [server put_server scheduled zput table].
    split; [reflexivity|]. split; [reflexivity|]. intros H. now destruct Hst.
Qed.

(** X20. [send_immediate] creates a reminder due five seconds later, of
    high priority, and processes it at once.  For an unknown patient it
    raises [ValueError] and changes nothing.  For a known patient the
    reminder is created PENDING and the method returns it as the dispatch
    left it: SENT, with the time of sending and no retry counted, exactly
    when the dispatch succeeded; and when the dispatch failed, with one
    retry of three counted, in RETRY and due 300 seconds later when that
    time is a date, and FAILED with the text of the [OverflowError] when
    it is not.  When the time five seconds later is no date the method
    raises the [OverflowError] and changes nothing. *)
Theorem send_immediate_outcomes env now fresh_id patient_id reminder_type
    delivery_method custom_message w :
  let result :=
    (send_immediate env now fresh_id patient_id reminder_type delivery_method
       custom_message w) in
  (forall e, datetime_add now 5 = Raise e -> result = (Raise e, w)) /\
  (forall t, datetime_add now 5 = Ok t ->
   let reminder_data :=
     mkCreate patient_id reminder_type delivery_method t HIGH custom_message
       (Some ∅) 3 300 in
   (get_patient_by_id env patient_id = None ->
    exists msg, result = (Raise (ValueError msg), w)) /\
   (forall p, get_patient_by_id env patient_id = Some p ->
    exists r0 w0 r',
      create_reminder env now fresh_id reminder_data w = (Ok r0, w0) /\
      status r0 = PENDING /\ scheduled_time r0 = Some (now + 5) /\
      result = (Ok r', (_process_reminder env now r0 w0).2) /\
      id r' = Some fresh_id /\ max_retries r' = 3 /\ priority r' = HIGH /\
      let ok := (send env (set_status PENDING r0) p).1 in
      (ok = true ->
         status r' = SENT /\ sent_at r' = Some now /\ retry_count r' = 0) /\
      (ok = false ->
         retry_count r' = 1 /\
         (forall t', datetime_add now 300 = Ok t' ->
            status r' = RETRY /\ scheduled_time r' = Some (now + 300)) /\
         (forall e, datetime_add now 300 = Raise e ->
            status r' = FAILED /\ error_message r' = Some (exn_str e))))).
Proof.
  intros result. subst result. unfold send_immediate. split.
  { intros e ->. reflexivity. }
  intros t Ht. rewrite Ht. apply datetime_add_sum in Ht. subst t.
  cbv zeta. unfold create_reminder. cbn [c_patient_id]. split.
  - intros ->. eauto.
  - intros p Hp. rewrite Hp. cbn [_save_reminder_to_db fst snd].
    cbn [c_reminder_type c_delivery_method c_scheduled_time c_priority
         c_custom_message c_metadata c_max_retries c_retry_interval].
    match goal with
    | |- context [_process_reminder env now ?r ?w1] =>
        set (w0 := w1); set (r0 := r)
    end.
    exists r0, w0.
    assert (Hp0 : get_patient_by_id env (Models.patient_id r0) = Some p)
      by exact Hp.
    pose proof (process_reminder_known env now r0 w0 p Hp0) as Hk.
    cbv zeta in Hk.
    destruct (send_counts env (set_status PENDING r0) p) as [Hc Hm].
    pose proof (send_frame env (set_status PENDING r0) p) as Hf.
    cbv zeta in Hf.
    destruct (send env (set_status PENDING r0) p) as [ok r1].
    cbn [fst snd] in *. destruct Hf as (He & _ & _ & Hri & _).
    assert (Hid : id r1 = Some fresh_id)
      by (apply (f_equal Redis.e_id) in He; exact He).
    assert (Hpr : priority r1 = HIGH)
      by (apply (f_equal Redis.e_priority) in He; exact He).
    cbn in Hc, Hm, Hri.
    change (retry_count r0) with 0 in Hk.
    change (max_retries r0) with 3 in Hk.
    change (retry_interval r0) with 300 in Hk.
    change (0 <? 3) with true in Hk.
    destruct ok.
    + rewrite Hk. eexists. split; [reflexivity|].
      split; [reflexivity|]. split; [reflexivity|]. split; [reflexivity|].
      cbn. rewrite Hc, Hm. repeat split; auto; discriminate.
    + rewrite Hk. cbv iota.
      destruct (datetime_add now 300) as [t'|e] eqn:Hadd;
        cbn [process_failed].
      * apply datetime_add_sum in Hadd. eexists. split; [reflexivity|].
        split; [reflexivity|]. split; [reflexivity|]. split; [reflexivity|].
        cbn. rewrite Hm.
        repeat split; auto; try discriminate; congruence.
      * eexists. split; [reflexivity|].
        split; [reflexivity|]. split; [reflexivity|]. split; [reflexivity|].
        cbn. rewrite Hm.
        repeat split; auto; try discriminate; congruence.
Qed.

End WorkerProperties.

(** ** More on the scheduler's failure handling *)

Section FailureBookkeeping.
Import Redis ReminderScheduler.

(** X21. Whatever the reminder store and the queue server do,
    [_handle_failed_reminder] counts the failure and overwrites the error
    message with the one it is given, also with none, and changes neither
    the identifier nor the retry limit.  When no retry is left after the
    count the reminder is FAILED and the retry set is not touched; when one
    is left and the delay can be computed the reminder is in RETRY; when the
    delay cannot be computed the status and the scheduler's state stay as
    they were. *)
Theorem handle_failed_bookkeeping
    (update : ReminderData -> result unit) now r msg sch :
  let r' := (_handle_failed_reminder update now r msg sch).1 in
  let sch' := (_handle_failed_reminder update now r msg sch).2 in
  retry_count r' = retry_count r + 1 /\ error_message r' = msg /\
  max_retries r' = max_retries r /\ id r' = id r /\
  config sch' = config sch /\
  (max_retries r <= retry_count r + 1 ->
   status r' = FAILED /\
   retry (redis_service sch') = retry (redis_service sch)) /\
  (retry_count r + 1 < max_retries r ->
   forall d, _calculate_retry_delay (config sch) (retry_count r + 1) = Ok d ->
   status r' = RETRY) /\
  (retry_count r + 1 < max_retries r ->
   forall e, _calculate_retry_delay (config sch) (retry_count r + 1) = Raise e ->
   status r' = status r /\ sch' = sch).
Proof.
  intros r' sch'. subst r' sch'. unfold _handle_failed_reminder.
  cbn [retry_count max_retries set_error_message set_retry_count].
  destruct (retry_count r + 1 <? max_retries r) eqn:Hlt.
  - apply Z.ltb_lt in Hlt.
    destruct (_calculate_retry_delay (config sch) (retry_count r + 1))
      as [d|e] eqn:Hd.
    + destruct (update _) as [[]|e]; cbn [fst snd].
      * destruct (RedisService.enqueue_retry_reminder _ _ _ _) as [[[]|e] s];
          cbn [fst snd]; repeat split; try reflexivity; try lia;
          intros; congruence.
      * repeat split; try reflexivity; try lia; intros; congruence.
    + cbn [fst snd]. repeat split; try reflexivity; try lia;
        intros; congruence.
  - apply Z.ltb_ge in Hlt.
    destruct (update _) as [[]|e]; cbn [fst snd].
    + repeat split; try reflexivity; try lia.
      match goal with
      | |- context [RedisService.increment_counter ?n ?v ?s] =>
          destruct (increment_counter_frame n v s) as (_ & _ & Hq & _)
      end.
      exact Hq.
    + repeat split; try reflexivity; lia.
Qed.

(** X22. When the queue server is unreachable, a failure with a retry left
    marks the reminder RETRY and hands it to the store, but the retry is not
    enqueued: the scheduler's state, its retry set and its counters, is as
    before. *)
Theorem handle_failed_unreachable
    (update : ReminderData -> result unit) now r msg sch d :
  reachable (redis_service sch) = false ->
  retry_count r + 1 < max_retries r ->
  _calculate_retry_delay (config sch) (retry_count r + 1) = Ok d ->
  update (failed_once msg RETRY r) = Ok tt ->
  _handle_failed_reminder update now r msg sch = (failed_once msg RETRY r, sch).
Proof.
  intros Hdown Hlt Hd Hok. unfold _handle_failed_reminder.
  cbn [retry_count max_retries set_error_message set_retry_count].
  rewrite (proj2 (Z.ltb_lt _ _)) by assumption. rewrite Hd.
  fold (failed_once msg RETRY r). rewrite Hok.
  unfold RedisService.enqueue_retry_reminder, try_except, zadd.
  unfold mbind, M_bind, lift.
  destruct (datetime_add now d); [|cbn; now destruct sch].
  rewrite command_unreachable by assumption. cbn. now destruct sch.
Qed.

Lemma handle_failed_unreachable_witness :
  let sch :=
    put_redis (set_reachable false empty_state) Samples.sample_scheduler in
  _handle_failed_reminder (fun _ => Ok tt) 100
    Samples.four_retries_reminder None sch
  = (failed_once None RETRY Samples.four_retries_reminder, sch).
Proof.
  apply (handle_failed_unreachable (fun _ => Ok tt) 100
           Samples.four_retries_reminder None
           (put_redis (set_reachable false empty_state) Samples.sample_scheduler)
           300); reflexivity.
Defined.

(** X23. Edges of the retry delay.  With an empty ladder every computation
    raises [IndexError].  Attempt number 0 wraps around to the last entry of
    the ladder.  Beyond the ladder the delay never exceeds 3600 seconds, and
    with a last entry that is not negative it does not decrease as the
    attempt number grows. *)
Theorem retry_delay_edges (config : SchedulerConfig) :
  let len := Z.of_nat (length (retry_delays config)) in
  (retry_delays config = [] ->
   forall n, _calculate_retry_delay config n = Raise IndexError) /\
  (forall b, last (retry_delays config) = Some b ->
   _calculate_retry_delay config 0 = Ok b) /\
  (forall n d, len < n -> _calculate_retry_delay config n = Ok d -> d <= 3600) /\
  (forall b n m, last (retry_delays config) = Some b -> 0 <= b ->
   len < n -> n <= m ->
   exists dn dm,
     _calculate_retry_delay config n = Ok dn /\
     _calculate_retry_delay config m = Ok dm /\ dn <= dm).
Proof.
  intros len. subst len. unfold _calculate_retry_delay.
  split; [|split; [|split]].
  - intros -> n.
    assert (Hidx : forall i, py_index (@nil Z) i = Raise IndexError).
    { intros i. unfold py_index. cbn [length Z.of_nat].
      rewrite decide_False by lia. now rewrite decide_False by lia. }
    rewrite !Hidx. now destruct (n <=? _).
  - intros b Hlast.
    assert (Hne : retry_delays config <> [])
      by (intros E; rewrite E in Hlast; discriminate).
    destruct (py_index_last (retry_delays config) Hne) as [b' [Hl Hb]].
    rewrite (proj2 (Z.leb_le _ _)) by lia.
    change (0 - 1) with (-1). rewrite Hb. congruence.
  - intros n d Hn. rewrite (proj2 (Z.leb_gt _ _)) by assumption.
    destruct (py_index (retry_delays config) (-1)); cbn; [|discriminate].
    intros [= <-]. apply Z.le_min_r.
  - intros b n m Hlast Hb Hn Hm.
    assert (Hne : retry_delays config <> [])
      by (intros E; rewrite E in Hlast; discriminate).
    destruct (py_index_last (retry_delays config) Hne) as [b' [Hl Hb']].
    assert (b' = b) by congruence. subst b'.
    rewrite !(proj2 (Z.leb_gt _ _)) by lia. rewrite Hb'. cbn.
    eexists _, _. split; [reflexivity|]. split; [reflexivity|].
    apply Z.min_le_compat_r. apply Z.mul_le_mono_nonneg_l; [exact Hb|].
    apply Z.pow_le_mono_r; lia.
Qed.

End FailureBookkeeping.

Section ServiceWitnesses.
Import Redis RedisExtra ReminderService Worker Samples.

(** A queue that holds the reminder twice, under two texts, and another
    reminder that is due before both. *)
Lemma cancel_reminder_dequeues_witness :
  let w := mkService [retrying_reminder] true sample_schedule in
  let z := scheduled (server w) in
  let z' := scheduled (server (cancel_reminder 50 1 w).2) in
  ((forall e, e ∈ z' -> e ∈ z) /\
   ((forall e, e ∈ z -> carries (Some 1) e.1 = false) -> z' = z) /\
   ((exists e, e ∈ z /\ carries (Some 1) e.1 = true) ->
    exists m before after,
      (zsorted (byte_order (server w)) z).*1 = (before ++ m :: after)%list /\
      (forall m', m' ∈ before -> carries (Some 1) m' = false) /\
      carries (Some 1) m = true /\
      m ∈ z.*1 /\ (m ∉ z'.*1) /\
      (forall e, e ∈ z -> e.1 <> m -> e ∈ z') /\
      (NoDup z.*1 -> length z = S (length z'))) /\
   retry (server (cancel_reminder 50 1 w).2) = retry (server w) /\
   immediate (server (cancel_reminder 50 1 w).2) = immediate (server w)) /\
  z = [(Entry (entry_of retrying_reminder), 200); (Full retrying_reminder, 100);
       (Entry sample_entry, 50)] /\
  carries (Some 1) (Entry (entry_of retrying_reminder)) = true /\
  carries (Some 1) (Full retrying_reminder) = true /\
  z' = [(Entry (entry_of retrying_reminder), 200); (Entry sample_entry, 50)].
Proof.
  split.
  - apply (cancel_reminder_dequeues 50 1
             (mkService [retrying_reminder] true sample_schedule)
             retrying_reminder).
    + reflexivity.
    + rewrite list_elem_of_In. cbn. intuition discriminate.
    + reflexivity.
    + reflexivity.
    + intros e He. cbn in He.
      rewrite !elem_of_cons, elem_of_nil in He.
      destruct He as [->|[->|[->|[]]]]; cbn; eauto.
  - repeat split.
Defined.

(** The queue as [_schedule_reminder] leaves it for one reminder. *)
Lemma worker_consumes_entry_witness :
  let w :=
    mkService [retrying_reminder] true
      (zput SCHEDULED_REMINDERS [(Entry (entry_of retrying_reminder), 100)]
         empty_state) in
  let w' := _process_due_reminders (fun _ _ => []) voice_refused 200 w in
  scheduled (server w') = [] /\
  (status retrying_reminder ∉ [SCHEDULED; RETRY] -> table w' = table w) /\
  (status retrying_reminder ∈ [SCHEDULED; RETRY] ->
   table w' = table (_process_reminder voice_refused 200 retrying_reminder w).2 /\
   _get_reminder_from_db 1 w'
   = Some (_process_reminder voice_refused 200 retrying_reminder w).1).
Proof.
  apply (worker_consumes_entry (fun _ _ => []) voice_refused 200
           (mkService [retrying_reminder] true
              (zput SCHEDULED_REMINDERS
                 [(Entry (entry_of retrying_reminder), 100)] empty_state))
           retrying_reminder 1 100); try reflexivity. lia.
Defined.

End ServiceWitnesses.

(** ** Dispatch over both channels *)

Section BothChannelsClaim.
Import Redis ReminderService Samples.

Lemma schedule_reminder_no_queue r w :
  redis_client w = false \/ reachable (server w) = false ->
  server (_schedule_reminder r w) = server w.
Proof.
  unfold _schedule_reminder. intros [Hc|Hdown].
  - now rewrite Hc.
  - destruct (redis_client w); cbn [negb]; [|reflexivity].
    destruct (scheduled_time r); [|reflexivity].
    unfold zadd. now rewrite command_unreachable by assumption.
Qed.

(** C7, amended. With [delivery_method = both] the reminder is marked SENT
    exactly when the SMS and the voice call both succeed.  When the SMS
    succeeds and the voice call fails, whatever the error, the dispatch has
    failed.  With no retry left the reminder is left FAILED, with the error
    text of the voice attempt, and the queue is not touched.  With a retry
    left, [retry_count] is incremented; when the retry time
    [now + retry_interval] is a date, the reminder is put in RETRY, due at
    that time, with the error text of the voice attempt, and its entry is
    put in the scheduled set with that due time if the service has a client
    and the server is reachable, the queue being left as it is otherwise;
    when the retry time is no date, the reminder is left FAILED with the
    text of the [OverflowError] and the queue is not touched. *)
Theorem both_channels_dispatch env now r w patient :
  delivery_method r = BOTH ->
  get_patient_by_id env (patient_id r) = Some patient ->
  let sms := _send_sms_reminder env (set_status PENDING r) patient in
  let voice := _send_voice_reminder env sms.2 patient in
  let r' := (_process_reminder env now r w).1 in
  let w' := (_process_reminder env now r w).2 in
  (send env (set_status PENDING r) patient).1 = sms.1 && voice.1 /\
  (status r' = SENT <-> sms.1 = true /\ voice.1 = true) /\
  (sms.1 = true -> voice.1 = false ->
   exists msg,
     voice.2 = set_error_message (Some msg) sms.2 /\
     (max_retries r <= retry_count r ->
      status r' = FAILED /\ retry_count r' = retry_count r /\
      error_message r' = Some msg /\ server w' = server w) /\
     (retry_count r < max_retries r ->
      (forall t, datetime_add now (retry_interval r) = Ok t ->
         t = now + retry_interval r /\
         status r' = RETRY /\ retry_count r' = retry_count r + 1 /\
         error_message r' = Some msg /\ scheduled_time r' = Some t /\
         (redis_client w = true -> reachable (server w) = true ->
          (Entry (entry_of r'), t) ∈ scheduled (server w')) /\
         (redis_client w = false \/ reachable (server w) = false ->
          server w' = server w)) /\
      (forall e, datetime_add now (retry_interval r) = Raise e ->
         status r' = FAILED /\ retry_count r' = retry_count r + 1 /\
         error_message r' = Some (exn_str e) /\ server w' = server w))).
Proof.
  intros Hboth Hpatient sms voice r' w'.
  assert (Hsend : send env (set_status PENDING r) patient
                  = (sms.1 && voice.1, voice.2)).
  { unfold send. cbn [delivery_method set_status]. rewrite Hboth.
    subst voice sms.
    destruct (_send_sms_reminder env (set_status PENDING r) patient)
      as [b1 r1]. cbn [fst snd].
    now destruct (_send_voice_reminder env r1 patient). }
  destruct (send_sms_counts env (set_status PENDING r) patient) as [Hc1 _].
  destruct (send_voice_counts env sms.2 patient) as [Hc2 _].
  fold sms in Hc1. fold voice in Hc2.
  cbn [retry_count set_status] in Hc1.
  assert (Hc : retry_count voice.2 = retry_count r) by congruence.
  pose proof (process_reminder_known env now r w patient Hpatient) as Hk.
  cbv zeta in Hk. rewrite Hsend in Hk. cbn [fst snd] in Hk.
  subst r' w'. rewrite Hk. clear Hk.
  split; [now rewrite Hsend|]. split.
  - destruct sms.1, voice.1; cbn [andb];
      [split; [auto | reflexivity] | | | ];
      (split; [|intros [? ?]; discriminate]);
      (destruct (retry_count r <? max_retries r);
       [destruct (datetime_add now (retry_interval r))|]);
      intros H; cbn in H; discriminate.
  - intros Hs Hv. rewrite Hs, Hv. cbn [andb]. cbv iota.
    destruct (voice_failure_message env sms.2 patient Hv) as [msg Hmsg].
    fold voice in Hmsg. exists msg. split; [exact Hmsg|]. split.
    + intros Hge. rewrite (proj2 (Z.ltb_ge _ _)) by lia. cbn [fst snd].
      cbn. rewrite Hc, Hmsg. repeat split; reflexivity.
    + intros Hlt. rewrite (proj2 (Z.ltb_lt _ _)) by lia. split.
      * intros t Ht. rewrite Ht. cbn [fst snd].
        split; [now apply datetime_add_sum|].
        split; [reflexivity|]. split; [reflexivity|].
        split; [cbn; now rewrite Hmsg|]. split; [reflexivity|]. split.
        -- intros Hcl Hup.
           cbn [server _update_reminder_in_db put_table].
           match goal with
           | |- (Entry (entry_of ?a), t) ∈ scheduled (server (_schedule_reminder ?b ?w1)) =>
               replace (entry_of a) with (entry_of b) by reflexivity;
               apply (schedule_reminder_entry b t w1);
                 [exact Hcl | exact Hup | reflexivity]
           end.
        -- intros Hno.
           cbn [server _update_reminder_in_db put_table].
           now rewrite schedule_reminder_no_queue.
      * intros e He. rewrite He. cbn [fst snd process_failed].
        repeat split; reflexivity.
Qed.

Lemma both_channels_dispatch_witness :
  let r := four_retries_reminder in
  let w := service_with r in
  let sms := _send_sms_reminder voice_refused (set_status PENDING r)
               (mkPatient "A" "+237x" "fr") in
  let voice := _send_voice_reminder voice_refused sms.2
                 (mkPatient "A" "+237x" "fr") in
  let r' := (_process_reminder voice_refused 150 r w).1 in
  let w' := (_process_reminder voice_refused 150 r w).2 in
  ((send voice_refused (set_status PENDING r) (mkPatient "A" "+237x" "fr")).1
   = sms.1 && voice.1 /\
   (status r' = SENT <-> sms.1 = true /\ voice.1 = true) /\
   (sms.1 = true -> voice.1 = false ->
    exists msg,
      voice.2 = set_error_message (Some msg) sms.2 /\
      (max_retries r <= retry_count r ->
       status r' = FAILED /\ retry_count r' = retry_count r /\
       error_message r' = Some msg /\ server w' = server w) /\
      (retry_count r < max_retries r ->
       (forall t, datetime_add 150 (retry_interval r) = Ok t ->
          t = 150 + retry_interval r /\
          status r' = RETRY /\ retry_count r' = retry_count r + 1 /\
          error_message r' = Some msg /\ scheduled_time r' = Some t /\
          (redis_client w = true -> reachable (server w) = true ->
           (Entry (entry_of r'), t) ∈ scheduled (server w')) /\
          (redis_client w = false \/ reachable (server w) = false ->
           server w' = server w)) /\
       (forall e, datetime_add 150 (retry_interval r) = Raise e ->
          status r' = FAILED /\ retry_count r' = retry_count r + 1 /\
          error_message r' = Some (exn_str e) /\ server w' = server w)))) /\
  sms.1 = true /\ voice.1 = false /\ retry_count r < max_retries r /\
  datetime_add 150 (retry_interval r) = Ok 450 /\
  redis_client w = true /\ reachable (server w) = true.
Proof.
  split.
  - apply (both_channels_dispatch voice_refused 150 four_retries_reminder
             (service_with four_retries_reminder) (mkPatient "A" "+237x" "fr"));
      reflexivity.
  - repeat split.
Defined.

(** C7 as stated fails: the SMS is accepted, the call is refused for a
    malformed number, and the reminder, which has retries left, is put in
    RETRY and back in the queue instead of being left FAILED. *)
Lemma voice_refusal_is_retried :
  let (r', w') :=
    _process_reminder voice_refused 150 four_retries_reminder
      (service_with four_retries_reminder) in
  (_send_sms_reminder voice_refused (set_status PENDING four_retries_reminder)
     (mkPatient "A" "+237x" "fr")).1 = true /\
  (_send_voice_reminder voice_refused
     (_send_sms_reminder voice_refused
        (set_status PENDING four_retries_reminder)
        (mkPatient "A" "+237x" "fr")).2
     (mkPatient "A" "+237x" "fr")).1 = false /\
  error_message r' = Some "Invalid 'To' phone number" /\
  status r' = RETRY /\ status r' <> FAILED /\ retry_count r' = 1 /\
  map snd (scheduled (server w')) = [450].
Proof. vm_compute. repeat split; discriminate. Qed.

End BothChannelsClaim.

(** ** Terminal statuses *)

Section TerminalStatus.
Import Redis ReminderService Worker Samples.

Lemma find_id_update_other i r' w :
  id r' <> Some i ->
  _get_reminder_from_db i (_update_reminder_in_db r' w)
  = _get_reminder_from_db i w.
Proof.
  intros Hne. unfold _get_reminder_from_db, _update_reminder_in_db.
  cbn [table put_table].
  induction (table w) as [|x l IH]; cbn [map find]; [reflexivity|].
  destruct (decide (id x = id r')) as [He|He].
  - rewrite (bool_decide_eq_false_2 (id r' = Some i)) by assumption.
    rewrite (bool_decide_eq_false_2 (id x = Some i)) by congruence. exact IH.
  - destruct (bool_decide (id x = Some i)); [reflexivity | exact IH].
Qed.

Lemma find_id_schedule i r w :
  _get_reminder_from_db i (_schedule_reminder r w) = _get_reminder_from_db i w.
Proof. unfold _get_reminder_from_db. now rewrite schedule_reminder_table. Qed.

Lemma find_id_has_id i r w : _get_reminder_from_db i w = Some r -> id r = Some i.
Proof.
  intros H. apply find_some in H as [_ H]. now apply bool_decide_eq_true in H.
Qed.

(** Processing a reminder leaves the records of other identifiers alone. *)
Lemma process_reminder_other env now r0 w i :
  id r0 <> Some i ->
  _get_reminder_from_db i (_process_reminder env now r0 w).2
  = _get_reminder_from_db i w.
Proof.
  intros Hne.
  destruct (get_patient_by_id env (patient_id r0)) as [p|] eqn:Hp.
  2:{ unfold _process_reminder. rewrite Hp. cbn [snd process_failed].
      now apply find_id_update_other. }
  rewrite (process_reminder_known env now r0 w p Hp). cbv zeta.
  pose proof (send_frame env (set_status PENDING r0) p) as Hf. cbv zeta in Hf.
  destruct (send env (set_status PENDING r0) p) as [ok r1]. cbn [fst snd] in *.
  destruct Hf as (He & _).
  assert (Hid : id r1 = id r0) by (apply (f_equal e_id) in He; exact He).
  assert (Hne1 : id r1 <> Some i) by congruence.
  destruct ok;
    [|destruct (retry_count r0 <? max_retries r0);
      [destruct (datetime_add now (retry_interval r0))|]];
    cbn [snd process_failed];
    repeat first [rewrite find_id_schedule
                 |rewrite find_id_update_other by exact Hne1
                 |rewrite find_id_update_other by exact Hne];
    reflexivity.
Qed.

(** The worker's loop over the due members leaves a record that is neither
    SCHEDULED nor RETRY as it is. *)
Lemma process_due_keeps env now due i r w :
  _get_reminder_from_db i w = Some r ->
  status r ∉ [SCHEDULED; RETRY] ->
  _get_reminder_from_db i (process_due env now due w).2 = Some r.
Proof.
  intros Hfind Hst. revert w Hfind.
  induction due as [|[m sc] due IH]; intros w Hfind; [exact Hfind|].
  cbn [process_due].
  destruct (load_id m) as [d|e].
  - set (w1 := match reminder_of_member_id d w with
               | Some reminder =>
                   if bool_decide (status reminder ∈ [SCHEDULED; RETRY])
                   then (_process_reminder env now reminder w).2 else w
               | None => w
               end).
    assert (H1 : _get_reminder_from_db i w1 = Some r).
    { subst w1. destruct (reminder_of_member_id d w) as [r0|] eqn:Hr0;
        [|exact Hfind].
      destruct (bool_decide (status r0 ∈ [SCHEDULED; RETRY])) eqn:Hs;
        [|exact Hfind].
      apply bool_decide_eq_true in Hs.
      rewrite process_reminder_other; [exact Hfind|].
      destruct d as [j|]; [|discriminate]. cbn in Hr0.
      rewrite (find_id_has_id j r0 w Hr0). intros [= ->].
      rewrite Hfind in Hr0. injection Hr0 as <-. now apply Hst. }
    destruct (zrem SCHEDULED_REMINDERS m (server w1)) as [[n|e] s].
    + apply IH. exact H1.
    + destruct (zrem SCHEDULED_REMINDERS m (server (put_server s w1)))
        as [[n|e'] s']; [apply IH|]; exact H1.
  - destruct (zrem SCHEDULED_REMINDERS m (server w)) as [[n|e'] s];
      [apply IH|]; exact Hfind.
Qed.

(** C1, amended. None of the operations of the reminder service on a
    stored reminder moves it out of a terminal status (SENT, DELIVERED,
    CANCELLED, FAILED) except the two that schedule a retry.  An update
    keeps the status; a cancellation leaves a terminal status; the worker's
    cycle over the queue leaves the record as it is.  A delivery-status
    callback for the reminder leaves a
    FAILED reminder in a terminal status always, and any terminal reminder
    unless the callback reports a failure ([failed] or [undelivered]) for a
    reminder that is not FAILED and has a retry left: then, when the retry
    time [now + retry_interval] is a date, the reminder is left in RETRY
    with [retry_count] one higher, and when it is not the handler raises
    the [OverflowError] and changes nothing.  [retry_failed_reminder] puts
    the reminder in RETRY when it is forced, or the reminder is FAILED with
    a retry left, and the retry time is a date; in every other case it
    changes nothing. *)
Theorem terminal_status_kept env now i w r :
  _get_reminder_from_db i w = Some r ->
  terminal (status r) = true ->
  (forall u, exists r',
     _get_reminder_from_db i (update_reminder now i u w).2 = Some r' /\
     status r' = status r) /\
  (exists r',
     _get_reminder_from_db i (cancel_reminder now i w).2 = Some r' /\
     terminal (status r') = true) /\
  (forall due, _get_reminder_from_db i (process_due env now due w).2 = Some r) /\
  (forall due_from_db, redis_client w = true ->
     _get_reminder_from_db i (_process_due_reminders due_from_db env now w)
     = Some r) /\
  (forall sid st ec em, _get_reminder_by_twilio_sid sid w = Some r ->
     exists r',
       _get_reminder_by_twilio_sid sid
         (update_delivery_status now sid st ec em w).2 = Some r' /\
       (status r = FAILED -> terminal (status r') = true) /\
       (~ retry_scheduled st r -> terminal (status r') = true) /\
       (retry_scheduled st r ->
        (forall t, datetime_add now (retry_interval r) = Ok t ->
           status r' = RETRY /\ retry_count r' = retry_count r + 1) /\
        (forall e, datetime_add now (retry_interval r) = Raise e ->
           update_delivery_status now sid st ec em w = (Raise e, w) /\
           r' = r))) /\
  (forall force,
     let retried :=
       force = true \/ status r = FAILED /\ retry_count r < max_retries r in
     let w' := (retry_failed_reminder now i force w).2 in
     (retried ->
      forall t, datetime_add now (retry_interval r) = Ok t ->
      exists r', _get_reminder_from_db i w' = Some r' /\ status r' = RETRY) /\
     (~ retried -> w' = w) /\
     (forall e, datetime_add now (retry_interval r) = Raise e -> w' = w)).
Proof.
  intros Hfind Hterm.
  pose proof (find_id_has_id i r w Hfind) as Hid.
  assert (Hkeep : status r ∉ [SCHEDULED; RETRY]).
  { rewrite !elem_of_cons, elem_of_nil. destruct (status r); intuition discriminate. }
  split; [|split; [|split; [|split; [|split]]]].
  - intros u. unfold update_reminder. rewrite Hfind.
    destruct (bool_decide (status r ∈ [SENT; DELIVERED; CANCELLED]));
      [exists r; split; [exact Hfind | reflexivity]|].
    cbn [snd]. eexists. split.
    + assert (Hget : _get_reminder_from_db i
                (_update_reminder_in_db
                   (set_updated_at (Some now) (apply_update u r)) w)
              = Some (set_updated_at (Some now) (apply_update u r))).
      { apply (find_id_after_update i r); [exact Hfind|].
        unfold apply_update.
        destruct (u_scheduled_time u), (u_priority u), (u_custom_message u),
          (u_metadata u), (u_max_retries u), (u_retry_interval u); reflexivity. }
      destruct (u_scheduled_time u); [|exact Hget].
      unfold _get_reminder_from_db in *. now rewrite reschedule_reminder_table.
    + unfold apply_update.
      destruct (u_scheduled_time u), (u_priority u), (u_custom_message u),
        (u_metadata u), (u_max_retries u), (u_retry_interval u); reflexivity.
  - unfold cancel_reminder. rewrite Hfind.
    destruct (bool_decide (status r ∈ [SENT; DELIVERED]));
      [exists r; split; [exact Hfind | exact Hterm]|].
    cbn [snd]. eexists. split.
    + unfold _get_reminder_from_db. rewrite remove_from_queue_table.
      now apply (find_id_after_update i r).
    + reflexivity.
  - intros due. now apply process_due_keeps.
  - intros due_from_db Hc. unfold _process_due_reminders. rewrite Hc.
    cbn [negb].
    destruct (RedisExtra.zrangebyscore_withscores _ _ _ _) as [[due|e] s];
      [now apply process_due_keeps | exact Hfind].
  - intros sid st ec em Hsid.
    destruct (update_delivery_status_found now sid st ec em w r Hsid)
      as (Hafter & _ & Hraise & _).
    exists (delivery_outcome now st ec em r). split; [exact Hafter|].
    assert (Hno : ~ retry_scheduled st r ->
                  terminal (status (delivery_outcome now st ec em r)) = true).
    { intros H. destruct (outcome_no_retry now st ec em r H) as (-> & _).
      destruct (status_mapping !! lower st) eqn:Hmap; [|exact Hterm].
      now apply (status_mapping_terminal (lower st)). }
    split; [|split; [exact Hno|]].
    + intros Hf. apply Hno. intros (_ & Hne & _). congruence.
    + intros H. split.
      * intros t Ht.
        now destruct (outcome_retry now st ec em r t H Ht) as (? & ? & _).
      * intros e He. split; [now apply Hraise|].
        now apply (outcome_overflow now st ec em r e).
  - intros force retried w'. subst retried w'.
    unfold retry_failed_reminder. rewrite Hfind.
    change (retry_interval (set_status RETRY r)) with (retry_interval r).
    destruct (bool_decide (status r <> FAILED) && negb force) eqn:H1.
    { cbn [snd]. split; [|split; reflexivity].
      apply andb_true_iff in H1 as [H1 H2]. apply bool_decide_eq_true in H1.
      apply negb_true_iff in H2. intros [?|[? _]]; congruence. }
    destruct ((max_retries r <=? retry_count r) && negb force) eqn:H2.
    { cbn [snd]. split; [|split; reflexivity].
      apply andb_true_iff in H2 as [H2 H3]. apply Z.leb_le in H2.
      apply negb_true_iff in H3. intros [?|[_ ?]]; [congruence | lia]. }
    split; [|split].
    + intros _ t Ht. rewrite Ht. cbn [snd].
      destruct (retry_rescheduled now i r t w Hfind) as [Hget _].
      eexists. split; [exact Hget | reflexivity].
    + intros Hnot. exfalso. apply Hnot.
      destruct force; [now left | right]. cbn [negb] in *.
      rewrite andb_true_r in H1, H2. apply bool_decide_eq_false in H1.
      apply Z.leb_gt in H2. split; [|exact H2].
      destruct (decide (status r = FAILED)); [assumption | contradiction].
    + intros e He. now rewrite He.
Qed.

Lemma terminal_status_kept_witness :
  let r := delivered_reminder in
  let w := service_with r in
  ((forall u, exists r',
      _get_reminder_from_db 1 (update_reminder 70 1 u w).2 = Some r' /\
      status r' = status r) /\
   (exists r',
      _get_reminder_from_db 1 (cancel_reminder 70 1 w).2 = Some r' /\
      terminal (status r') = true) /\
   (forall due,
      _get_reminder_from_db 1 (process_due voice_refused 70 due w).2 = Some r) /\
   (forall due_from_db, redis_client w = true ->
      _get_reminder_from_db 1
        (_process_due_reminders due_from_db voice_refused 70 w) = Some r) /\
   (forall sid st ec em, _get_reminder_by_twilio_sid sid w = Some r ->
      exists r',
        _get_reminder_by_twilio_sid sid
          (update_delivery_status 70 sid st ec em w).2 = Some r' /\
        (status r = FAILED -> terminal (status r') = true) /\
        (~ retry_scheduled st r -> terminal (status r') = true) /\
        (retry_scheduled st r ->
         (forall t, datetime_add 70 (retry_interval r) = Ok t ->
            status r' = RETRY /\ retry_count r' = retry_count r + 1) /\
         (forall e, datetime_add 70 (retry_interval r) = Raise e ->
            update_delivery_status 70 sid st ec em w = (Raise e, w) /\
            r' = r))) /\
   (forall force,
      let retried :=
        force = true \/ status r = FAILED /\ retry_count r < max_retries r in
      let w' := (retry_failed_reminder 70 1 force w).2 in
      (retried ->
       forall t, datetime_add 70 (retry_interval r) = Ok t ->
       exists r', _get_reminder_from_db 1 w' = Some r' /\ status r' = RETRY) /\
      (~ retried -> w' = w) /\
      (forall e, datetime_add 70 (retry_interval r) = Raise e -> w' = w))) /\
  _get_reminder_by_twilio_sid "SM1" w = Some r /\
  status r = DELIVERED /\
  _get_reminder_by_twilio_sid "SM1"
    (update_delivery_status 70 "SM1" "sent" None None w).2
  = Some (set_updated_at (Some 70) (set_status SENT r)) /\
  (let big := set_retry_interval (10 ^ 12) r in
   update_delivery_status 70 "SM1" "failed" None None (service_with big)
   = (Raise (OverflowError "date value out of range"), service_with big)).
Proof.
  split.
  - apply (terminal_status_kept voice_refused 70 1
             (service_with delivered_reminder) delivered_reminder);
      reflexivity.
  - repeat split.
Defined.

(** C1 as stated fails.  A reminder that was delivered receives a late
    [failed] callback for its external identifier: it has retries left, so
    the handler schedules a retry and the reminder leaves DELIVERED for
    RETRY.  And a FAILED reminder with a retry left is put back in RETRY by
    [retry_failed_reminder]. *)
Lemma delivered_regresses_to_retry :
  let w := service_with delivered_reminder in
  let w' := (update_delivery_status 70 "SM1" "failed" None None w).2 in
  let failed := set_retry_count 1 failed_reminder in
  let v := service_with failed in
  let v' := (retry_failed_reminder 70 1 false v).2 in
  (status <$> _get_reminder_by_twilio_sid "SM1" w = Some DELIVERED /\
   terminal DELIVERED = true /\
   (update_delivery_status 70 "SM1" "failed" None None w).1 = Ok true /\
   status <$> _get_reminder_by_twilio_sid "SM1" w' = Some RETRY /\
   terminal RETRY = false /\
   retry_count <$> _get_reminder_by_twilio_sid "SM1" w' = Some 1 /\
   map snd (scheduled (server w')) = [370]) /\
  (status <$> _get_reminder_from_db 1 v = Some FAILED /\
   terminal FAILED = true /\
   (retry_failed_reminder 70 1 false v).1 = Ok true /\
   status <$> _get_reminder_from_db 1 v' = Some RETRY).
Proof. vm_compute. repeat split. Qed.

End TerminalStatus.
